(** * sage-setup: the installation engine of [sage_dev.installer]

    A shallow embedding of [src/sage_dev/installer.py] (with the install
    loop of [src/sage_dev/cli.py] and the tables of
    [src/sage_dev/constants.py]) over a model of the filesystem, and the
    statements of its specification proved against it.

    Layout:
    - [node], [lookup_path], [update]: the filesystem as a tree;
    - [world], [outcome], [M]: the state-and-exception monad the Python
      code runs in (filesystem, clock reads, console output);
    - the [pathlib] / [os] / [shutil] / [datetime] calls the installer makes;
    - the installer itself, function by function, under the source's names;
    - the properties. *)

From Stdlib Require Import Ascii.
From stdpp Require Import gmap strings list pretty.

#[local] Set Warnings "-register-all".

(** ** Paths

    A [pathlib.Path] is always absolute here (the code anchors every path
    at [Path.cwd()] or [Path.home()]): the list of its components below
    the root. [p / "x"] is [p ++ ["x"]] for a name ["x"] of one component
    (not empty, not [.] or [..], without a separator); the code joins
    constants, the names a listing returns, and the language, and the
    properties that depend on where the language leads take it from
    [SUPPORTED_LANGUAGES]. *)

Definition path := list string.

(** [p / x]. *)
Notation "p </> x" := (@app string p (@cons string x (@nil string)))
  (at level 40, left associativity).

(** [Path.parent]: the root is its own parent. *)
Definition parent (p : path) : path := removelast p.

(** [Path.name]: the last component, empty for the root. *)
Definition name (p : path) : string := default "" (last p).

(** [str(path)], as interpolated in messages. *)
Definition show_path (p : path) : string :=
  match p with
  | [] => "/"
  | _ => foldr (λ x acc, "/" +:+ x +:+ acc) "" p
  end.

(** ** The filesystem tree

    Regular files carry their contents. A directory carries its entries and
    one permission bit: whether entries may be created in it (the owner's
    write bit). Regular files are taken as writable by the owner, so an
    existing file can always be overwritten; links, special files and read
    permissions are not modelled. *)

Inductive node : Type :=
  | File (data : string)
  | Dir (writable : bool) (entries : gmap string node).

Definition is_dir_node (n : node) : bool :=
  match n with Dir _ _ => true | File _ => false end.

Definition is_file_node (n : node) : bool :=
  match n with File _ => true | Dir _ _ => false end.

Fixpoint lookup_path (p : path) (n : node) : option node :=
  match p with
  | [] => Some n
  | x :: p' =>
      match n with
      | Dir _ es => es !! x ≫= lookup_path p'
      | File _ => None
      end
  end.

(** The error a system call reports for a path that does not resolve:
    [ENOTDIR] when a component on the way is a regular file, [ENOENT]
    otherwise. *)

Inductive exn : Type :=
  | FileNotFoundError
  | FileExistsError
  | NotADirectoryError
  | IsADirectoryError
  | PermissionError
  | SameFileError
  | KeyError.

#[global] Instance exn_eq_dec : EqDecision exn.
Proof. solve_decision. Defined.

Fixpoint resolve_error (p : path) (n : node) : exn :=
  match p with
  | [] => FileNotFoundError
  | x :: p' =>
      match n with
      | File _ => NotADirectoryError
      | Dir _ es =>
          match es !! x with
          | Some c => resolve_error p' c
          | None => FileNotFoundError
          end
      end
  end.

(** [update p f n] rewrites the node at [p] by [f]; [None] when [p] does
    not resolve or [f] refuses. *)
Fixpoint update (p : path) (f : node → option node) (n : node) : option node :=
  match p with
  | [] => f n
  | x :: p' =>
      match n with
      | Dir w es =>
          c ← es !! x;
          c' ← update p' f c;
          Some (Dir w (<[x := c']> es))
      | File _ => None
      end
  end.

(** Bind (create or replace) the entry [x] of a directory. *)
Definition set_entry (x : string) (new : node) (d : node) : option node :=
  match d with
  | Dir w es => Some (Dir w (<[x := new]> es))
  | File _ => None
  end.

(** Place [new] at [p], whose parent must be a directory. *)
Definition put (p : path) (new : node) (r : node) : option node :=
  match p with
  | [] => Some new
  | _ => update (parent p) (set_entry (name p) new) r
  end.

(** ** The world the installer runs in *)

(** What [rich] prints: the [show_*] helpers of [display.py], bare
    [console.print()] lines, rules and the descriptions of progress tasks.
    Markup is left out; the spinner's redraws are not recorded. *)
Inductive event : Type :=
  | Info (msg : string)
  | Success (msg : string)
  | Warning (msg : string)
  | Error (msg : string)
  | Print (text : string)
  | Rule (title : string)
  | Task (description : string).

(** The wall clock, as [datetime.now()] reads it. *)
Record datetime : Type := Datetime {
  year : nat; month : nat; day : nat;
  hour : nat; minute : nat; second : nat
}.

Record world : Type := World {
  root : node;            (* the filesystem *)
  ticks : nat;            (* how many times the clock has been read *)
  out : list event        (* console output, oldest first *)
}.

Definition with_root (r : node) (w : world) : world :=
  World r (ticks w) (out w).

(** The process environment: working directory, home directory, and the
    time each successive clock read returns. *)
Record env : Type := Env {
  cwd : path;
  home : path;
  clock : nat → datetime
}.

(** A Python call either returns a value or raises; both leave a world. *)
Inductive outcome (A : Type) : Type :=
  | Ok (a : A) (w : world)
  | Raise (e : exn) (w : world).
Arguments Ok {A} a w.
Arguments Raise {A} e w.

Definition M (A : Type) : Type := world → outcome A.

Definition ret {A} (a : A) : M A := λ w, Ok a w.

Definition bind {A B} (c : M A) (k : A → M B) : M B :=
  λ w, match c w with
       | Ok a w' => k a w'
       | Raise e w' => Raise e w'
       end.

Definition raise {A} (e : exn) : M A := λ w, Raise e w.

(** [try: c except OSError as e: h e] (every [exn] but [KeyError] is an
    [OSError]; no handler of the modelled code sees a [KeyError]). *)
Definition try_catch {A} (c : M A) (h : exn → M A) : M A :=
  λ w, match c w with
       | Ok a w' => Ok a w'
       | Raise e w' => h e w'
       end.

Declare Scope py_scope.
Delimit Scope py_scope with py.
Notation "'do' x <- c ; k" := (bind c (λ x, k))
  (at level 20, x name, c at level 100, k at level 200) : py_scope.
Notation "'do' ' pat <- c ; k" := (bind c (λ x, match x with pat => k end))
  (at level 20, pat pattern, c at level 100, k at level 200) : py_scope.
Notation "c ;; k" := (bind c (λ _, k))
  (at level 100, k at level 200, right associativity) : py_scope.
#[local] Open Scope py_scope.

Definition emit (e : event) : M unit :=
  λ w, Ok tt (World (root w) (ticks w) (out w ++ [e])).

(** ** [display.py] *)

Definition show_error (message : string) : M unit := emit (Error message).
Definition show_warning (message : string) : M unit := emit (Warning message).
Definition show_success (message : string) : M unit := emit (Success message).
Definition show_info (message : string) : M unit := emit (Info message).
Definition console_print : M unit := emit (Print "").

Definition show_installation_progress (agent : string) : M unit :=
  emit (Rule ("Installing to: " +:+ agent)) ;;
  console_print.

(** ** [pathlib], [os], [shutil], [datetime] *)

(** [Path.exists()]: false for a path that does not resolve, whatever the
    reason. *)
Definition Path_exists (p : path) : M bool :=
  λ w, Ok (bool_decide (is_Some (lookup_path p (root w)))) w.

Definition Path_is_dir (p : path) : M bool :=
  λ w, Ok (from_option is_dir_node false (lookup_path p (root w))) w.

Definition Path_is_file (p : path) : M bool :=
  λ w, Ok (from_option is_file_node false (lookup_path p (root w))) w.

(** [Path.iterdir()], drained: the children of a directory. *)
Definition Path_iterdir (p : path) : M (list path) :=
  λ w, match lookup_path p (root w) with
       | Some (Dir _ es) => Ok ((λ kv, p </> kv.1) <$> map_to_list es) w
       | Some (File _) => Raise NotADirectoryError w
       | None => Raise (resolve_error p (root w)) w
       end.

(** Shell-style matching of one path component, as [fnmatch] does for a
    pattern made of [*], [?] and literal characters (character classes
    [[...]] and the recursive [**] are not modelled). *)
Fixpoint fnmatch (pat : string) (s : string) : bool :=
  match pat with
  | EmptyString => bool_decide (s = EmptyString)
  | String "*"%char pat' =>
      (fix star (s : string) : bool :=
         fnmatch pat' s ||
         match s with
         | EmptyString => false
         | String _ s' => star s'
         end) s
  | String "?"%char pat' =>
      match s with
      | EmptyString => false
      | String _ s' => fnmatch pat' s'
      end
  | String c pat' =>
      match s with
      | EmptyString => false
      | String c' s' => bool_decide (c = c') && fnmatch pat' s'
      end
  end.

(** The entries of a directory node whose name matches, as [(name, node)]. *)
Definition matching (pattern : string) (n : node) : list (string * node) :=
  match n with
  | Dir _ es => filter (λ kv, fnmatch pattern kv.1 = true) (map_to_list es)
  | File _ => []
  end.

(** [Path.glob(pattern)], drained: nothing for a path that is not a
    directory; hidden names are matched like any other. The listing is
    taken when the iteration starts. *)
Definition Path_glob (p : path) (pattern : string) : M (list path) :=
  λ w, Ok (from_option (λ n, (λ kv, p </> kv.1) <$> matching pattern n) []
             (lookup_path p (root w))) w.

(** [os.mkdir(p)]: [EEXIST] before [EACCES], as the kernel checks. *)
Definition os_mkdir (p : path) : M unit :=
  λ w, match lookup_path p (root w) with
       | Some _ => Raise FileExistsError w
       | None =>
           match lookup_path (parent p) (root w) with
           | None => Raise (resolve_error (parent p) (root w)) w
           | Some (File _) => Raise NotADirectoryError w
           | Some (Dir false _) => Raise PermissionError w
           | Some (Dir true _) =>
               match put p (Dir true ∅) (root w) with
               | Some r' => Ok tt (with_root r' w)
               | None => Raise FileNotFoundError w
               end
           end
       end.

(** [Path.mkdir(parents=False, exist_ok=exist_ok)]. *)
Definition Path_mkdir_single (p : path) (exist_ok : bool) : M unit :=
  try_catch (os_mkdir p) (λ e,
    match e with
    | FileNotFoundError => raise e
    | _ =>
        do d <- Path_is_dir p;
        if negb exist_ok || negb d then raise e else ret tt
    end).

(** [Path.mkdir(parents=True, exist_ok=exist_ok)] on the path whose
    components, innermost first, are [rp]: try [os.mkdir]; on [ENOENT]
    make the parent (with [parents=True, exist_ok=True]) and retry without
    [parents]; on any other error accept an existing directory when
    [exist_ok]. *)
Fixpoint Path_mkdir_rev (rp : list string) (exist_ok : bool) : M unit :=
  try_catch (os_mkdir (rev rp)) (λ e,
    match e with
    | FileNotFoundError =>
        match rp with
        | [] => raise e
        | _ :: rp' =>
            Path_mkdir_rev rp' true ;;
            Path_mkdir_single (rev rp) exist_ok
        end
    | _ =>
        do d <- Path_is_dir (rev rp);
        if negb exist_ok || negb d then raise e else ret tt
    end).

(** [p.mkdir(parents=True, exist_ok=True)]. *)
Definition Path_mkdir (p : path) : M unit := Path_mkdir_rev (rev p) true.

(** [os.makedirs(name, exist_ok=False)] on the path whose components,
    innermost first, are [rp]: make the missing ancestors first (a
    [FileExistsError] from them is swallowed), then [os.mkdir]. *)
Fixpoint os_makedirs_rev (rp : list string) : M unit :=
  match rp with
  | [] => os_mkdir []
  | _ :: rp' =>
      do head_exists <- Path_exists (rev rp');
      (if head_exists then ret tt
       else try_catch (os_makedirs_rev rp') (λ e,
              match e with
              | FileExistsError => ret tt
              | _ => raise e
              end)) ;;
      os_mkdir (rev rp)
  end.

Definition os_makedirs (p : path) : M unit := os_makedirs_rev (rev p).

(** [shutil.copy2(src, dst)]: a directory [dst] means "into it, under the
    source's name"; copying a file onto itself is an error; the source is
    opened before the destination. Metadata is not modelled. *)
Definition shutil_copy2 (src dst : path) : M unit :=
  do d <- Path_is_dir dst;
  let dst := if d then dst </> name src else dst in
  λ w,
    if bool_decide (src = dst) && bool_decide (is_Some (lookup_path src (root w)))
    then Raise SameFileError w
    else
      match lookup_path src (root w) with
      | None => Raise (resolve_error src (root w)) w
      | Some (Dir _ _) => Raise IsADirectoryError w
      | Some (File data) =>
          match lookup_path dst (root w) with
          | Some (Dir _ _) => Raise IsADirectoryError w
          | Some (File _) =>
              match put dst (File data) (root w) with
              | Some r' => Ok tt (with_root r' w)
              | None => Raise FileNotFoundError w
              end
          | None =>
              match lookup_path (parent dst) (root w) with
              | None => Raise (resolve_error (parent dst) (root w)) w
              | Some (File _) => Raise NotADirectoryError w
              | Some (Dir false _) => Raise PermissionError w
              | Some (Dir true _) =>
                  match put dst (File data) (root w) with
                  | Some r' => Ok tt (with_root r' w)
                  | None => Raise FileNotFoundError w
                  end
              end
          end
      end.

(** [shutil.copytree(src, dst)]: list [src] (it must be a directory), make
    [dst] with [os.makedirs] (it must not exist), copy the entries
    recursively and give [dst] the permissions of [src]. The listing is
    taken before [dst] is made and a fresh directory is writable, so the
    copy is the subtree as it was. *)
Definition shutil_copytree (src dst : path) : M path :=
  λ w, match lookup_path src (root w) with
       | None => Raise (resolve_error src (root w)) w
       | Some (File _) => Raise NotADirectoryError w
       | Some (Dir wr es) =>
           (os_makedirs dst ;;
            λ w', match put dst (Dir wr es) (root w') with
                  | Some r' => Ok dst (with_root r' w')
                  | None => Raise FileNotFoundError w'
                  end) w
       end.

(** [datetime.now()]. *)
Definition datetime_now (E : env) : M datetime :=
  λ w, Ok (clock E (ticks w)) (World (root w) (S (ticks w)) (out w)).

Definition digit (n : nat) : ascii := ascii_of_nat (48 + n `mod` 10).

Definition pad2 (n : nat) : string :=
  String (digit (n `div` 10)) (String (digit n) "").

Definition pad4 (n : nat) : string :=
  String (digit (n `div` 1000)) (String (digit (n `div` 100)) (pad2 n)).

(** [dt.strftime("%Y%m%d-%H%M%S")]. *)
Definition strftime (dt : datetime) : string :=
  pad4 (year dt) +:+ pad2 (month dt) +:+ pad2 (day dt) +:+ "-" +:+
  pad2 (hour dt) +:+ pad2 (minute dt) +:+ pad2 (second dt).

(** A [for] loop threading one accumulator. *)
Fixpoint for_each {A S : Type} (l : list A) (acc : S) (body : A → S → M S) : M S :=
  match l with
  | [] => ret acc
  | x :: l' => do acc' <- body x acc; for_each l' acc' body
  end.

(** [d[k]] on a [dict]. *)
Definition getitem {V : Type} (d : gmap string V) (k : string) : M V :=
  match d !! k with
  | Some v => ret v
  | None => raise KeyError
  end.

Section Installer.

Context (E : env).

(** ** [constants.py] *)

Definition SUPPORTED_LANGUAGES : list string :=
  ["python"; "javascript"; "typescript"].

Definition AGENT_DIRS : gmap string path :=
  list_to_map [
    ("claude-code", home E </> ".claude" </> "commands");
    ("opencode", home E </> ".config" </> "opencode" </> "commands");
    ("droid", home E </> ".factory" </> "commands")
  ].

Definition AGENT_AGENT_DIRS : gmap string path :=
  list_to_map [
    ("claude-code", home E </> ".claude" </> "agents");
    ("opencode", home E </> ".config" </> "opencode" </> "agent");
    ("droid", home E </> ".factory" </> "agents")
  ].

Definition AGENT_RULES_DIRS : gmap string path :=
  list_to_map [
    ("claude-code", home E </> ".claude" </> "rules");
    ("opencode", home E </> ".config" </> "opencode" </> "rules");
    ("droid", home E </> ".factory" </> "rules")
  ].

(** ** [installer.py] *)

Record InstallationResult : Type := mkInstallationResult {
  commands_installed : nat;
  agents_installed : nat;
  rules_installed : nat;
  success : bool;
  errors : list string
}.

Definition get_script_dir : path := cwd E.

Definition get_source_dirs : path * path * path :=
  let script_dir := get_script_dir in
  (script_dir </> "commands", script_dir </> "agents", script_dir </> "rules").

(** [agents_dir / language] is the directory [language] of [agents_dir]:
    the join of one component. *)
Definition count_files (language : string) : M (nat * nat * nat * nat) :=
  let '(commands_dir, agents_dir, rules_dir) := get_source_dirs in
  do command_count <-
    (do e <- Path_exists commands_dir;
     if e then do l <- Path_glob commands_dir "*.md"; ret (length l) else ret 0);
  let shared_agent_dir := agents_dir </> "shared" in
  do shared_agent_count <-
    (do e <- Path_exists shared_agent_dir;
     if e then do l <- Path_glob shared_agent_dir "*.md"; ret (length l) else ret 0);
  let lang_agent_dir := agents_dir </> language in
  do lang_agent_count <-
    (do e <- Path_exists lang_agent_dir;
     if e then do l <- Path_glob lang_agent_dir "*.md"; ret (length l) else ret 0);
  do rule_count <-
    (do e <- Path_exists rules_dir;
     if e then do l <- Path_glob rules_dir "*.md"; ret (length l) else ret 0);
  ret (command_count, shared_agent_count, lang_agent_count, rule_count).

(** [any(target_dir.iterdir())]: a [Path] is truthy. *)
Definition any_path (l : list path) : bool :=
  match l with [] => false | _ :: _ => true end.

Definition backup_existing_files (target_dir : path) : M (option path) :=
  do e <- Path_exists target_dir;
  do nothing_there <-
    (if negb e then ret true
     else do l <- Path_iterdir target_dir; ret (negb (any_path l)));
  if nothing_there then ret None
  else
    do now <- datetime_now E;
    let timestamp := strftime now in
    let backup_dir :=
      parent target_dir </> (name target_dir +:+ ".backup." +:+ timestamp) in
    shutil_copytree target_dir backup_dir ;;
    ret (Some backup_dir).

Definition copy_files (source_dir target_dir : path) (pattern : string) : M nat :=
  do e <- Path_exists source_dir;
  if negb e then ret 0
  else
    Path_mkdir target_dir ;;
    do files <- Path_glob source_dir pattern;
    for_each files 0 (λ file count,
      do f <- Path_is_file file;
      if f then
        shutil_copy2 file (target_dir </> name file) ;;
        ret (count + 1)
      else ret count).

(** The blocks of [install_to_agent], in the order of the source. *)

(** "Create directories". *)
Definition create_directories (commands_target agents_target rules_target : path)
  : M unit :=
  emit (Task "Creating directories...") ;;
  Path_mkdir commands_target ;;
  Path_mkdir agents_target ;;
  Path_mkdir rules_target ;;
  show_info ("Commands: " +:+ show_path commands_target) ;;
  show_info ("Agents: " +:+ show_path agents_target) ;;
  show_info ("Rules: " +:+ show_path rules_target) ;;
  console_print.

(** "Backup existing files". *)
Definition backup_commands (commands_target : path) : M unit :=
  emit (Task "Checking for existing files...") ;;
  do backup_dir <- backup_existing_files commands_target;
  match backup_dir with
  | Some b => show_info ("Backup saved to: " +:+ show_path b) ;; console_print
  | None => ret tt
  end.

(** "Copy command files". *)
Definition copy_commands (commands_dir commands_target : path) : M nat :=
  emit (Task "Copying command files...") ;;
  do commands_installed <- copy_files commands_dir commands_target "*.md";
  show_success ("Copied " +:+ pretty commands_installed +:+ " command files") ;;
  console_print ;;
  ret commands_installed.

(** "Copy agent files": shared agents, language-specific agents, registry;
    [agents_dir / language] as in [count_files]. *)
Definition copy_agents (agents_dir agents_target : path) (language : string)
  : M nat :=
  emit (Task "Copying agent files...") ;;
  let agents_installed := 0 in
  let shared_agent_dir := agents_dir </> "shared" in
  do e <- Path_exists shared_agent_dir;
  do agents_installed <-
    (if e then
       do shared_count <- copy_files shared_agent_dir agents_target "*.md";
       show_success ("Copied " +:+ pretty shared_count +:+ " shared agents") ;;
       ret (agents_installed + shared_count)
     else ret agents_installed);
  let lang_agent_dir := agents_dir </> language in
  do e <- Path_exists lang_agent_dir;
  do agents_installed <-
    (if e then
       do lang_count <- copy_files lang_agent_dir agents_target "*.md";
       show_success ("Copied " +:+ pretty lang_count +:+ " " +:+ language +:+ " agents") ;;
       ret (agents_installed + lang_count)
     else ret agents_installed);
  let registry_file := agents_dir </> "index.json" in
  do e <- Path_exists registry_file;
  (if e then
     shutil_copy2 registry_file (agents_target </> "index.json") ;;
     show_success "Copied agent registry (index.json)"
   else ret tt) ;;
  console_print ;;
  ret agents_installed.

(** "Copy rule files". *)
Definition copy_rules (rules_dir rules_target : path) : M nat :=
  emit (Task "Copying rule files...") ;;
  do rules_installed <- copy_files rules_dir rules_target "*.md";
  show_success ("Copied " +:+ pretty rules_installed +:+ " rule files") ;;
  console_print ;;
  ret rules_installed.

(** "Verify installation": compare with a fresh [count_files]. *)
Definition verify_installation (language : string)
    (commands_installed agents_installed rules_installed : nat) : M unit :=
  do '(command_count, shared_agent_count, lang_agent_count, rule_count) <-
    count_files language;
  let total_agent_count := shared_agent_count + lang_agent_count in
  (if bool_decide (commands_installed ≠ command_count) then
     show_warning ("Commands: Expected " +:+ pretty command_count +:+
                   " files, but installed " +:+ pretty commands_installed)
   else show_success "Commands installation verified") ;;
  (if bool_decide (agents_installed ≠ total_agent_count) then
     show_warning ("Agents: Expected " +:+ pretty total_agent_count +:+
                   " files, but installed " +:+ pretty agents_installed)
   else show_success "Agents installation verified") ;;
  (if bool_decide (rules_installed ≠ rule_count) then
     show_warning ("Rules: Expected " +:+ pretty rule_count +:+
                   " files, but installed " +:+ pretty rules_installed)
   else show_success "Rules installation verified") ;;
  console_print.

Definition install_to_agent (agent language : string) : M InstallationResult :=
  let errors : list string := [] in
  do commands_target <- getitem AGENT_DIRS agent;
  do agents_target <- getitem AGENT_AGENT_DIRS agent;
  do rules_target <- getitem AGENT_RULES_DIRS agent;
  let '(commands_dir, agents_dir, rules_dir) := get_source_dirs in
  do e <- Path_exists commands_dir;
  if negb e then
    let errors :=
      errors ++ ["Commands directory not found: " +:+ show_path commands_dir] in
    ret (mkInstallationResult 0 0 0 false errors)
  else
    create_directories commands_target agents_target rules_target ;;
    backup_commands commands_target ;;
    do commands_installed <- copy_commands commands_dir commands_target;
    do agents_installed <- copy_agents agents_dir agents_target language;
    do rules_installed <- copy_rules rules_dir rules_target;
    verify_installation language commands_installed agents_installed rules_installed ;;
    ret (mkInstallationResult commands_installed agents_installed rules_installed
           (bool_decide (length errors = 0)) errors).

(** ** [cli.py], the install loop of [main] *)

Definition install_selected (selected_agent : string)
    (detected_agents : list string) (selected_language : string)
  : M (list string) :=
  let installed_agents : list string := [] in
  if bool_decide (selected_agent = "all") then
    for_each detected_agents installed_agents (λ agent_name installed_agents,
      show_installation_progress agent_name ;;
      install_to_agent agent_name selected_language ;;
      ret (installed_agents ++ [agent_name]))
  else
    show_installation_progress selected_agent ;;
    install_to_agent selected_agent selected_language ;;
    ret installed_agents.

End Installer.

(** ** Specification-level counterparts

    What the installer's directory creation amounts to, as a function on
    trees; [Path_mkdir] is proved to compute it. *)

(** A fresh chain of directories [x1/x2/.../xn], each writable. *)
Fixpoint chain (p : path) : node :=
  match p with
  | [] => Dir true ∅
  | x :: p' => Dir true {[ x := chain p' ]}
  end.

(** Walk down [p], keeping what exists and creating what does not. *)
Fixpoint mkdirs (p : path) (n : node) : option node :=
  match n with
  | File _ => None
  | Dir w es =>
      match p with
      | [] => Some n
      | x :: p' =>
          match es !! x with
          | Some c => c' ← mkdirs p' c; Some (Dir w (<[x := c']> es))
          | None => if w then Some (Dir w (<[x := chain p']> es)) else None
          end
      end
  end.

(** The regular files among the entries of a directory that match. *)
Definition matching_files (pattern : string) (n : node) : list (string * string) :=
  omap (λ kv, match kv.2 with File d => Some (kv.1, d) | Dir _ _ => None end)
       (matching pattern n).

(** The number of entries of the directory at [d] that match ["*.md"]
    (none when [d] does not resolve): what [count_files] reports for one
    category. *)
Definition count_md (d : path) (r : node) : nat :=
  from_option (λ n, length (matching "*.md" n)) 0 (lookup_path d r).

(** [detection.py]: [agent in AGENT_DIRS]. *)
Definition validate_agent (E : env) (agent : string) : bool :=
  bool_decide (is_Some (AGENT_DIRS E !! agent)).

(** Where [backup_existing_files] puts the copy of [target_dir] when the
    clock reads [now]. *)
Definition backup_path (target_dir : path) (now : datetime) : path :=
  parent target_dir </> (name target_dir +:+ ".backup." +:+ strftime now).

(** A directory node without entries. *)
Definition empty_dir (n : node) : Prop := ∃ wr, n = Dir wr ∅.

(** The times [datetime.now()] can return for which [%Y] prints four
    digits: years 1000 to 9999 (the century below 100), and every other
    field in its calendar range. *)
Definition valid_datetime (dt : datetime) : Prop :=
  1000 ≤ year dt ∧ year dt `div` 100 < 100 ∧ 1 ≤ month dt ≤ 12 ∧ 1 ≤ day dt ≤ 31 ∧
  hour dt < 24 ∧ minute dt < 60 ∧ second dt < 60.

(** Reading a timestamp written as [YYYYMMDD-HHMMSS]: fixed-width decimal
    fields, most significant first, a dash after the date. *)
Definition digit_value (c : ascii) : option nat :=
  let n := nat_of_ascii c in
  if bool_decide (48 ≤ n ≤ 57) then Some (n - 48) else None.

Fixpoint read_digits (k : nat) (acc : nat) (s : string) : option (nat * string) :=
  match k with
  | 0 => Some (acc, s)
  | S k' =>
      match s with
      | EmptyString => None
      | String c s' => d ← digit_value c; read_digits k' (10 * acc + d) s'
      end
  end.

Definition parse_timestamp (s : string) : option datetime :=
  '(y, s) ← read_digits 4 0 s;
  '(m, s) ← read_digits 2 0 s;
  '(d, s) ← read_digits 2 0 s;
  match s with
  | String "-"%char s =>
      '(hh, s) ← read_digits 2 0 s;
      '(mm, s) ← read_digits 2 0 s;
      '(ss, s) ← read_digits 2 0 s;
      match s with
      | EmptyString => Some (Datetime y m d hh mm ss)
      | String _ _ => None
      end
  | _ => None
  end.

(** [p.is_file()] on a tree. *)
Definition is_file_at (p : path) (r : node) : bool :=
  from_option is_file_node false (lookup_path p r).

(** The body of the loop of [copy_files]. *)
Definition copy_one (target_dir : path) (file : path) (count : nat) : M nat :=
  do f <- Path_is_file file;
  if f then
    shutil_copy2 file (target_dir </> name file) ;;
    ret (count + 1)
  else ret count.

(** Two paths neither of which is at or below the other. *)
Definition apart (p q : path) : Prop := ¬ p `prefix_of` q ∧ ¬ q `prefix_of` p.

(** A directory that [Path.mkdir] can make, or that is there, writable and
    empty: an installation target that holds nothing yet. *)
Definition empty_target (t : path) (r : node) : Prop :=
  is_Some (mkdirs t r) ∧
  (lookup_path t r = None ∨ lookup_path t r = Some (Dir true ∅)).

(** The directory at [d] holds [k] entries matching ["*.md"], all of them
    regular files. *)
Definition holds_md_files (d : path) (k : nat) (r : node) : Prop :=
  ∃ sn, lookup_path d r = Some sn ∧
        length (matching "*.md" sn) = k ∧
        length (matching_files "*.md" sn) = k.

(** The world with more printed. *)
Definition add_out (evs : list event) (w : world) : world :=
  World (root w) (ticks w) (out w ++ evs).

(** ** Concrete worlds

    A checkout at [/repo] with five commands, three shared agents, four
    Python agents, the registry and two rules; a user at [/home/u]; a clock
    stopped at 2024-03-07 09:05:01. *)

Definition dir (entries : list (string * node)) : node :=
  Dir true (list_to_map entries).

Definition locked_dir (entries : list (string * node)) : node :=
  Dir false (list_to_map entries).

Definition repo_tree : node :=
  dir [
    ("commands", dir [
       ("plan.md", File "plan"); ("specify.md", File "specify");
       ("implement.md", File "implement"); ("commit.md", File "commit");
       ("workflow.md", File "workflow")]);
    ("agents", dir [
       ("shared", dir [
          ("bs-check.md", File "bs-check");
          ("secret-scanner.md", File "secret-scanner");
          ("bs-enforce.md", File "bs-enforce")]);
       ("python", dir [
          ("type-enforcer.md", File "type-enforcer");
          ("doc-validator.md", File "doc-validator");
          ("test-coverage.md", File "test-coverage");
          ("import-enforcer.md", File "import-enforcer")]);
       ("index.json", File "{}")]);
    ("rules", dir [
       ("typing.md", File "typing"); ("testing.md", File "testing")])
  ].

Definition demo_env : env :=
  Env ["repo"] ["home"; "u"] (λ _, Datetime 2024 3 7 9 5 1).

(** Nothing installed yet. *)
Definition fresh_world : world :=
  World (dir [("repo", repo_tree); ("home", dir [("u", dir [])])]) 0 [].

(** No checkout: the working directory holds no [commands]. *)
Definition bare_world : world :=
  World (dir [("repo", dir []); ("home", dir [("u", dir [])])]) 0 [].

(** The agents directory of [claude-code] exists and is not writable;
    [opencode] is untouched. *)
Definition locked_agents_world : world :=
  World (dir [
    ("repo", repo_tree);
    ("home", dir [("u", dir [
       (".claude", dir [("agents", locked_dir [])]);
       (".config", dir [("opencode", dir [])])])])]) 0 [].

(** [claude-code] holds an edited command, and its configuration root is
    not writable: the backup directory cannot be made. *)
Definition locked_backup_world : world :=
  World (dir [
    ("repo", repo_tree);
    ("home", dir [("u", dir [
       (".claude", locked_dir [
          ("commands", dir [("plan.md", File "my plan")]);
          ("agents", dir []);
          ("rules", dir [])])])])]) 0 [].

(** [claude-code] holds an edited command; the backup can be made. *)
Definition edited_world : world :=
  World (dir [
    ("repo", repo_tree);
    ("home", dir [("u", dir [
       (".claude", dir [
          ("commands", dir [("plan.md", File "my plan")])])])])]) 0 [].

(** A checkout whose [commands] holds a directory named like a command:
    [glob] counts it, [copy_files] skips it. *)
Definition odd_world : world :=
  World (dir [
    ("repo", dir [
       ("commands", dir [("plan.md", File "plan"); ("notes.md", dir [])])]);
    ("home", dir [("u", dir [])])]) 0 [].

(** ** Frames

    The world a call leaves, whether it returned or raised, and the calls
    that leave a given path as it was. *)

Definition world_of {A} (o : outcome A) : world :=
  match o with
  | Ok _ w => w
  | Raise _ w => w
  end.

Definition preserves {A} (q : path) (c : M A) : Prop :=
  ∀ w, lookup_path q (root (world_of (c w))) = lookup_path q (root w).

(** ** Targets that can take an installation *)

(** A writable directory that holds regular files only. *)
Definition flat_writable (n : node) : Prop :=
  ∃ es, n = Dir true es ∧ ∀ x c, es !! x = Some c → is_file_node c = true.

(** A target directory that [Path.mkdir] can make, or that is there as a
    writable directory of regular files. *)
Definition ready_target (t : path) (r : node) : Prop :=
  is_Some (mkdirs t r) ∧
  (lookup_path t r = None ∨ ∃ n, lookup_path t r = Some n ∧ flat_writable n).

(** The regular files matching ["*.md"] in the directory at [d], as
    [(name, contents)]; none when [d] does not resolve. *)
Definition files_at (d : path) (r : node) : list (string * string) :=
  from_option (matching_files "*.md") [] (lookup_path d r).

(** The backup of [t] will not fail: there is nothing to back up, or the
    parent of [t] is writable and the backup's name is free. *)
Definition can_back_up (E : env) (t : path) (w : world) : Prop :=
  lookup_path t (root w) = None ∨
  (∃ n, lookup_path t (root w) = Some n ∧ empty_dir n) ∨
  (∃ pes, lookup_path (parent t) (root w) = Some (Dir true pes) ∧
          lookup_path (backup_path t (clock E (ticks w))) (root w) = None).

(** ** Exceptions *)

(** The exceptions that are an [OSError]: [FileNotFoundError],
    [FileExistsError], [NotADirectoryError], [IsADirectoryError],
    [PermissionError] and [shutil.SameFileError]; [KeyError] is not. *)
Definition OSError (e : exn) : bool :=
  match e with
  | KeyError => false
  | _ => true
  end.

(** Every exception [c] can raise satisfies [P]. *)
Definition raises_only {A} (P : exn → Prop) (c : M A) : Prop :=
  ∀ w e w', c w = Raise e w' → P e.

(** ** [detection.py] and the choice of the agent in [cli.py] *)

(** [AGENT_DIRS.items()]: a [dict] iterates in the order of insertion. *)
Definition AGENT_DIRS_items (E : env) : list (string * path) :=
  [("claude-code", home E </> ".claude" </> "commands");
   ("opencode", home E </> ".config" </> "opencode" </> "commands");
   ("droid", home E </> ".factory" </> "commands")].

Definition detect_installed_agents (E : env) : M (list string) :=
  let detected : list string := [] in
  for_each (AGENT_DIRS_items E) detected (λ '(agent, agent_dir) detected,
    let parent_dir := parent agent_dir in
    do e <- Path_exists parent_dir;
    if e then ret (detected ++ [agent]) else ret detected).

(** [display.py]; markup and symbols are left out, as for the other
    messages. *)
Definition show_no_agents_detected : M unit :=
  emit (Print "No AI coding agents detected") ;;
  console_print ;;
  emit (Print "Please specify an agent manually:") ;;
  emit (Print "  sage-setup --agent claude-code") ;;
  emit (Print "  sage-setup --agent cline") ;;
  emit (Print "  sage-setup --agent roo-cline").

(** [select_agent]. A [sys.exit(code)] is the result [inl code]; the
    caller stops there. [if agent_arg:] holds for a string that is not
    empty. *)
Definition select_agent (E : env) (agent_arg : option string)
  : M (nat + string * list string) :=
  let detected_agents : list string := [] in
  match agent_arg with
  | Some (String _ _ as agent_arg) =>
      if bool_decide (agent_arg ≠ "all") && negb (validate_agent E agent_arg) then
        show_error ("Unknown agent: " +:+ agent_arg) ;;
        console_print ;;
        emit (Print "Supported agents:") ;;
        for_each (AGENT_DIRS_items E).*1 tt (λ agent _,
          emit (Print ("  - " +:+ agent))) ;;
        emit (Print "  - all (install to all detected agents)") ;;
        ret (inl 1)
      else
        do detected_agents <-
          (if bool_decide (agent_arg = "all") then detect_installed_agents E
           else ret [agent_arg]);
        ret (inr (agent_arg, detected_agents))
  | _ =>
      do detected_agents <- detect_installed_agents E;
      if bool_decide (detected_agents = []) then
        show_no_agents_detected ;;
        ret (inl 1)
      else ret (inr ("all", detected_agents))
  end.

(** The [agent_dir] that [main] hands to [show_installation_complete]:
    [AGENT_DIRS[selected_agent] if selected_agent != "all" else
    AGENT_DIRS[installed_agents[0]]]; [None] when a subscript raises. *)
Definition summary_agent_dir (E : env) (selected_agent : string)
    (installed_agents : list string) : option path :=
  if bool_decide (selected_agent ≠ "all") then AGENT_DIRS E !! selected_agent
  else head installed_agents ≫= λ agent, AGENT_DIRS E !! agent.

(** ** [config.py] *)

(** [dt.strftime("%Y-%m-%dT%H:%M:%SZ")]. *)
Definition strftime_iso (dt : datetime) : string :=
  pad4 (year dt) +:+ "-" +:+ pad2 (month dt) +:+ "-" +:+ pad2 (day dt) +:+ "T" +:+
  pad2 (hour dt) +:+ ":" +:+ pad2 (minute dt) +:+ ":" +:+ pad2 (second dt) +:+ "Z".

(** A [str | None] in a condition: [None] and the empty string are
    false. *)
Definition truthy (s : option string) : option string :=
  match s with
  | Some (String _ _ as s) => Some s
  | _ => None
  end.

Module Config.

Record t : Type := mk {
  language : string;
  agent : option string;
  enforcement_level : string;
  configured_at : option string
}.

(** [Config.from_dict(data)]: [data["language"]] raises [KeyError] for a
    missing key, [data.get] does not. *)
Definition from_dict (data : gmap string string) : exn + t :=
  match data !! "language" with
  | None => inl KeyError
  | Some l =>
      inr (mk l
              (data !! "agent")
              (default "BALANCED" (data !! "enforcement_level"))
              (data !! "configured_at"))
  end.

(** [self.to_dict()]; [utc_now] is what [datetime.now(timezone.utc)]
    returns, read only when [configured_at] is [None] or empty. *)
Definition to_dict (utc_now : datetime) (self : t) : gmap string string :=
  let result : gmap string string :=
    {[ "language" := language self;
       "enforcement_level" := enforcement_level self;
       "configured_at" :=
         match truthy (configured_at self) with
         | Some stamp => stamp
         | None => strftime_iso utc_now
         end ]} in
  match truthy (agent self) with
  | Some a => <["agent" := a]> result
  | None => result
  end.

End Config.

(** ** What a copy needs *)

(** The directory at [t] is absent and [Path.mkdir(parents=True)] can make
    it: going down [t], the last directory that exists, [p], is writable
    and holds nothing under the next name [x]. *)
Definition can_create (t : path) (r : node) : Prop :=
  ∃ p x k pes,
    t = p ++ x :: k ∧ lookup_path p r = Some (Dir true pes) ∧ pes !! x = None.



(** A target that can take an installation: [Path.mkdir] can make it, or
    it is there as a writable directory of regular files. *)
Definition open_target (t : path) (r : node) : Prop :=
  can_create t r ∨ ∃ n, lookup_path t r = Some n ∧ flat_writable n.

(** Nothing in the directory at [t] has the name of a file that is copied
    from [src]: the copy overwrites nothing. *)
Definition free_of (t src : path) (r : node) : Prop :=
  ∀ x c, (x, c) ∈ files_at src r → lookup_path (t </> x) r = None.

(** [claude-code] holds a command of the user's own, under a name the
    checkout does not use. *)
Definition custom_world : world :=
  World (dir [
    ("repo", repo_tree);
    ("home", dir [("u", dir [
       (".claude", dir [
          ("commands", dir [("mine.md", File "my own")])])])])]) 0 [].

(* ================================================================= *)
(** * Properties *)


(** * Paths *)

Lemma parent_snoc (p : path) (x : string) : parent (p </> x) = p.
Proof. unfold parent. apply removelast_last. Qed.

Lemma name_snoc (p : path) (x : string) : name (p </> x) = x.
Proof. unfold name. by rewrite last_snoc. Qed.

Lemma path_snoc_inv (p : path) : p = [] ∨ ∃ q x, p = q </> x.
Proof.
  destruct p as [|y p] using rev_ind; [by left|right; eauto].
Qed.

Lemma parent_name (p : path) : p ≠ [] → parent p </> name p = p.
Proof.
  destruct (path_snoc_inv p) as [->|(q & x & ->)]; [done|].
  by rewrite parent_snoc, name_snoc.
Qed.

(** * The tree *)

Lemma lookup_path_nil n : lookup_path [] n = Some n.
Proof. done. Qed.

Lemma lookup_path_cons x p w es :
  lookup_path (x :: p) (Dir w es) = es !! x ≫= lookup_path p.
Proof. done. Qed.

Lemma lookup_path_file p d : p ≠ [] → lookup_path p (File d) = None.
Proof. by destruct p. Qed.

Lemma lookup_path_app p q n :
  lookup_path (p ++ q) n = lookup_path p n ≫= lookup_path q.
Proof.
  revert n. induction p as [|x p IH]; intros n; [done|].
  destruct n as [d|w es]; [done|]. simpl.
  destruct (es !! x) as [c|]; simpl; [apply IH|done].
Qed.

Lemma lookup_path_prefix p q n :
  is_Some (lookup_path (p ++ q) n) → is_Some (lookup_path p n).
Proof.
  rewrite lookup_path_app. destruct (lookup_path p n); [eauto|].
  by intros [? ?].
Qed.

(** Every proper ancestor of a path that resolves is a directory. *)
Lemma lookup_path_ancestor_dir p x q n :
  is_Some (lookup_path (p ++ x :: q) n) →
  ∃ w es, lookup_path p n = Some (Dir w es) ∧ is_Some (es !! x).
Proof.
  rewrite lookup_path_app.
  destruct (lookup_path p n) as [[d|w es]|]; simpl; [by intros [? ?]| |by intros [? ?]].
  intros [c Hc]. exists w, es. split; [done|].
  destruct (es !! x); [eauto|done].
Qed.

Lemma lookup_path_below_file p q d n :
  lookup_path p n = Some (File d) → q ≠ [] → lookup_path (p ++ q) n = None.
Proof.
  intros Hp Hq. rewrite lookup_path_app, Hp. simpl. by apply lookup_path_file.
Qed.

Lemma lookup_path_below_none p q n :
  lookup_path p n = None → lookup_path (p ++ q) n = None.
Proof. intros Hp. by rewrite lookup_path_app, Hp. Qed.

(** ** [update] and [put] *)

Lemma update_Some p f r r' :
  update p f r = Some r' →
  ∃ n n', lookup_path p r = Some n ∧ f n = Some n' ∧ lookup_path p r' = Some n'.
Proof.
  revert r r'. induction p as [|x p IH]; intros r r' Hu; simpl in *.
  - eauto.
  - destruct r as [d|w es]; [done|].
    destruct (es !! x) as [c|] eqn:Hx; [|done]. simpl in Hu.
    destruct (update p f c) as [c'|] eqn:Hc; [|done]. simplify_eq/=.
    destruct (IH _ _ Hc) as (n & n' & ? & ? & ?).
    exists n, n'. rewrite lookup_insert_eq. by simpl.
Qed.

Lemma update_is_Some p f r n :
  lookup_path p r = Some n → is_Some (f n) → is_Some (update p f r).
Proof.
  revert r. induction p as [|x p IH]; intros r Hl Hf; simpl in *.
  - by simplify_eq.
  - destruct r as [d|w es]; [done|].
    destruct (es !! x) as [c|]; [|done]. simpl in *.
    destruct (IH _ Hl Hf) as [c' ->]. by eexists.
Qed.

Lemma lookup_update_below p q f r r' :
  update p f r = Some r' →
  lookup_path (p ++ q) r' = (lookup_path p r ≫= f) ≫= lookup_path q.
Proof.
  intros Hu. destruct (update_Some _ _ _ _ Hu) as (n & n' & Hn & Hf & Hn').
  by rewrite lookup_path_app, Hn', Hn; simpl; rewrite Hf.
Qed.

Lemma lookup_update_frame p q f r r' :
  update p f r = Some r' →
  ¬ p `prefix_of` q → ¬ q `prefix_of` p →
  lookup_path q r' = lookup_path q r.
Proof.
  revert q r r'. induction p as [|x p IH]; intros q r r' Hu Hpq Hqp.
  - destruct Hpq. apply prefix_nil.
  - destruct q as [|y q]; [destruct Hqp; apply prefix_nil|].
    simpl in Hu. destruct r as [d|w es]; [done|].
    destruct (es !! x) as [c|] eqn:Hx; [|done]. simpl in Hu.
    destruct (update p f c) as [c'|] eqn:Hc; [|done]. simplify_eq/=.
    destruct (decide (x = y)) as [->|Hne].
    + rewrite lookup_insert_eq, Hx. simpl. eapply IH; [done| |].
      * intros Hp. apply Hpq. by apply prefix_cons.
      * intros Hp. apply Hqp. by apply prefix_cons.
    + by rewrite lookup_insert_ne.
Qed.

(** A proper ancestor of the rewritten node stays a directory with the
    same permission; only the entry on the way changes. *)
Lemma lookup_update_ancestor p x q f r r' w es :
  update (p ++ x :: q) f r = Some r' →
  lookup_path p r = Some (Dir w es) →
  ∃ c', lookup_path p r' = Some (Dir w (<[x := c']> es)).
Proof.
  revert r r'. induction p as [|y p IH]; intros r r' Hu Hl; simpl in *.
  - simplify_eq. simpl in Hu.
    destruct (es !! x) as [c|]; [|done]. simpl in Hu.
    destruct (update q f c) as [c'|]; [|done]. simplify_eq/=. eauto.
  - destruct r as [d|w0 es0]; [done|].
    destruct (es0 !! y) as [c|] eqn:Hy; [|done]. simpl in *.
    destruct (update (p ++ x :: q) f c) as [c'|] eqn:Hc; [|done]. simplify_eq/=.
    rewrite lookup_insert_eq. simpl. eauto.
Qed.

Lemma put_snoc p x new r : put (p </> x) new r = update p (set_entry x new) r.
Proof.
  unfold put. rewrite parent_snoc, name_snoc. by destruct p.
Qed.

Lemma put_is_Some p x new r w es :
  lookup_path p r = Some (Dir w es) → is_Some (put (p </> x) new r).
Proof.
  intros Hl. rewrite put_snoc. eapply update_is_Some; [done|]. by eexists.
Qed.

Lemma put_Some_inv p x new r r' :
  put (p </> x) new r = Some r' →
  ∃ w es, lookup_path p r = Some (Dir w es) ∧
          lookup_path p r' = Some (Dir w (<[x := new]> es)).
Proof.
  rewrite put_snoc. intros Hu.
  destruct (update_Some _ _ _ _ Hu) as (n & n' & Hn & Hf & Hn').
  destruct n as [d|w es]; [done|]. simpl in Hf. simplify_eq. eauto.
Qed.

(** What was put is there, with everything below it. *)
Lemma lookup_put_below p q new r r' :
  put p new r = Some r' → lookup_path (p ++ q) r' = lookup_path q new.
Proof.
  destruct (path_snoc_inv p) as [->|(p' & x & ->)].
  - unfold put. by intros [= ->].
  - intros Hp. destruct (put_Some_inv _ _ _ _ _ Hp) as (w & es & _ & Hl').
    rewrite <-!(assoc_L (++)), lookup_path_app, Hl'. simpl.
    by rewrite lookup_insert_eq.
Qed.

Lemma lookup_put_eq p new r r' :
  put p new r = Some r' → lookup_path p r' = Some new.
Proof.
  intros Hp. by rewrite <-(app_nil_r p), (lookup_put_below _ _ _ _ _ Hp).
Qed.

(** Nothing changes off the path that was written. *)
Lemma lookup_put_frame p q new r r' :
  put p new r = Some r' →
  ¬ p `prefix_of` q → ¬ q `prefix_of` p →
  lookup_path q r' = lookup_path q r.
Proof.
  destruct (path_snoc_inv p) as [->|(p' & x & ->)].
  - intros _ Hpq. destruct Hpq. apply prefix_nil.
  - intros Hp Hpq Hqp.
    destruct (decide (p' `prefix_of` q)) as [[k ->]|Hn].
    + destruct k as [|y k].
      { destruct Hqp. rewrite app_nil_r. by apply prefix_app_r. }
      destruct (put_Some_inv _ _ _ _ _ Hp) as (w & es & Hl & Hl').
      rewrite !lookup_path_app, Hl, Hl'. simpl.
      rewrite lookup_insert_ne; [done|].
      intros ->. apply Hpq. exists k. by rewrite <-(assoc_L (++)).
    + rewrite put_snoc in Hp. eapply lookup_update_frame; [done..|].
      intros Hq. apply Hqp. by apply prefix_app_r.
Qed.

Lemma lookup_put_ancestor p x q new r r' w es :
  put (p ++ x :: q) new r = Some r' →
  lookup_path p r = Some (Dir w es) →
  ∃ c', lookup_path p r' = Some (Dir w (<[x := c']> es)).
Proof.
  destruct (path_snoc_inv q) as [->|(q' & y & ->)].
  - intros Hp Hl. destruct (put_Some_inv _ _ _ _ _ Hp) as (w' & es' & Hl1 & Hl2).
    simplify_eq. eauto.
  - replace (p ++ x :: q' </> y) with ((p ++ x :: q') </> y)
      by by rewrite <-(assoc_L (++)).
    rewrite put_snoc. apply lookup_update_ancestor.
Qed.

(** ** [mkdirs]: directory creation as a function on trees *)

Lemma mkdirs_file p d : mkdirs p (File d) = None.
Proof. by destruct p. Qed.

Lemma mkdirs_nil w es : mkdirs [] (Dir w es) = Some (Dir w es).
Proof. done. Qed.

Lemma mkdirs_cons x p w es :
  mkdirs (x :: p) (Dir w es) =
    match es !! x with
    | Some c => c' ← mkdirs p c; Some (Dir w (<[x := c']> es))
    | None => if w then Some (Dir w (<[x := chain p]> es)) else None
    end.
Proof. done. Qed.

Lemma lookup_chain p : lookup_path p (chain p) = Some (Dir true ∅).
Proof.
  induction p as [|x p IH]; [done|]. simpl. by rewrite lookup_singleton_eq.
Qed.

Lemma lookup_chain_off p q : ¬ q `prefix_of` p → lookup_path q (chain p) = None.
Proof.
  revert q. induction p as [|x p IH]; intros q Hq.
  - destruct q as [|y q]; [destruct Hq; apply prefix_nil|]. simpl.
    by rewrite lookup_empty.
  - destruct q as [|y q]; [destruct Hq; apply prefix_nil|]. simpl.
    destruct (decide (x = y)) as [->|Hne].
    + rewrite lookup_singleton_eq. simpl. apply IH.
      intros Hp. apply Hq. by apply prefix_cons.
    + by rewrite lookup_singleton_ne.
Qed.

Lemma chain_snoc p x :
  update p (set_entry x (Dir true ∅)) (chain p) = Some (chain (p </> x)).
Proof.
  induction p as [|y p IH]; simpl.
  - by rewrite insert_empty.
  - rewrite lookup_singleton_eq. simpl. rewrite IH. simpl.
    by rewrite insert_singleton_eq.
Qed.

(** An existing directory is left as it is. *)
Lemma mkdirs_existing p r w es :
  lookup_path p r = Some (Dir w es) → mkdirs p r = Some r.
Proof.
  revert r. induction p as [|x p IH]; intros r Hl.
  - simpl in Hl. by simplify_eq.
  - destruct r as [d|w0 es0]; [done|]. simpl in Hl. rewrite mkdirs_cons.
    destruct (es0 !! x) as [c|] eqn:Hx; [|done]. simpl in Hl.
    rewrite (IH _ Hl). simpl. by rewrite insert_id.
Qed.

(** A regular file on the way makes creation fail. *)
Lemma mkdirs_through_file p k r d :
  lookup_path p r = Some (File d) → mkdirs (p ++ k) r = None.
Proof.
  revert r. induction p as [|x p IH]; intros r Hl.
  - simpl in Hl. simplify_eq. apply mkdirs_file.
  - destruct r as [d0|w es]; [done|]. simpl in Hl. simpl app. rewrite mkdirs_cons.
    destruct (es !! x) as [c|] eqn:Hx; [|done]. simpl in Hl.
    by rewrite (IH _ Hl).
Qed.

Lemma resolve_error_cases p r :
  resolve_error p r = FileNotFoundError ∨ resolve_error p r = NotADirectoryError.
Proof.
  revert r. induction p as [|x p IH]; intros r; [by left|].
  destruct r as [d|w es]; simpl; [by right|].
  destruct (es !! x); [apply IH|by left].
Qed.

Lemma mkdirs_enotdir p k r :
  resolve_error p r = NotADirectoryError → mkdirs (p ++ k) r = None.
Proof.
  revert r. induction p as [|x p IH]; intros r He; [done|].
  destruct r as [d|w es]; [apply mkdirs_file|]. simpl in He. simpl app.
  rewrite mkdirs_cons. destruct (es !! x) as [c|]; [|done].
  by rewrite (IH _ He).
Qed.

Lemma mkdirs_unwritable p x r es :
  lookup_path p r = Some (Dir false es) → es !! x = None →
  mkdirs (p </> x) r = None.
Proof.
  revert r. induction p as [|y p IH]; intros r Hl Hx.
  - simpl in Hl. simplify_eq. simpl app. rewrite mkdirs_cons. by rewrite Hx.
  - destruct r as [d|w0 es0]; [done|]. simpl in Hl. simpl app. rewrite mkdirs_cons.
    destruct (es0 !! y) as [c|]; [|done]. simpl in Hl.
    by rewrite (IH _ Hl Hx).
Qed.

(** Creating one entry in an existing writable directory. *)
Lemma mkdirs_one p x r es :
  lookup_path p r = Some (Dir true es) → es !! x = None →
  mkdirs (p </> x) r = put (p </> x) (Dir true ∅) r.
Proof.
  rewrite put_snoc.
  revert r. induction p as [|y p IH]; intros r Hl Hx.
  - simpl in Hl. simplify_eq. simpl app. rewrite mkdirs_cons. by rewrite Hx.
  - destruct r as [d|w0 es0]; [done|]. simpl in Hl. simpl app. rewrite mkdirs_cons.
    simpl. destruct (es0 !! y) as [c|]; [|done]. simpl in *.
    by rewrite (IH _ Hl Hx).
Qed.

(** Creating below a missing parent: the parent first, then the entry. *)
Lemma mkdirs_snoc p x r :
  lookup_path p r = None →
  mkdirs (p </> x) r = mkdirs p r ≫= put (p </> x) (Dir true ∅).
Proof.
  intros Hl.
  transitivity (mkdirs p r ≫= update p (set_entry x (Dir true ∅))).
  2: { destruct (mkdirs p r); [|done]. simpl. by rewrite put_snoc. }
  revert Hl.
  revert r. induction p as [|y p IH]; intros r Hl; [done|].
  destruct r as [d|w es]; [done|]. simpl in Hl. simpl app. rewrite !mkdirs_cons.
  destruct (es !! y) as [c|] eqn:Hy; simpl in Hl.
  - rewrite (IH _ Hl). destruct (mkdirs p c) as [c1|]; [|done]. simpl.
    rewrite lookup_insert_eq. simpl.
    destruct (update p _ c1); [|done]. simpl. by rewrite insert_insert_eq.
  - destruct w; [|done]. simpl.
    rewrite lookup_insert_eq. simpl. rewrite chain_snoc. simpl.
    by rewrite insert_insert_eq.
Qed.

(** The path is a directory afterwards. *)
Lemma mkdirs_target p r r' :
  mkdirs p r = Some r' → ∃ w es, lookup_path p r' = Some (Dir w es).
Proof.
  revert r r'. induction p as [|x p IH]; intros r r' Hm.
  - destruct r as [d|w es]; [done|]. simpl in Hm. simplify_eq. simpl. eauto.
  - destruct r as [d|w es]; [done|]. rewrite mkdirs_cons in Hm.
    destruct (es !! x) as [c|] eqn:Hx.
    + destruct (mkdirs p c) as [c'|] eqn:Hc; [|done]. simplify_eq/=.
      rewrite lookup_insert_eq. simpl. eauto.
    + destruct w; [|done]. simplify_eq/=. rewrite lookup_insert_eq. simpl.
      rewrite lookup_chain. eauto.
Qed.

(** A directory that had to be created is empty and writable. *)
Lemma mkdirs_fresh p r r' :
  mkdirs p r = Some r' → lookup_path p r = None →
  lookup_path p r' = Some (Dir true ∅).
Proof.
  revert r r'. induction p as [|x p IH]; intros r r' Hm Hl; [done|].
  destruct r as [d|w es]; [done|]. rewrite mkdirs_cons in Hm. simpl in Hl.
  destruct (es !! x) as [c|] eqn:Hx; simpl in Hl.
  - destruct (mkdirs p c) as [c'|] eqn:Hc; [|done]. simplify_eq/=.
    rewrite lookup_insert_eq. simpl. eauto.
  - destruct w; [|done]. simplify_eq/=. rewrite lookup_insert_eq. simpl.
    apply lookup_chain.
Qed.

(** Nothing changes except at the prefixes of the path. *)
Lemma mkdirs_frame p q r r' :
  mkdirs p r = Some r' → ¬ q `prefix_of` p →
  lookup_path q r' = lookup_path q r.
Proof.
  revert q r r'. induction p as [|x p IH]; intros q r r' Hm Hq.
  - destruct r as [d|w es]; [done|]. simpl in Hm. by simplify_eq.
  - destruct r as [d|w es]; [done|]. rewrite mkdirs_cons in Hm.
    destruct q as [|y q]; [destruct Hq; apply prefix_nil|].
    assert (x = y → ¬ q `prefix_of` p) as Hq'.
    { intros -> Hp. apply Hq. by apply prefix_cons. }
    destruct (es !! x) as [c|] eqn:Hx.
    + destruct (mkdirs p c) as [c'|] eqn:Hc; [|done]. simplify_eq/=.
      destruct (decide (x = y)) as [->|Hne].
      * rewrite lookup_insert_eq, Hx. simpl. eauto.
      * by rewrite lookup_insert_ne.
    + destruct w; [|done]. simplify_eq/=.
      destruct (decide (x = y)) as [->|Hne].
      * rewrite lookup_insert_eq, Hx. simpl. apply lookup_chain_off. eauto.
      * by rewrite lookup_insert_ne.
Qed.

(** Existing regular files are untouched. *)
Lemma mkdirs_keeps_file p q r r' d :
  mkdirs p r = Some r' → lookup_path q r = Some (File d) →
  lookup_path q r' = Some (File d).
Proof.
  intros Hm Hl. rewrite (mkdirs_frame _ _ _ _ Hm); [done|].
  intros [k ->]. by rewrite (mkdirs_through_file _ _ _ _ Hl) in Hm.
Qed.

(** Existing directories stay directories, with the same permission. *)
Lemma mkdirs_keeps_dir p q r r' w es :
  mkdirs p r = Some r' → lookup_path q r = Some (Dir w es) →
  ∃ es', lookup_path q r' = Some (Dir w es').
Proof.
  revert q r r'. induction p as [|x p IH]; intros q r r' Hm Hl.
  - destruct r as [d|w0 es0]; [done|]. simpl in Hm. simplify_eq. eauto.
  - destruct r as [d|w0 es0]; [done|]. rewrite mkdirs_cons in Hm.
    destruct q as [|y q].
    { simpl in Hl. simplify_eq.
      destruct (es !! x) as [c|].
      - destruct (mkdirs p c); [|done]. simplify_eq/=. eauto.
      - destruct w; [|done]. simplify_eq/=. eauto. }
    simpl in Hl.
    destruct (es0 !! x) as [c|] eqn:Hx.
    + destruct (mkdirs p c) as [c'|] eqn:Hc; [|done]. simplify_eq/=.
      destruct (decide (x = y)) as [->|Hne].
      * rewrite lookup_insert_eq. rewrite Hx in Hl. simpl in *. eauto.
      * rewrite lookup_insert_ne by done. eauto.
    + destruct w0; [|done]. simplify_eq/=.
      destruct (decide (x = y)) as [->|Hne].
      * by rewrite Hx in Hl.
      * rewrite lookup_insert_ne by done. eauto.
Qed.

(** ** The system calls against the tree *)

Lemma with_root_id w : with_root (root w) w = w.
Proof. by destruct w. Qed.

Lemma root_with_root r w : root (with_root r w) = r.
Proof. done. Qed.

Lemma lookup_path_snoc p x r :
  lookup_path (p </> x) r =
    lookup_path p r ≫= λ n, match n with Dir _ es => es !! x | File _ => None end.
Proof.
  rewrite lookup_path_app. destruct (lookup_path p r) as [[d|w es]|]; simpl; [done| |done].
  by destruct (es !! x).
Qed.

(** [Path.mkdir(parents=True, exist_ok=True)] computes [mkdirs]; when it
    raises, nothing has been created. *)
Lemma Path_mkdir_rev_spec rp w :
  match mkdirs (rev rp) (root w) with
  | Some r' => Path_mkdir_rev rp true w = Ok tt (with_root r' w)
  | None => ∃ e, Path_mkdir_rev rp true w = Raise e w
  end.
Proof.
  revert w. induction rp as [|x rp IH]; intros w.
  - simpl. unfold try_catch, os_mkdir. simpl.
    destruct (root w) as [d|wr es] eqn:Hr; simpl.
    + unfold bind, Path_is_dir. simpl. rewrite Hr. simpl. eauto.
    + unfold bind, Path_is_dir. simpl. rewrite Hr. simpl. unfold ret.
      by rewrite <-Hr, with_root_id.
  - cbn [Path_mkdir_rev]. set (p := rev (x :: rp)).
    assert (p = rev rp </> x) as Hp by done.
    unfold try_catch, os_mkdir.
    destruct (lookup_path p (root w)) as [n|] eqn:Hl.
    { (* the path exists *)
      unfold bind, Path_is_dir. rewrite Hl. simpl.
      destruct n as [d|wr es]; simpl.
      - rewrite Hp, <-(app_nil_r (rev rp </> x)).
        rewrite Hp in Hl. rewrite (mkdirs_through_file _ _ _ _ Hl). eauto.
      - rewrite (mkdirs_existing _ _ _ _ Hl). unfold ret. by rewrite with_root_id. }
    rewrite Hp, parent_snoc. rewrite Hp, lookup_path_snoc in Hl.
    destruct (lookup_path (rev rp) (root w)) as [[d|wr es]|] eqn:Hpar.
    + (* the parent is a regular file *)
      unfold bind, Path_is_dir. rewrite lookup_path_snoc, Hpar. simpl.
      rewrite (mkdirs_through_file _ _ _ _ Hpar). eauto.
    + simpl in Hl. destruct wr.
      * (* the parent is a writable directory *)
        rewrite (mkdirs_one _ _ _ _ Hpar Hl).
        by destruct (put_is_Some (rev rp) x (Dir true ∅) _ _ _ Hpar) as [r' ->].
      * (* the parent is not writable *)
        unfold bind, Path_is_dir. rewrite lookup_path_snoc, Hpar. simpl. rewrite Hl. simpl.
        rewrite (mkdirs_unwritable _ _ _ _ Hpar Hl). eauto.
    + (* the parent does not resolve *)
      destruct (resolve_error_cases (rev rp) (root w)) as [He|He]; rewrite He.
      * rewrite (mkdirs_snoc _ _ _ Hpar). specialize (IH w).
        destruct (mkdirs (rev rp) (root w)) as [r1|] eqn:Hm; simpl.
        -- unfold bind at 1. rewrite IH.
           pose proof (mkdirs_fresh _ _ _ Hm Hpar) as Hfresh.
           unfold Path_mkdir_single, try_catch, os_mkdir.
           rewrite parent_snoc, lookup_path_snoc, !root_with_root, Hfresh. simpl.
           rewrite lookup_empty.
           by destruct (put_is_Some (rev rp) x (Dir true ∅) _ _ _ Hfresh) as [r' ->].
        -- destruct IH as [e IH]. unfold bind at 1. rewrite IH. eauto.
      * unfold bind, Path_is_dir. rewrite lookup_path_snoc, Hpar. simpl.
        rewrite (mkdirs_enotdir _ _ _ He). eauto.
Qed.

Lemma Path_mkdir_spec p w :
  match mkdirs p (root w) with
  | Some r' => Path_mkdir p w = Ok tt (with_root r' w)
  | None => ∃ e, Path_mkdir p w = Raise e w
  end.
Proof.
  unfold Path_mkdir. pose proof (Path_mkdir_rev_spec (rev p) w) as H.
  by rewrite rev_involutive in H.
Qed.

Lemma Path_mkdir_Ok p w r' :
  mkdirs p (root w) = Some r' → Path_mkdir p w = Ok tt (with_root r' w).
Proof. intros Hm. pose proof (Path_mkdir_spec p w) as H. by rewrite Hm in H. Qed.

Lemma Path_mkdir_Ok_inv p w w' :
  Path_mkdir p w = Ok tt w' →
  ∃ r', mkdirs p (root w) = Some r' ∧ w' = with_root r' w.
Proof.
  intros Hk. pose proof (Path_mkdir_spec p w) as H.
  destruct (mkdirs p (root w)) as [r'|].
  - exists r'. split; [done|]. congruence.
  - destruct H as [e H]. congruence.
Qed.

Lemma Path_mkdir_Raise_inv p w w' e :
  Path_mkdir p w = Raise e w' → mkdirs p (root w) = None ∧ w' = w.
Proof.
  intros Hk. pose proof (Path_mkdir_spec p w) as H.
  destruct (mkdirs p (root w)) as [r'|]; [congruence|].
  destruct H as [e' H]. split; [done|]. congruence.
Qed.

(** ** The monad *)

Lemma bind_Ok {A B} (c : M A) (k : A → M B) w a w' :
  c w = Ok a w' → bind c k w = k a w'.
Proof. unfold bind. by intros ->. Qed.

Lemma bind_Raise {A B} (c : M A) (k : A → M B) w e w' :
  c w = Raise e w' → bind c k w = Raise e w'.
Proof. unfold bind. by intros ->. Qed.

Lemma bind_Ok_inv {A B} (c : M A) (k : A → M B) w b w'' :
  bind c k w = Ok b w'' → ∃ a w', c w = Ok a w' ∧ k a w' = Ok b w''.
Proof. unfold bind. destruct (c w) as [a w'|e w']; [eauto|done]. Qed.

Lemma bind_Raise_inv {A B} (c : M A) (k : A → M B) w e w'' :
  bind c k w = Raise e w'' →
  c w = Raise e w'' ∨ ∃ a w', c w = Ok a w' ∧ k a w' = Raise e w''.
Proof.
  unfold bind. destruct (c w) as [a w'|e' w']; [eauto|].
  intros [= -> ->]. by left.
Qed.

Lemma emit_Ok ev w : emit ev w = Ok tt (World (root w) (ticks w) (out w ++ [ev])).
Proof. done. Qed.

(** ** The agent tables *)

Lemma AGENT_DIRS_cases E agent ct :
  AGENT_DIRS E !! agent = Some ct →
  ∃ base c a r,
    ct = base </> c ∧
    AGENT_AGENT_DIRS E !! agent = Some (base </> a) ∧
    AGENT_RULES_DIRS E !! agent = Some (base </> r) ∧
    c ≠ a ∧ c ≠ r ∧ a ≠ r.
Proof.
  unfold AGENT_DIRS, AGENT_AGENT_DIRS, AGENT_RULES_DIRS. simpl.
  destruct (decide (agent = "claude-code")) as [->|H1].
  { rewrite !lookup_insert_eq. intros [= <-].
    by exists (home E </> ".claude"), "commands", "agents", "rules". }
  rewrite !(lookup_insert_ne _ "claude-code") by done.
  destruct (decide (agent = "opencode")) as [->|H2].
  { rewrite !lookup_insert_eq. intros [= <-].
    by exists (home E </> ".config" </> "opencode"), "commands", "agent", "rules". }
  rewrite !(lookup_insert_ne _ "opencode") by done.
  destruct (decide (agent = "droid")) as [->|H3].
  { rewrite !lookup_insert_eq. intros [= <-].
    by exists (home E </> ".factory"), "commands", "agents", "rules". }
  rewrite !(lookup_insert_ne _ "droid") by done.
  by rewrite lookup_empty.
Qed.

Lemma validate_agent_targets E agent :
  validate_agent E agent = true →
  ∃ ct at_ rt,
    AGENT_DIRS E !! agent = Some ct ∧
    AGENT_AGENT_DIRS E !! agent = Some at_ ∧
    AGENT_RULES_DIRS E !! agent = Some rt.
Proof.
  unfold validate_agent. intros [ct Hct]%bool_decide_eq_true.
  destruct (AGENT_DIRS_cases _ _ _ Hct) as (base & c & a & r & -> & ? & ? & _).
  eauto 10.
Qed.

(** ** [count_files] *)

Lemma Path_glob_length p pattern w :
  ∃ l, Path_glob p pattern w = Ok l w ∧
       length l = from_option (λ n, length (matching pattern n)) 0
                    (lookup_path p (root w)).
Proof.
  unfold Path_glob. eexists. split; [done|].
  destruct (lookup_path p (root w)); simpl; [|done]. by rewrite length_fmap.
Qed.

Lemma count_category d w :
  (do e <- Path_exists d;
   if e then do l <- Path_glob d "*.md"; ret (length l) else ret 0) w
  = Ok (count_md d (root w)) w.
Proof.
  unfold bind, Path_exists, Path_glob, ret, count_md.
  destruct (lookup_path d (root w)) as [n|] eqn:Hl; simpl; [|done].
  rewrite Hl. simpl. by rewrite length_fmap.
Qed.

(** [count_files] only reads: it returns the four counts of the tree it is
    run on and leaves the world as it was. *)
Lemma count_files_spec E language w :
  count_files E language w =
    Ok (count_md (cwd E </> "commands") (root w),
        count_md (cwd E </> "agents" </> "shared") (root w),
        count_md (cwd E </> "agents" </> language) (root w),
        count_md (cwd E </> "rules") (root w)) w.
Proof.
  unfold count_files, get_source_dirs, get_script_dir.
  rewrite (bind_Ok _ _ _ _ _ (count_category _ w)).
  rewrite (bind_Ok _ _ _ _ _ (count_category _ w)).
  rewrite (bind_Ok _ _ _ _ _ (count_category _ w)).
  by rewrite (bind_Ok _ _ _ _ _ (count_category _ w)).
Qed.

(** C8. Planning is idempotent and deterministic: [count_files] always
    returns, leaves the world untouched, returns the same four counts when
    called a second time on the unchanged filesystem, and returns the same
    counts on any two worlds that hold the same filesystem snapshot. *)
Theorem count_files_idempotent E language w :
  ∃ plan,
    count_files E language w = Ok plan w ∧
    (do first <- count_files E language;
     do second <- count_files E language;
     ret (first, second)) w = Ok (plan, plan) w ∧
    ∀ w2, root w2 = root w → count_files E language w2 = Ok plan w2.
Proof.
  eexists. split; [apply count_files_spec|]. split.
  - rewrite (bind_Ok _ _ _ _ _ (count_files_spec _ _ w)).
    by rewrite (bind_Ok _ _ _ _ _ (count_files_spec _ _ w)).
  - intros w2 Hr. by rewrite count_files_spec, Hr.
Qed.

(** C9. Every category but the language agents is language-independent:
    on one filesystem snapshot, [count_files] for two languages returns
    the same command count, the same shared-agent count and the same rule
    count. *)
Theorem count_files_language_independent E l1 l2 w :
  ∃ c s r a1 a2,
    count_files E l1 w = Ok (c, s, a1, r) w ∧
    count_files E l2 w = Ok (c, s, a2, r) w.
Proof.
  do 5 eexists. split; apply count_files_spec.
Qed.

(** ** [copy_files] on a missing source *)

(** C10. When the source directory does not exist, [copy_files] returns 0
    and leaves the world exactly as it was: nothing is created, so a
    target directory (or any ancestor of it) that did not exist still does
    not. *)
Theorem copy_files_missing_source_frame source_dir target_dir pattern w :
  lookup_path source_dir (root w) = None →
  copy_files source_dir target_dir pattern w = Ok 0 w ∧
  ∀ w' n, copy_files source_dir target_dir pattern w = Ok n w' →
    ∀ q, lookup_path q (root w') = lookup_path q (root w).
Proof.
  intros Hl.
  assert (copy_files source_dir target_dir pattern w = Ok 0 w) as Hc.
  { unfold copy_files, bind, Path_exists. rewrite Hl.
    rewrite bool_decide_eq_false_2 by (by intros [? ?]). done. }
  split; [done|]. intros w' n. rewrite Hc. by intros [= _ <-].
Qed.

(** ** [install_to_agent] without a source commands directory *)

(** C7. For a supported agent, when the source commands directory does not
    exist, [install_to_agent] returns [InstallationResult(0, 0, 0, False,
    errors)] with one error recorded and leaves the world as it was: no
    directory is created, no backup is taken, no file is copied, nothing is
    printed. *)
Theorem install_to_agent_missing_commands E agent language w :
  validate_agent E agent = true →
  lookup_path (cwd E </> "commands") (root w) = None →
  install_to_agent E agent language w =
    Ok (mkInstallationResult 0 0 0 false
          ["Commands directory not found: " +:+ show_path (cwd E </> "commands")]) w.
Proof.
  intros (ct & at_ & rt & Hc & Ha & Hr)%validate_agent_targets Hl.
  unfold install_to_agent, getitem, get_source_dirs, get_script_dir.
  rewrite Hc, Ha, Hr. unfold bind, ret, Path_exists. rewrite Hl.
  by rewrite bool_decide_eq_false_2 by (by intros [? ?]).
Qed.

(** ** The verification step *)

Lemma bind_ret_l {A B} (a : A) (k : A → M B) w : bind (ret a) k w = k a w.
Proof. done. Qed.

Lemma verify_installation_spec E language ci ai ri w :
  verify_installation E language ci ai ri w =
    Ok tt (World (root w) (ticks w) (out w ++ [
      if bool_decide (ci ≠ count_md (cwd E </> "commands") (root w)) then
        Warning ("Commands: Expected " +:+
                 pretty (count_md (cwd E </> "commands") (root w)) +:+
                 " files, but installed " +:+ pretty ci)
      else Success "Commands installation verified";
      if bool_decide (ai ≠ count_md (cwd E </> "agents" </> "shared") (root w) +
                           count_md (cwd E </> "agents" </> language) (root w)) then
        Warning ("Agents: Expected " +:+
                 pretty (count_md (cwd E </> "agents" </> "shared") (root w) +
                         count_md (cwd E </> "agents" </> language) (root w)) +:+
                 " files, but installed " +:+ pretty ai)
      else Success "Agents installation verified";
      if bool_decide (ri ≠ count_md (cwd E </> "rules") (root w)) then
        Warning ("Rules: Expected " +:+
                 pretty (count_md (cwd E </> "rules") (root w)) +:+
                 " files, but installed " +:+ pretty ri)
      else Success "Rules installation verified";
      Print ""])).
Proof.
  unfold verify_installation.
  rewrite (bind_Ok _ _ _ _ _ (count_files_spec _ _ w)).
  unfold bind, show_warning, show_success, console_print.
  repeat case_bool_decide; rewrite !emit_Ok; simpl;
    by rewrite <-!(assoc_L (++)).
Qed.

(** What [install_to_agent] returns, whichever way it returns: either the
    early exit on a missing source commands directory, or the counts of a
    run whose last step was the verification. *)
Lemma install_to_agent_Ok_inv E agent language w r w' :
  install_to_agent E agent language w = Ok r w' →
  (lookup_path (cwd E </> "commands") (root w) = None ∧ w' = w ∧
   r = mkInstallationResult 0 0 0 false
         ["Commands directory not found: " +:+ show_path (cwd E </> "commands")])
  ∨
  (is_Some (lookup_path (cwd E </> "commands") (root w)) ∧
   ∃ ci ai ri w5,
     verify_installation E language ci ai ri w5 = Ok tt w' ∧
     r = mkInstallationResult ci ai ri true []).
Proof.
  unfold install_to_agent, getitem, get_source_dirs, get_script_dir.
  destruct (AGENT_DIRS E !! agent) as [ct|]; [|done]. rewrite bind_ret_l.
  destruct (AGENT_AGENT_DIRS E !! agent) as [at_|]; [|done]. rewrite bind_ret_l.
  destruct (AGENT_RULES_DIRS E !! agent) as [rt|]; [|done]. rewrite bind_ret_l.
  unfold bind at 1, Path_exists at 1.
  case_bool_decide as Hex; simpl.
  - intros (_ & w1 & _ & H)%bind_Ok_inv. revert H.
    intros (_ & w2 & _ & H)%bind_Ok_inv. revert H.
    intros (ci & w3 & _ & H)%bind_Ok_inv. revert H.
    intros (ai & w4 & _ & H)%bind_Ok_inv. revert H.
    intros (ri & w5 & _ & H)%bind_Ok_inv. revert H.
    intros ([] & w6 & Hv & [= <- <-])%bind_Ok_inv.
    right. split; [done|]. by exists ci, ai, ri, w5.
  - intros [= <- <-]. left. split_and!; [|done..].
    destruct (lookup_path _ _) eqn:Hl; [|done]. destruct Hex. eauto.
Qed.

(** C4. Whenever [install_to_agent] returns a result, its success flag is
    true iff its error list is empty; and when the installation ran (the
    source commands directory existed), every mismatch between a copied
    count and the recomputed plan is printed as a warning while the error
    list stays empty and success stays true. *)
Theorem install_result_success_iff_no_errors E agent language w r w' :
  install_to_agent E agent language w = Ok r w' →
  (success r = true ↔ errors r = []) ∧
  (is_Some (lookup_path (cwd E </> "commands") (root w)) →
   success r = true ∧ errors r = [] ∧
   (commands_installed r ≠ count_md (cwd E </> "commands") (root w') →
    Warning ("Commands: Expected " +:+
             pretty (count_md (cwd E </> "commands") (root w')) +:+
             " files, but installed " +:+ pretty (commands_installed r))
      ∈ out w') ∧
   (agents_installed r ≠ count_md (cwd E </> "agents" </> "shared") (root w') +
                         count_md (cwd E </> "agents" </> language) (root w') →
    Warning ("Agents: Expected " +:+
             pretty (count_md (cwd E </> "agents" </> "shared") (root w') +
                     count_md (cwd E </> "agents" </> language) (root w')) +:+
             " files, but installed " +:+ pretty (agents_installed r))
      ∈ out w') ∧
   (rules_installed r ≠ count_md (cwd E </> "rules") (root w') →
    Warning ("Rules: Expected " +:+
             pretty (count_md (cwd E </> "rules") (root w')) +:+
             " files, but installed " +:+ pretty (rules_installed r))
      ∈ out w')).
Proof.
  intros [(Hl & -> & ->)|(Hex & ci & ai & ri & w5 & Hv & ->)]%install_to_agent_Ok_inv.
  - split; [done|]. rewrite Hl. by intros [? ?].
  - split; [done|]. intros _. rewrite verify_installation_spec in Hv.
    injection Hv as <-. simpl.
    split_and!; [done..| | |]; intros Hne;
      rewrite (bool_decide_eq_true_2 _ Hne); set_solver.
Qed.

(** ** [os.mkdir], [os.makedirs], [shutil.copytree] *)

Lemma update_ext p f g r :
  (∀ n, f n = g n) → update p f r = update p g r.
Proof.
  intros Hfg. revert r. induction p as [|x p IH]; intros r; simpl; [done|].
  destruct r as [d|w es]; [done|]. destruct (es !! x) as [c|]; [|done]. simpl.
  by rewrite IH.
Qed.

Lemma update_update p f g r r1 :
  update p f r = Some r1 → update p g r1 = update p (λ n, f n ≫= g) r.
Proof.
  revert r r1. induction p as [|x p IH]; intros r r1 Hu; simpl in *.
  - by rewrite Hu.
  - destruct r as [d|w es]; [done|].
    destruct (es !! x) as [c|]; [|done]. simpl in *.
    destruct (update p f c) as [c1|] eqn:Hc; [|done]. simplify_eq/=.
    rewrite lookup_insert_eq. simpl. rewrite (IH _ _ Hc).
    destruct (update p (λ n, f n ≫= g) c); [|done]. simpl.
    by rewrite insert_insert_eq.
Qed.

(** Putting twice at one place is putting the second node. *)
Lemma put_put p n1 n2 r r1 :
  put p n1 r = Some r1 → put p n2 r1 = put p n2 r.
Proof.
  destruct (path_snoc_inv p) as [->|(q & x & ->)]; [done|].
  rewrite !put_snoc. intros Hu. rewrite (update_update _ _ _ _ _ Hu).
  apply update_ext. intros [d|w es]; [done|]. simpl. by rewrite insert_insert_eq.
Qed.

Lemma os_mkdir_child par x w wr es :
  lookup_path par (root w) = Some (Dir wr es) →
  os_mkdir (par </> x) w =
    match es !! x with
    | Some _ => Raise FileExistsError w
    | None =>
        if wr then
          match put (par </> x) (Dir true ∅) (root w) with
          | Some r' => Ok tt (with_root r' w)
          | None => Raise FileNotFoundError w
          end
        else Raise PermissionError w
    end.
Proof.
  intros Hl. unfold os_mkdir. rewrite parent_snoc, lookup_path_snoc, Hl. simpl.
  destruct (es !! x); [done|]. by destruct wr.
Qed.

Lemma os_makedirs_child par x w :
  is_Some (lookup_path par (root w)) →
  os_makedirs (par </> x) w = os_mkdir (par </> x) w.
Proof.
  intros Hl. unfold os_makedirs. rewrite rev_unit. cbn [os_makedirs_rev].
  rewrite rev_involutive, <-rev_unit, rev_involutive.
  unfold bind at 1, Path_exists. by rewrite bool_decide_eq_true_2.
Qed.

(** The parent of a path that resolves is a directory (for the root,
    itself). *)
Lemma lookup_parent_dir t r wr es :
  lookup_path t r = Some (Dir wr es) →
  ∃ pw pes, lookup_path (parent t) r = Some (Dir pw pes).
Proof.
  destruct (path_snoc_inv t) as [->|(q & x & ->)]; [eauto|].
  rewrite parent_snoc. intros Hl.
  destruct (lookup_path_ancestor_dir q x [] r) as (pw & pes & ? & _); eauto.
Qed.

Lemma map_to_list_nil_iff (es : gmap string node) :
  map_to_list es = [] ↔ es = ∅.
Proof. apply map_to_list_empty_iff. Qed.

(** [backup_existing_files], case by case. *)
Lemma backup_existing_files_spec E t w :
  backup_existing_files E t w =
    match lookup_path t (root w) with
    | None => Ok None w
    | Some (File _) => Raise NotADirectoryError w
    | Some (Dir wr es) =>
        if decide (es = ∅) then Ok None w
        else
          let b := backup_path t (clock E (ticks w)) in
          let w1 := World (root w) (S (ticks w)) (out w) in
          match lookup_path (parent t) (root w) with
          | Some (Dir pw pes) =>
              match pes !! name b with
              | Some _ => Raise FileExistsError w1
              | None =>
                  if pw then
                    match put b (Dir wr es) (root w) with
                    | Some r' => Ok (Some b) (with_root r' w1)
                    | None => Raise FileNotFoundError w1
                    end
                  else Raise PermissionError w1
              end
          | _ => Raise FileNotFoundError w1
          end
    end.
Proof.
  unfold backup_existing_files. unfold bind at 1, Path_exists.
  destruct (lookup_path t (root w)) as [[d|wr es]|] eqn:Hl; simpl.
  - unfold bind, Path_iterdir. by rewrite Hl.
  - unfold bind at 1. unfold bind at 1. unfold Path_iterdir. rewrite Hl.
    destruct (decide (es = ∅)) as [->|Hne].
    { by rewrite map_to_list_empty. }
    destruct (map_to_list es) as [|kv l] eqn:Hes.
    { by apply map_to_list_nil_iff in Hes. }
    simpl. unfold bind at 1, datetime_now. fold (backup_path t (clock E (ticks w))).
    set (b := backup_path t _). set (w1 := World _ _ _).
    destruct (lookup_parent_dir _ _ _ _ Hl) as (pw & pes & Hpar). rewrite Hpar.
    unfold bind at 1, shutil_copytree. change (root w1) with (root w). rewrite Hl.
    unfold bind at 1. unfold b at 1, backup_path.
    rewrite os_makedirs_child by (change (root w1) with (root w); by rewrite Hpar).
    rewrite (os_mkdir_child (parent t) _ w1 pw pes Hpar).
    subst b. unfold backup_path. rewrite name_snoc.
    set (x := name t +:+ ".backup." +:+ strftime (clock E (ticks w))).
    destruct (pes !! x) as [c|] eqn:Hx; [done|].
    destruct pw; [|done].
    destruct (put_is_Some (parent t) x (Dir true ∅) _ _ _ Hpar) as [r1 Hp1].
    change (root w1) with (root w). rewrite Hp1.
    rewrite root_with_root, (put_put _ _ _ _ _ Hp1).
    by destruct (put_is_Some (parent t) x (Dir wr es) _ _ _ Hpar) as [r2 ->].
  - done.
Qed.

(** ** The timestamp *)

Lemma string_app_cons c s r : String c s +:+ r = String c (s +:+ r).
Proof. done. Qed.

Lemma string_app_nil r : "" +:+ r = r.
Proof. done. Qed.

Lemma digit_value_digit n : digit_value (digit n) = Some (n `mod` 10).
Proof.
  unfold digit_value, digit.
  pose proof (Nat.mod_upper_bound n 10 ltac:(lia)) as Hm.
  rewrite nat_ascii_embedding by lia.
  rewrite bool_decide_eq_true_2 by lia. f_equal. lia.
Qed.

Lemma read_pad2 n acc rest :
  n < 100 → read_digits 2 acc (pad2 n +:+ rest) = Some (100 * acc + n, rest).
Proof.
  intros Hn. unfold pad2. rewrite !string_app_cons, string_app_nil.
  cbn [read_digits].
  rewrite !digit_value_digit. cbn [mbind option_bind].
  do 2 f_equal.
  rewrite (Nat.mod_small (n `div` 10)) by (apply Nat.Div0.div_lt_upper_bound; lia).
  pose proof (Nat.div_mod_eq n 10). lia.
Qed.

Lemma read_pad4 n rest :
  n `div` 100 < 100 → read_digits 4 0 (pad4 n +:+ rest) = Some (n, rest).
Proof.
  intros Hn. unfold pad4, pad2. rewrite !string_app_cons, string_app_nil.
  cbn [read_digits].
  rewrite !digit_value_digit. cbn [mbind option_bind].
  assert (n `div` 100 = (n `div` 10) `div` 10) as E1
    by (rewrite Nat.Div0.div_div; reflexivity).
  assert (n `div` 1000 = (n `div` 100) `div` 10) as E2
    by (rewrite Nat.Div0.div_div; reflexivity).
  pose proof (Nat.div_mod_eq n 10) as H1.
  pose proof (Nat.div_mod_eq (n `div` 10) 10) as H2.
  pose proof (Nat.div_mod_eq (n `div` 100) 10) as H3.
  rewrite <-E1 in H2. rewrite <-E2 in H3.
  generalize dependent (n `div` 1000). generalize dependent (n `div` 100).
  generalize dependent (n `div` 10).
  intros q1 H1 q2 Hq2 _ H2 q3 _ H3.
  rewrite (Nat.mod_small q3) by lia.
  do 2 f_equal. lia.
Qed.

(** The stamp is [YYYYMMDD-HHMMSS]: read back field by field, it gives the
    time it was made from, to the second. *)
Lemma parse_strftime dt :
  valid_datetime dt → parse_timestamp (strftime dt) = Some dt.
Proof.
  destruct dt as [y m d hh mm ss]. unfold valid_datetime.
  cbn [year month day hour minute second].
  intros (Hy & Hy2 & Hm & Hd & Hh & Hmin & Hs).
  unfold parse_timestamp, strftime.
  cbn [year month day hour minute second].
  rewrite read_pad4 by done. cbn [mbind option_bind].
  rewrite read_pad2 by lia. cbn [mbind option_bind].
  rewrite read_pad2 by lia. cbn [mbind option_bind].
  rewrite string_app_cons, string_app_nil.
  rewrite read_pad2 by lia. cbn [mbind option_bind].
  rewrite read_pad2 by lia. cbn [mbind option_bind].
  replace (pad2 ss) with (pad2 ss +:+ "") by done.
  rewrite read_pad2 by lia. cbn [mbind option_bind]. done.
Qed.

Lemma strftime_length dt : Stdlib.Strings.String.length (strftime dt) = 15.
Proof. done. Qed.

(** ** [backup_existing_files] *)

Lemma name_backup_path t now :
  name (backup_path t now) = name t +:+ ".backup." +:+ strftime now.
Proof. unfold backup_path. apply name_snoc. Qed.

Lemma parent_backup_path t now : parent (backup_path t now) = parent t.
Proof. unfold backup_path. apply parent_snoc. Qed.

Lemma backup_None_iff E t w :
  (∃ w', backup_existing_files E t w = Ok None w') ↔
  (lookup_path t (root w) = None ∨ ∃ n, lookup_path t (root w) = Some n ∧ empty_dir n).
Proof.
  rewrite backup_existing_files_spec. unfold empty_dir.
  destruct (lookup_path t (root w)) as [[d|wr es]|] eqn:Hl.
  - split; [by intros [? ?]|]. intros [|(? & ? & ? & ?)]; simplify_eq.
  - destruct (decide (es = ∅)) as [->|Hne].
    + split; [|eauto]. intros _. right. eauto.
    + split.
      * intros [w' H]. exfalso. revert H. cbv zeta.
        destruct (lookup_path (parent t) (root w)) as [[?|pw pes]|]; [done| |done].
        destruct (pes !! _); [done|]. destruct pw; [|done].
        by destruct (put _ _ _).
      * intros [|(? & ? & ? & ?)]; simplify_eq.
  - split; eauto.
Qed.

Lemma backup_None_unchanged E t w w' :
  backup_existing_files E t w = Ok None w' → w' = w.
Proof.
  rewrite backup_existing_files_spec.
  destruct (lookup_path t (root w)) as [[d|wr es]|]; [done| |congruence].
  destruct (decide (es = ∅)); [congruence|]. cbv zeta.
  destruct (lookup_path (parent t) (root w)) as [[?|pw pes]|]; [done| |done].
  destruct (pes !! _); [done|]. destruct pw; [|done].
  by destruct (put _ _ _).
Qed.

Lemma backup_Some_inv E t w b w' :
  backup_existing_files E t w = Ok (Some b) w' →
  b = backup_path t (clock E (ticks w)) ∧
  ∃ wr es,
    lookup_path t (root w) = Some (Dir wr es) ∧ es ≠ ∅ ∧
    put b (Dir wr es) (root w) = Some (root w') ∧
    lookup_path b (root w) = None ∧
    ticks w' = S (ticks w) ∧ out w' = out w.
Proof.
  rewrite backup_existing_files_spec.
  destruct (lookup_path t (root w)) as [[d|wr es]|] eqn:Hl; [done| |done].
  destruct (decide (es = ∅)) as [|Hne]; [done|]. cbv zeta.
  destruct (lookup_path (parent t) (root w)) as [[?|pw pes]|] eqn:Hpar; [done| |done].
  destruct (pes !! _) eqn:Hx; [done|]. destruct pw; [|done].
  destruct (put _ _ _) as [r'|] eqn:Hp; [|done].
  intros [= <- <-]. split; [done|]. exists wr, es. split_and!; try done.
  unfold backup_path. rewrite lookup_path_snoc, Hpar. simpl.
  by rewrite name_backup_path in Hx.
Qed.

Lemma backup_Some_intro E t w wr es pes :
  lookup_path t (root w) = Some (Dir wr es) → es ≠ ∅ →
  lookup_path (parent t) (root w) = Some (Dir true pes) →
  pes !! name (backup_path t (clock E (ticks w))) = None →
  ∃ w', backup_existing_files E t w = Ok (Some (backup_path t (clock E (ticks w)))) w'.
Proof.
  intros Hl Hne Hpar Hx. rewrite backup_existing_files_spec, Hl.
  rewrite decide_False by done. cbv zeta. rewrite Hpar, Hx.
  destruct (put_is_Some (parent t)
              (name t +:+ ".backup." +:+ strftime (clock E (ticks w)))
              (Dir wr es) _ _ _ Hpar) as [r' Hp].
  fold (backup_path t (clock E (ticks w))) in Hp. rewrite Hp. eauto.
Qed.

(** A backup that fails leaves the filesystem as it was. *)
Lemma backup_Raise_inv E t w e w' :
  backup_existing_files E t w = Raise e w' →
  root w' = root w ∧ out w' = out w.
Proof.
  rewrite backup_existing_files_spec.
  destruct (lookup_path t (root w)) as [[d|wr es]|]; [by intros [= _ <-]| |done].
  destruct (decide (es = ∅)); [done|]. cbv zeta.
  destruct (lookup_path (parent t) (root w)) as [[?|pw pes]|];
    [by intros [= _ <-]| |by intros [= _ <-]].
  destruct (pes !! _); [by intros [= _ <-]|]. destruct pw; [|by intros [= _ <-]].
  destruct (put _ _ _); [done|by intros [= _ <-]].
Qed.

(** C5. [backup_existing_files] returns [None], and changes nothing, iff
    the target directory does not exist or is empty. Otherwise, when the
    copy can be made (the parent directory is writable and holds no entry
    of the backup's name), it returns the sibling path
    [<name>.backup.<timestamp>]; the path it returns holds the whole tree
    of the target as it was, everything off that path is unchanged, and the
    timestamp is [YYYYMMDD-HHMMSS], fifteen characters that read back to the
    clock's time to the second. *)
Theorem backup_existing_files_contract E target_dir w :
  let now := clock E (ticks w) in
  let backup_dir :=
    parent target_dir </> (name target_dir +:+ ".backup." +:+ strftime now) in
  ((∃ w', backup_existing_files E target_dir w = Ok None w') ↔
   (lookup_path target_dir (root w) = None ∨
    ∃ n, lookup_path target_dir (root w) = Some n ∧ empty_dir n)) ∧
  (∀ w', backup_existing_files E target_dir w = Ok None w' → w' = w) ∧
  (∀ wr es pes,
     lookup_path target_dir (root w) = Some (Dir wr es) → es ≠ ∅ →
     lookup_path (parent target_dir) (root w) = Some (Dir true pes) →
     pes !! name backup_dir = None →
     ∃ w', backup_existing_files E target_dir w = Ok (Some backup_dir) w') ∧
  (∀ b w',
     backup_existing_files E target_dir w = Ok (Some b) w' →
     b = backup_dir ∧
     lookup_path b (root w) = None ∧
     (∀ q, lookup_path (b ++ q) (root w') = lookup_path (target_dir ++ q) (root w)) ∧
     (∀ q, ¬ b `prefix_of` q → ¬ q `prefix_of` b →
           lookup_path q (root w') = lookup_path q (root w))) ∧
  Stdlib.Strings.String.length (strftime now) = 15 ∧
  (valid_datetime now → parse_timestamp (strftime now) = Some now).
Proof.
  intros now backup_dir.
  change backup_dir with (backup_path target_dir now).
  split_and!.
  - apply backup_None_iff.
  - apply backup_None_unchanged.
  - intros wr es pes. apply backup_Some_intro.
  - intros b w' (-> & wr & es & Hl & Hne & Hp & Hb & _)%backup_Some_inv.
    split_and!; [done..| |].
    + intros q. rewrite (lookup_put_below _ _ _ _ _ Hp).
      by rewrite lookup_path_app, Hl.
    + intros q. by apply (lookup_put_frame _ _ _ _ _ Hp).
  - apply strftime_length.
  - apply parse_strftime.
Qed.

(** ** Writing one regular file *)

Lemma put_parent_dir p new r r' :
  p ≠ [] → put p new r = Some r' →
  ∃ w es, lookup_path (parent p) r = Some (Dir w es).
Proof.
  destruct (path_snoc_inv p) as [->|(q & x & ->)]; [done|].
  intros _ Hp. rewrite parent_snoc.
  destruct (put_Some_inv _ _ _ _ _ Hp) as (w & es & ? & _). eauto.
Qed.

(** Writing a regular file where there was none, or another regular file,
    changes nothing except at the file and in the entries of its
    ancestors. *)
Lemma put_file_frame D d r r' q :
  put D (File d) r = Some r' →
  from_option is_dir_node false (lookup_path D r) = false →
  ¬ q `prefix_of` D →
  lookup_path q r' = lookup_path q r.
Proof.
  intros Hp Hold Hq.
  destruct (decide (D `prefix_of` q)) as [[k ->]|Hn].
  - rewrite (lookup_put_below _ _ _ _ _ Hp).
    destruct k as [|y k]; [destruct Hq; exists []; by rewrite !app_nil_r|].
    rewrite lookup_path_app. simpl.
    destruct (lookup_path D r) as [[d0|w es]|]; simpl; done.
  - by apply (lookup_put_frame _ _ _ _ _ Hp).
Qed.

Lemma prefix_of_file_eq q D r d r' new :
  put D new r = Some r' → lookup_path q r = Some (File d) →
  q `prefix_of` D → q = D.
Proof.
  intros Hp Hl [k ->]. destruct k as [|y k]; [by rewrite app_nil_r|].
  assert (q ++ y :: k ≠ []) as Hnil by (by destruct q).
  destruct (put_parent_dir _ _ _ _ Hnil Hp) as (w & es & Hpar).
  destruct (path_snoc_inv (y :: k)) as [?|(k' & z & Hk)]; [done|].
  rewrite Hk, (assoc_L (++)), parent_snoc in Hpar.
  rewrite lookup_path_app, Hl in Hpar. simpl in Hpar.
  destruct k'; simplify_eq/=.
Qed.

Lemma put_keeps_file D new r r' q d :
  put D new r = Some r' → lookup_path q r = Some (File d) → q ≠ D →
  ¬ D `prefix_of` q →
  lookup_path q r' = Some (File d).
Proof.
  intros Hp Hl Hne HD. rewrite (lookup_put_frame _ _ _ _ _ Hp); [done..|].
  intros Hq. apply Hne. by eapply prefix_of_file_eq.
Qed.

(** A directory stays a directory, with its permission, when a file is
    written somewhere that was not a directory. *)
Lemma put_file_keeps_dir D d r r' q w es :
  put D (File d) r = Some r' →
  from_option is_dir_node false (lookup_path D r) = false →
  lookup_path q r = Some (Dir w es) →
  ∃ es', lookup_path q r' = Some (Dir w es').
Proof.
  intros Hp Hold Hl.
  destruct (decide (q `prefix_of` D)) as [[k ->]|Hn].
  - destruct k as [|y k].
    + rewrite app_nil_r in Hold. by rewrite Hl in Hold.
    + destruct (lookup_put_ancestor _ _ _ _ _ _ _ _ Hp Hl) as [c' ?]. eauto.
  - rewrite (put_file_frame _ _ _ _ _ Hp Hold Hn). eauto.
Qed.

(** ** [shutil.copy2] *)

(** Copying a regular file to a place that is a regular file, or is free
    in a writable directory. *)
Lemma shutil_copy2_Ok src dst w d :
  lookup_path src (root w) = Some (File d) →
  src ≠ dst →
  ((∃ d0, lookup_path dst (root w) = Some (File d0)) ∨
   (lookup_path dst (root w) = None ∧
    ∃ es, lookup_path (parent dst) (root w) = Some (Dir true es))) →
  dst ≠ [] →
  ∃ r', put dst (File d) (root w) = Some r' ∧
        shutil_copy2 src dst w = Ok tt (with_root r' w).
Proof.
  intros Hs Hne Hd Hnil.
  assert (∃ pw pes, lookup_path (parent dst) (root w) = Some (Dir pw pes))
    as (pw & pes & Hpar).
  { destruct Hd as [[d0 Hd]|[_ [es Hpar]]]; [|eauto].
    destruct (path_snoc_inv dst) as [->|(q & x & ->)]; [done|].
    rewrite parent_snoc.
    destruct (lookup_path_ancestor_dir q x [] (root w)) as (? & ? & ? & _); eauto. }
  destruct (path_snoc_inv dst) as [->|(q & x & Hdst)]; [done|].
  rewrite Hdst, parent_snoc in Hpar.
  destruct (put_is_Some q x (File d) _ _ _ Hpar) as [r' Hp].
  rewrite <-Hdst in Hp. exists r'. split; [done|].
  unfold shutil_copy2, bind, Path_is_dir.
  destruct Hd as [[d0 Hd]|[Hd [es Hpar']]].
  - rewrite Hd. simpl. rewrite bool_decide_eq_false_2 by done. simpl.
    by rewrite Hs, Hd, Hp.
  - rewrite Hd. simpl. rewrite bool_decide_eq_false_2 by done. simpl.
    by rewrite Hs, Hd, Hpar', Hp.
Qed.

(** ** The loop of [copy_files] *)

Lemma snoc_inj (p q : path) x y : p </> x = q </> y → p = q ∧ x = y.
Proof. intros H. by apply app_inj_tail in H. Qed.

Lemma not_prefix_snoc_self (p : path) x : ¬ (p </> x) `prefix_of` p.
Proof.
  intros [k Hk]. apply (f_equal length) in Hk.
  rewrite !length_app in Hk. simpl in Hk. lia.
Qed.

Lemma prefix_snoc_inv (q p : path) x :
  q `prefix_of` p </> x → q = p </> x ∨ q `prefix_of` p.
Proof.
  intros [k Hk]. destruct (path_snoc_inv k) as [->|(k' & z & ->)].
  - left. by rewrite app_nil_r in Hk.
  - right. rewrite (assoc_L (++)) in Hk. apply snoc_inj in Hk as [-> _].
    by exists k'.
Qed.

(** A regular file has nothing below it. *)
Lemma file_prefix_eq q p r d :
  lookup_path q r = Some (File d) → is_Some (lookup_path p r) →
  q `prefix_of` p → q = p.
Proof.
  intros Hq Hp [k ->]. destruct k as [|y k]; [by rewrite app_nil_r|].
  rewrite (lookup_path_below_file _ _ _ _ Hq) in Hp; [by destruct Hp|done].
Qed.

Lemma put_file_file_iff D d r r' q d' :
  put D (File d) r = Some r' →
  from_option is_dir_node false (lookup_path D r) = false →
  q ≠ D →
  lookup_path q r' = Some (File d') ↔ lookup_path q r = Some (File d').
Proof.
  intros Hp Hold Hne.
  destruct (decide (q `prefix_of` D)) as [Hq|Hq].
  - split; intros Hl; exfalso; apply Hne.
    + eapply (file_prefix_eq q D r'); [done| |done].
      rewrite (lookup_put_eq _ _ _ _ Hp). eauto.
    + by eapply prefix_of_file_eq.
  - by rewrite (put_file_frame _ _ _ _ _ Hp Hold Hq).
Qed.

Lemma is_file_at_true q r :
  is_file_at q r = true ↔ ∃ d, lookup_path q r = Some (File d).
Proof.
  unfold is_file_at. destruct (lookup_path q r) as [[d|w es]|]; simpl.
  - split; eauto.
  - split; [done|]. by intros [? ?].
  - split; [done|]. by intros [? ?].
Qed.

Lemma filter_ext_elem {A} (P Q : A → Prop)
    `{∀ x, Decision (P x)} `{∀ x, Decision (Q x)} (l : list A) :
  (∀ x, x ∈ l → P x ↔ Q x) → filter P l = filter Q l.
Proof.
  induction l as [|a l IH]; intros HPQ; [done|].
  rewrite !filter_cons.
  rewrite IH by (intros x Hx; apply HPQ; by right).
  destruct (decide (P a)) as [HP|HP], (decide (Q a)) as [HQ|HQ]; try done.
  - destruct HQ. apply HPQ; [by left|done].
  - destruct HP. apply HPQ; [by left|done].
Qed.

Lemma Path_is_file_Ok p w : Path_is_file p w = Ok (is_file_at p (root w)) w.
Proof. done. Qed.

(** Running the loop over the names [xs] of a source directory, into a
    directory that can take every regular file among them. *)
Lemma copy_loop src tgt xs : ∀ n0 w wr es,
  NoDup xs → src ≠ tgt →
  lookup_path tgt (root w) = Some (Dir wr es) →
  (∀ x d, x ∈ xs → lookup_path (src </> x) (root w) = Some (File d) →
     (∃ d0, es !! x = Some (File d0)) ∨ (es !! x = None ∧ wr = true)) →
  ∃ r',
    for_each ((λ x, src </> x) <$> xs) n0 (copy_one tgt) w =
      Ok (n0 + length (filter (λ x, is_file_at (src </> x) (root w) = true) xs))
         (with_root r' w) ∧
    (∃ es', lookup_path tgt r' = Some (Dir wr es')) ∧
    (∀ x d, x ∈ xs → lookup_path (src </> x) (root w) = Some (File d) →
       lookup_path (tgt </> x) r' = Some (File d)) ∧
    (∀ q,
       (∀ x d, x ∈ xs → lookup_path (src </> x) (root w) = Some (File d) →
          ¬ (tgt </> x) `prefix_of` q) →
       ¬ q `prefix_of` tgt →
       lookup_path q r' = lookup_path q (root w)).
Proof.
  induction xs as [|x xs IH]; intros n0 w wr es Hnd Hst Htgt Hroom.
  { exists (root w). simpl. unfold ret. rewrite with_root_id, Nat.add_0_r.
    split_and!; [done|eauto| |done]. intros x d Hx. by apply elem_of_nil in Hx. }
  apply NoDup_cons in Hnd as [Hx Hnd].
  rewrite fmap_cons. cbn [for_each]. unfold bind at 1, copy_one at 1.
  unfold bind at 1. rewrite Path_is_file_Ok.
  destruct (is_file_at (src </> x) (root w)) eqn:Hf.
  - (* a regular file: copy it *)
    apply is_file_at_true in Hf as [d Hd].
    assert (lookup_path (tgt </> x) (root w) = es !! x) as Hdst.
    { by rewrite lookup_path_snoc, Htgt. }
    assert (from_option is_dir_node false (lookup_path (tgt </> x) (root w)) = false)
      as Hold.
    { rewrite Hdst. destruct (Hroom x d) as [[d0 ->]|[-> _]]; [by left|done..]. }
    destruct (shutil_copy2_Ok (src </> x) (tgt </> x) w d) as (r1 & Hp & Hc).
    { done. }
    { intros [? _]%snoc_inj. done. }
    { rewrite Hdst, parent_snoc, Htgt.
      destruct (Hroom x d) as [[d0 ->]|[-> ->]]; [by left|done|eauto|eauto]. }
    { by destruct tgt. }
    rewrite name_snoc. unfold bind at 1. rewrite Hc. unfold ret at 1.
    destruct (put_Some_inv _ _ _ _ _ Hp) as (wr' & es' & Htgt' & Htgt1).
    rewrite Htgt in Htgt'. injection Htgt' as <- <-.
    assert (∀ y d', y ∈ xs →
      lookup_path (src </> y) r1 = Some (File d') ↔
      lookup_path (src </> y) (root w) = Some (File d')) as Hsame.
    { intros y d' Hy. apply (put_file_file_iff _ _ _ _ _ _ Hp Hold).
      intros [? _]%snoc_inj. done. }
    destruct (IH (n0 + 1) (with_root r1 w) wr (<[x := File d]> es))
      as (r' & Hrun & Hdir & Hcopied & Hframe).
    { done. }
    { done. }
    { done. }
    { intros y d' Hy Hl. rewrite lookup_insert_ne by (by intros ->).
      apply (Hroom y d'); [by right|]. by apply Hsame. }
    exists r'. rewrite root_with_root in *. split_and!.
    + rewrite Hrun. unfold with_root. simpl. f_equal.
      rewrite filter_cons_True by (apply is_file_at_true; eauto). simpl.
      rewrite (filter_ext_elem
                 (λ y, is_file_at (src </> y) r1 = true)
                 (λ y, is_file_at (src </> y) (root w) = true)).
      * lia.
      * intros y Hy. rewrite !is_file_at_true.
        split; intros [d' ?]; exists d'; by apply (Hsame y d' Hy).
    + done.
    + intros y d' [->|Hy]%elem_of_cons Hl.
      * rewrite Hl in Hd. injection Hd as ->.
        rewrite Hframe; [by apply (lookup_put_eq _ _ _ _ Hp)| |].
        -- intros z dz Hz _ [Heq|Hpre]%prefix_snoc_inv.
           ++ apply snoc_inj in Heq as [_ ->]. done.
           ++ by apply not_prefix_snoc_self in Hpre.
        -- apply not_prefix_snoc_self.
      * apply Hcopied; [done|]. by apply Hsame.
    + intros q Hq Hqt. rewrite Hframe.
      * apply (put_file_frame _ _ _ _ _ Hp Hold).
        intros [Heq|Hpre]%prefix_snoc_inv; [|done].
        apply (Hq x d); [by left|done|]. by rewrite Heq.
      * intros y d' Hy Hl. apply (Hq y d'); [by right|]. by apply Hsame.
      * done.
  - (* not a regular file: skip it *)
    unfold ret at 1.
    destruct (IH n0 w wr es) as (r' & Hrun & Hdir & Hcopied & Hframe).
    { done. }
    { done. }
    { done. }
    { intros y d' Hy. apply Hroom. by right. }
    exists r'. split_and!.
    + rewrite Hrun. by rewrite filter_cons_False by (by rewrite Hf).
    + done.
    + intros y d' [->|Hy]%elem_of_cons Hl.
      * unfold is_file_at in Hf. by rewrite Hl in Hf.
      * by apply Hcopied.
    + intros q Hq Hqt. apply Hframe; [|done].
      intros y d' Hy. apply Hq. by right.
Qed.

(** ** [copy_files] *)

Lemma matching_NoDup pattern n : NoDup (matching pattern n).*1.
Proof.
  destruct n as [d|w es]; simpl; [constructor|].
  eapply sublist_NoDup; [apply (NoDup_fst_map_to_list es)|].
  apply fmap_sublist, sublist_filter.
Qed.

Lemma elem_of_matching pattern w es x n :
  (x, n) ∈ matching pattern (Dir w es) ↔ es !! x = Some n ∧ fnmatch pattern x = true.
Proof.
  unfold matching. rewrite list_elem_of_filter, elem_of_map_to_list. simpl. tauto.
Qed.

Lemma matching_lookup src pattern r sn x n :
  lookup_path src r = Some sn → (x, n) ∈ matching pattern sn →
  lookup_path (src </> x) r = Some n.
Proof.
  intros Hl Hx. rewrite lookup_path_snoc, Hl. simpl.
  destruct sn as [d|w es]; [by apply elem_of_nil in Hx|].
  by apply elem_of_matching in Hx as [? _].
Qed.

Lemma elem_of_matching_files pattern sn x d :
  (x, d) ∈ matching_files pattern sn ↔ (x, File d) ∈ matching pattern sn.
Proof.
  unfold matching_files. rewrite list_elem_of_omap. split.
  - intros ([y [d'|w es]] & Hy & Hf); simpl in *; simplify_eq. done.
  - intros Hx. by exists (x, File d).
Qed.

Lemma matching_files_names src pattern r sn x d :
  lookup_path src r = Some sn →
  (x, d) ∈ matching_files pattern sn ↔
  x ∈ (matching pattern sn).*1 ∧ lookup_path (src </> x) r = Some (File d).
Proof.
  intros Hl. rewrite elem_of_matching_files. split.
  - intros Hx. split; [|by eapply matching_lookup].
    apply list_elem_of_fmap. by exists (x, File d).
  - intros [[[y n] [-> Hy]]%list_elem_of_fmap Hf]. simpl in *.
    by rewrite (matching_lookup _ _ _ _ _ _ Hl Hy) in Hf; simplify_eq.
Qed.

Lemma matching_files_length src pattern r sn :
  lookup_path src r = Some sn →
  length (filter (λ x, is_file_at (src </> x) r = true) (matching pattern sn).*1)
  = length (matching_files pattern sn).
Proof.
  intros Hl. unfold matching_files.
  assert (∀ kv, kv ∈ matching pattern sn →
            lookup_path (src </> kv.1) r = Some kv.2) as Hall.
  { intros [x n] Hx. by eapply matching_lookup. }
  induction (matching pattern sn) as [|[x n] l IH]; [done|].
  pose proof (Hall (x, n) ltac:(by left)) as Hx. simpl in Hx.
  specialize (IH (λ kv Hkv, Hall kv ltac:(by right))).
  rewrite fmap_cons, filter_cons. csimpl.
  destruct n as [d|wr es]; simpl.
  - rewrite decide_True by (unfold is_file_at; by rewrite Hx). simpl.
    by rewrite IH.
  - rewrite decide_False by (unfold is_file_at; by rewrite Hx).
    by rewrite IH.
Qed.

(** When the source exists, the target can be made and can take the
    files, and the target is not the source or inside it: every matching
    regular file is in the target afterwards, the count is their number,
    and nothing else has changed but the directories made on the way. *)
Lemma copy_files_Ok src tgt pattern w sn r1 wr es :
  lookup_path src (root w) = Some sn →
  ¬ src `prefix_of` tgt →
  mkdirs tgt (root w) = Some r1 →
  lookup_path tgt r1 = Some (Dir wr es) →
  (∀ x d, (x, d) ∈ matching_files pattern sn →
     (∃ d0, es !! x = Some (File d0)) ∨ (es !! x = None ∧ wr = true)) →
  ∃ r',
    copy_files src tgt pattern w =
      Ok (length (matching_files pattern sn)) (with_root r' w) ∧
    (∃ es', lookup_path tgt r' = Some (Dir wr es')) ∧
    (∀ x d, (x, d) ∈ matching_files pattern sn →
       lookup_path (tgt </> x) r' = Some (File d)) ∧
    (∀ q,
       (∀ x d, (x, d) ∈ matching_files pattern sn → ¬ (tgt </> x) `prefix_of` q) →
       ¬ q `prefix_of` tgt →
       lookup_path q r' = lookup_path q (root w)).
Proof.
  intros Hsrc Hnot Hmk Htgt Hroom.
  assert (∀ q, src `prefix_of` q → lookup_path q r1 = lookup_path q (root w))
    as Hkeep.
  { intros q Hq. apply (mkdirs_frame _ _ _ _ Hmk).
    intros Hqt. apply Hnot. by etrans. }
  assert (lookup_path src r1 = Some sn) as Hsrc1.
  { by rewrite Hkeep. }
  assert (∀ x d, (x, d) ∈ matching_files pattern sn ↔
            x ∈ (matching pattern sn).*1 ∧
            lookup_path (src </> x) r1 = Some (File d)) as Hfiles.
  { intros x d. apply matching_files_names. done. }
  destruct (copy_loop src tgt (matching pattern sn).*1 0 (with_root r1 w) wr es)
    as (r' & Hrun & Hdir & Hcopied & Hframe).
  { apply matching_NoDup. }
  { intros ->. by apply Hnot. }
  { done. }
  { intros x d Hx Hl. apply (Hroom x d). by apply Hfiles. }
  rewrite root_with_root in *.
  exists r'. split_and!.
  - unfold copy_files. unfold bind at 1, Path_exists. rewrite Hsrc.
    rewrite bool_decide_eq_true_2 by eauto. simpl.
    unfold bind at 1. rewrite (Path_mkdir_Ok _ _ _ Hmk).
    unfold bind at 1, Path_glob. rewrite root_with_root, Hsrc1. simpl.
    rewrite (matching_files_length _ _ _ _ Hsrc1) in Hrun.
    rewrite <-list_fmap_compose in Hrun. exact Hrun.
  - done.
  - intros x d [Hx Hl]%Hfiles. by apply Hcopied.
  - intros q Hq Hqt. rewrite Hframe.
    + by apply (mkdirs_frame _ _ _ _ Hmk).
    + intros x d Hx Hl. apply (Hq x d). by apply Hfiles.
    + done.
Qed.


Lemma can_create_mkdirs t r :
  can_create t r →
  lookup_path t r = None ∧
  ∃ r1, mkdirs t r = Some r1 ∧ lookup_path t r1 = Some (Dir true ∅).
Proof.
  intros (p & x & k & pes & -> & Hp & Hx).
  assert (lookup_path (p ++ x :: k) r = None) as Hnone.
  { rewrite lookup_path_app, Hp. simpl. by rewrite Hx. }
  split; [done|].
  assert (is_Some (mkdirs (p ++ x :: k) r)) as [r1 Hm].
  { clear Hnone. revert r Hp. induction p as [|y p IH]; intros r Hp.
    - simpl in Hp. injection Hp as ->. simpl. rewrite Hx. eauto.
    - destruct r as [d|w es]; [done|].
      rewrite lookup_path_cons in Hp.
      destruct (es !! y) as [c|] eqn:Hy; [|done]. simpl in Hp.
      change ((y :: p) ++ x :: k) with (y :: (p ++ x :: k)).
      rewrite mkdirs_cons, Hy.
      destruct (IH c Hp) as [c' ->]. simpl. eauto. }
  exists r1. split; [done|]. by apply (mkdirs_fresh _ _ _ Hm).
Qed.


(** ** The statements above, run on concrete worlds *)

Lemma install_to_agent_missing_commands_witness :
  install_to_agent demo_env "claude-code" "python" bare_world =
    Ok (mkInstallationResult 0 0 0 false
          ["Commands directory not found: /repo/commands"]) bare_world.
Proof.
  apply (install_to_agent_missing_commands demo_env "claude-code" "python" bare_world).
  - vm_compute. reflexivity.
  - vm_compute. reflexivity.
Defined.

Lemma copy_files_missing_source_frame_witness :
  copy_files ["repo"; "commands"] ["home"; "u"; ".claude"; "commands"] "*.md"
    bare_world = Ok 0 bare_world.
Proof.
  apply (copy_files_missing_source_frame
           ["repo"; "commands"] ["home"; "u"; ".claude"; "commands"] "*.md"
           bare_world).
  vm_compute. reflexivity.
Defined.

Lemma install_result_success_iff_no_errors_witness :
  ∃ r w',
    install_to_agent demo_env "claude-code" "python" odd_world = Ok r w' ∧
    commands_installed r = 1 ∧
    success r = true ∧ errors r = [] ∧
    Warning "Commands: Expected 2 files, but installed 1" ∈ out w'.
Proof.
  destruct (install_to_agent demo_env "claude-code" "python" odd_world)
    as [r w'|e w'] eqn:Hrun; [|vm_compute in Hrun; discriminate].
  exists r, w'. split; [reflexivity|].
  destruct (install_result_success_iff_no_errors _ _ _ _ _ _ Hrun) as [_ Hran].
  destruct Hran as (Hs & He & Hw & _).
  - vm_compute. eauto.
  - vm_compute in Hrun. injection Hrun as <- <-.
    split; [reflexivity|]. split; [exact Hs|]. split; [exact He|].
    vm_compute in Hw. apply Hw. lia.
Defined.

Lemma backup_existing_files_contract_witness :
  ∃ w',
    backup_existing_files demo_env ["home"; "u"; ".claude"; "commands"] edited_world
    = Ok (Some ["home"; "u"; ".claude"; "commands.backup.20240307-090501"]) w' ∧
    lookup_path ["home"; "u"; ".claude"; "commands.backup.20240307-090501"; "plan.md"]
      (root w') = Some (File "my plan") ∧
    parse_timestamp "20240307-090501" = Some (Datetime 2024 3 7 9 5 1).
Proof.
  destruct (backup_existing_files_contract demo_env
              ["home"; "u"; ".claude"; "commands"] edited_world)
    as (_ & _ & Hmake & Hcopy & _ & Hstamp).
  destruct (Hmake true {["plan.md" := File "my plan"]}
              {["commands" := dir [("plan.md", File "my plan")]]})
    as [w' Hrun].
  - vm_compute. reflexivity.
  - vm_compute. discriminate.
  - vm_compute. reflexivity.
  - vm_compute. reflexivity.
  - exists w'. split; [exact Hrun|].
    destruct (Hcopy _ _ Hrun) as (_ & _ & Hsub & _).
    split.
    + apply (Hsub ["plan.md"]).
    + apply Hstamp. vm_compute. lia.
Defined.


(** ** The install loop of [main] *)

Lemma for_each_app {A S} (l1 l2 : list A) (acc : S) (body : A → S → M S) w :
  for_each (l1 ++ l2) acc body w =
    (do acc' <- for_each l1 acc body; for_each l2 acc' body) w.
Proof.
  revert acc w. induction l1 as [|x l1 IH]; intros acc w; [done|].
  simpl. unfold bind.
  destruct (body x acc w) as [acc1 w1|e w1]; [|done]. by rewrite IH.
Qed.

Lemma install_selected_all E agents language w :
  install_selected E "all" agents language w =
    for_each agents [] (λ agent_name installed_agents,
      show_installation_progress agent_name ;;
      install_to_agent E agent_name language ;;
      ret (installed_agents ++ [agent_name])) w.
Proof. done. Qed.

(** With the source commands directory missing, every target of the
    tables is visited and gets its failed result; the loop runs to its
    end and writes nothing. *)
Lemma install_loop_missing_commands E language agents : ∀ acc w,
  Forall (λ a, validate_agent E a = true) agents →
  lookup_path (cwd E </> "commands") (root w) = None →
  ∃ w',
    for_each agents acc (λ agent_name installed_agents,
      show_installation_progress agent_name ;;
      install_to_agent E agent_name language ;;
      ret (installed_agents ++ [agent_name])) w = Ok (acc ++ agents) w' ∧
    root w' = root w.
Proof.
  induction agents as [|a agents IH]; intros acc w Hall Hl.
  - exists w. by rewrite app_nil_r.
  - apply Forall_cons in Hall as [Ha Hall]. cbn [for_each].
    unfold bind at 1. unfold bind at 1, show_installation_progress.
    unfold bind at 1, console_print. rewrite !emit_Ok. cbn [root ticks out].
    unfold bind at 1.
    rewrite (install_to_agent_missing_commands E a language _ Ha) by done.
    unfold ret at 1.
    destruct (IH (acc ++ [a])
                (World (root w) (ticks w) ((out w ++ [Rule ("Installing to: " +:+ a)])
                                             ++ [Print ""])) Hall Hl)
      as (w' & Hrun & Hroot).
    exists w'. split; [|done]. etrans; [exact Hrun|].
    by rewrite <-(assoc_L (++)).
Qed.

(** C1, as the code has it. In a multi-target run the failure that
    [install_to_agent] records in its result, a missing source commands
    directory, does not stop the loop: every target of the tables is
    visited and nothing is written. An error raised while one target is
    installed (an unwritable agents directory, say) is not caught: it
    leaves the loop as it left [install_to_agent], in the world it was
    raised in, so the targets before it stay installed and the targets
    after it are not attempted. *)
Theorem install_selected_failure_propagation E language w :
  (∀ agents,
     Forall (λ a, validate_agent E a = true) agents →
     lookup_path (cwd E </> "commands") (root w) = None →
     ∃ w', install_selected E "all" agents language w = Ok agents w' ∧
           root w' = root w) ∧
  (∀ before agent_name after installed w1 e w2,
     install_selected E "all" before language w = Ok installed w1 →
     (show_installation_progress agent_name ;;
      install_to_agent E agent_name language) w1 = Raise e w2 →
     install_selected E "all" (before ++ agent_name :: after) language w
     = Raise e w2).
Proof.
  split.
  - intros agents Hall Hl. rewrite install_selected_all.
    by apply (install_loop_missing_commands E language agents []).
  - intros before agent_name after installed w1 e w2 Hbefore Hraise.
    rewrite install_selected_all in *. rewrite for_each_app.
    unfold bind at 1. rewrite Hbefore. cbn [for_each].
    unfold bind at 1. unfold bind at 1.
    unfold bind at 1 in Hraise.
    destruct (show_installation_progress agent_name w1) as [[] w1'|e' w1'].
    + unfold bind at 1. by rewrite Hraise.
    + by injection Hraise as -> ->.
Qed.

Lemma install_selected_failure_propagation_witness :
  ∃ w2,
    install_selected demo_env "all" ["claude-code"; "opencode"] "python"
      locked_agents_world = Raise PermissionError w2 ∧
    lookup_path ["home"; "u"; ".config"; "opencode"; "commands"] (root w2) = None.
Proof.
  destruct ((show_installation_progress "claude-code" ;;
             install_to_agent demo_env "claude-code" "python") locked_agents_world)
    as [r w2|e w2] eqn:Hraise; vm_compute in Hraise; [discriminate|].
  injection Hraise as <- <-.
  eexists. split.
  - apply (proj2 (install_selected_failure_propagation demo_env "python"
                    locked_agents_world)
             [] "claude-code" ["opencode"] [] locked_agents_world).
    + reflexivity.
    + vm_compute. reflexivity.
  - vm_compute. reflexivity.
Defined.

(** C1, as stated, fails: with the agents directory of [claude-code] not
    writable and [opencode] healthy (installed alone it succeeds), the run
    over both raises [PermissionError] while [claude-code] is installed,
    returns nothing, and never reaches [opencode]. *)
Lemma partial_failure_aborts_siblings :
  (∃ r w', install_to_agent demo_env "opencode" "python" locked_agents_world
           = Ok r w' ∧ success r = true) ∧
  (∃ w', install_selected demo_env "all" ["claude-code"; "opencode"] "python"
           locked_agents_world = Raise PermissionError w' ∧
         lookup_path ["home"; "u"; ".config"; "opencode"; "commands"] (root w')
         = None) ∧
  ¬ ∃ installed w', install_selected demo_env "all" ["claude-code"; "opencode"]
                      "python" locked_agents_world = Ok installed w'.
Proof.
  split_and!.
  - destruct (install_to_agent demo_env "opencode" "python" locked_agents_world)
      as [r w'|e w'] eqn:Hrun; vm_compute in Hrun; [|discriminate].
    injection Hrun as <- <-. eexists _, _. split; reflexivity.
  - destruct (install_selected demo_env "all" ["claude-code"; "opencode"] "python"
                locked_agents_world) as [r w'|e w'] eqn:Hrun;
      vm_compute in Hrun; [discriminate|].
    injection Hrun as <- <-. eexists. split; [reflexivity|].
    vm_compute. reflexivity.
  - intros (installed & w' & Hrun). vm_compute in Hrun. discriminate.
Qed.

(** ** Directory creation and backup inside [install_to_agent] *)

Lemma root_add_out evs w : root (add_out evs w) = root w.
Proof. done. Qed.

Lemma create_directories_Ok ct at_ rt w r1 r2 r3 :
  mkdirs ct (root w) = Some r1 → mkdirs at_ r1 = Some r2 → mkdirs rt r2 = Some r3 →
  create_directories ct at_ rt w =
    Ok tt (add_out [Task "Creating directories...";
                    Info ("Commands: " +:+ show_path ct);
                    Info ("Agents: " +:+ show_path at_);
                    Info ("Rules: " +:+ show_path rt);
                    Print ""] (with_root r3 w)).
Proof.
  intros H1 H2 H3.
  unfold create_directories. unfold bind at 1. rewrite emit_Ok.
  unfold bind at 1. rewrite (Path_mkdir_Ok ct _ r1) by done.
  unfold bind at 1. rewrite (Path_mkdir_Ok at_ _ r2) by done.
  unfold bind at 1. rewrite (Path_mkdir_Ok rt _ r3) by done.
  unfold bind, show_info, console_print. rewrite !emit_Ok.
  unfold add_out, with_root. simpl. by rewrite <-!(assoc_L (++)).
Qed.

Lemma create_directories_Ok_inv ct at_ rt w w1 :
  create_directories ct at_ rt w = Ok tt w1 →
  ∃ r1 r2,
    mkdirs ct (root w) = Some r1 ∧ mkdirs at_ r1 = Some r2 ∧
    mkdirs rt r2 = Some (root w1) ∧ ticks w1 = ticks w.
Proof.
  unfold create_directories.
  intros ([] & w0 & [= <-] & H)%bind_Ok_inv. revert H.
  intros ([] & wa & (r1 & H1 & ->)%Path_mkdir_Ok_inv & H)%bind_Ok_inv. revert H.
  intros ([] & wb & (r2 & H2 & ->)%Path_mkdir_Ok_inv & H)%bind_Ok_inv. revert H.
  intros ([] & wc & (r3 & H3 & ->)%Path_mkdir_Ok_inv & H)%bind_Ok_inv. revert H.
  unfold bind, show_info, console_print. rewrite !emit_Ok.
  intros [= <-]. exists r1, r2. by simpl in *.
Qed.

Lemma create_directories_keeps_file ct at_ rt w w1 q d :
  create_directories ct at_ rt w = Ok tt w1 →
  lookup_path q (root w) = Some (File d) →
  lookup_path q (root w1) = Some (File d).
Proof.
  intros (r1 & r2 & H1 & H2 & H3 & _)%create_directories_Ok_inv Hl.
  eapply mkdirs_keeps_file; [done|].
  eapply mkdirs_keeps_file; [done|].
  by eapply mkdirs_keeps_file.
Qed.

Lemma backup_commands_spec E ct w :
  backup_commands E ct w =
    match backup_existing_files E ct (add_out [Task "Checking for existing files..."] w)
    with
    | Ok (Some b) w' =>
        Ok tt (add_out [Info ("Backup saved to: " +:+ show_path b); Print ""] w')
    | Ok None w' => Ok tt w'
    | Raise e w' => Raise e w'
    end.
Proof.
  unfold backup_commands. unfold bind at 1. rewrite emit_Ok.
  fold (add_out [Task "Checking for existing files..."] w).
  unfold bind at 1.
  destruct (backup_existing_files E ct _) as [[b|] w'|e w']; [|done..].
  unfold bind, show_info, console_print. rewrite !emit_Ok.
  unfold add_out. simpl. by rewrite <-!(assoc_L (++)).
Qed.

Lemma backup_commands_Raise_inv E ct w e w' :
  backup_commands E ct w = Raise e w' → root w' = root w.
Proof.
  rewrite backup_commands_spec.
  destruct (backup_existing_files E ct _) as [[b|] w1|e1 w1] eqn:Hb; [done..|].
  intros [= <- <-]. by apply backup_Raise_inv in Hb as [-> _].
Qed.

(** C2, as the code has it. If backing up the commands target fails, the
    installation of that target stops there: [install_to_agent] raises the
    backup's error instead of returning a result, the filesystem is as the
    creation of the target directories left it, and every regular file that
    existed before the call is untouched. *)
Theorem backup_failure_aborts_install E agent language w ct at_ rt w1 e w2 :
  AGENT_DIRS E !! agent = Some ct →
  AGENT_AGENT_DIRS E !! agent = Some at_ →
  AGENT_RULES_DIRS E !! agent = Some rt →
  is_Some (lookup_path (cwd E </> "commands") (root w)) →
  create_directories ct at_ rt w = Ok tt w1 →
  backup_commands E ct w1 = Raise e w2 →
  install_to_agent E agent language w = Raise e w2 ∧
  root w2 = root w1 ∧
  (∀ q d, lookup_path q (root w) = Some (File d) →
          lookup_path q (root w2) = Some (File d)).
Proof.
  intros Hct Hat Hrt Hsrc Hmk Hbk.
  pose proof (backup_commands_Raise_inv _ _ _ _ _ Hbk) as Hroot.
  split_and!.
  - unfold install_to_agent, getitem, get_source_dirs, get_script_dir.
    rewrite Hct, Hat, Hrt, !bind_ret_l.
    unfold bind at 1, Path_exists. rewrite bool_decide_eq_true_2 by done.
    cbn [negb]. unfold bind at 1. rewrite Hmk. unfold bind at 1.
    by rewrite Hbk.
  - done.
  - intros q d Hl. rewrite Hroot. by eapply create_directories_keeps_file.
Qed.

Lemma backup_failure_aborts_install_witness :
  ∃ w2,
    install_to_agent demo_env "claude-code" "python" locked_backup_world
    = Raise PermissionError w2 ∧
    lookup_path ["home"; "u"; ".claude"; "commands"; "plan.md"] (root w2)
    = Some (File "my plan").
Proof.
  destruct (create_directories
              ["home"; "u"; ".claude"; "commands"]
              ["home"; "u"; ".claude"; "agents"]
              ["home"; "u"; ".claude"; "rules"] locked_backup_world)
    as [[] w1|e w1] eqn:Hmk; [|vm_compute in Hmk; discriminate].
  destruct (backup_commands demo_env ["home"; "u"; ".claude"; "commands"] w1)
    as [[] w2|e w2] eqn:Hbk.
  - exfalso. vm_compute in Hmk. injection Hmk as <-.
    vm_compute in Hbk. discriminate.
  - exists w2.
    destruct (backup_failure_aborts_install demo_env "claude-code" "python"
                locked_backup_world
                ["home"; "u"; ".claude"; "commands"]
                ["home"; "u"; ".claude"; "agents"]
                ["home"; "u"; ".claude"; "rules"] w1 e w2)
      as (Hrun & _ & Hfiles).
    + vm_compute. reflexivity.
    + vm_compute. reflexivity.
    + vm_compute. reflexivity.
    + vm_compute. eauto.
    + exact Hmk.
    + exact Hbk.
    + split.
      * rewrite Hrun. vm_compute in Hmk. injection Hmk as <-.
        vm_compute in Hbk. by injection Hbk as <- _.
      * apply Hfiles. vm_compute. reflexivity.
Defined.

(** C2, as stated, fails: with an edited command in place and a
    configuration root that is not writable, the backup raises
    [PermissionError]; the edited command is untouched, but
    [install_to_agent] raises too and returns no [InstallationResult], so
    there is no error list and no [success = false]. *)
Lemma backup_failure_not_recorded :
  (∃ w', install_to_agent demo_env "claude-code" "python" locked_backup_world
         = Raise PermissionError w' ∧
         lookup_path ["home"; "u"; ".claude"; "commands"; "plan.md"] (root w')
         = Some (File "my plan")) ∧
  ¬ ∃ r w', install_to_agent demo_env "claude-code" "python" locked_backup_world
            = Ok r w' ∧ success r = false ∧ errors r ≠ [].
Proof.
  split.
  - destruct (install_to_agent demo_env "claude-code" "python" locked_backup_world)
      as [r w'|e w'] eqn:Hrun; vm_compute in Hrun; [discriminate|].
    injection Hrun as <- <-. eexists. split; [reflexivity|].
    vm_compute. reflexivity.
  - intros (r & w' & Hrun & _). vm_compute in Hrun. discriminate.
Qed.

(* ================================================================= *)
(** * Further properties of the installer *)

(** ** Paths apart *)

Lemma apart_sym p q : apart p q → apart q p.
Proof. intros [? ?]. by split. Qed.

Lemma apart_app_r p q k : apart p q → apart p (q ++ k).
Proof.
  intros [Hpq Hqp]. split.
  - intros Hp.
    destruct (prefix_weak_total p q (q ++ k)) as [?|?]; [done|by exists k|done..].
  - intros Hq. apply Hqp. etrans; [|done]. by exists k.
Qed.

Lemma apart_siblings (b : path) x y : x ≠ y → apart (b </> x) (b </> y).
Proof.
  intros Hne. split; intros [Heq|Hpre]%prefix_snoc_inv.
  - by apply snoc_inj in Heq as [_ ?].
  - by apply not_prefix_snoc_self in Hpre.
  - by apply snoc_inj in Heq as [_ ?].
  - by apply not_prefix_snoc_self in Hpre.
Qed.

Lemma apart_not_below t q x : apart t q → ¬ (t </> x) `prefix_of` q.
Proof.
  intros [Htq _] Hpre. apply Htq. etrans; [|done]. by exists [x].
Qed.

Lemma mkdirs_apart t q r r' :
  mkdirs t r = Some r' → apart t q → lookup_path q r' = lookup_path q r.
Proof. intros Hm [_ Hq]. by apply (mkdirs_frame _ _ _ _ Hm). Qed.

(** ** Making an empty target *)

Lemma mkdirs_dir_inv p w es r' :
  mkdirs p (Dir w es) = Some r' → ∃ es', r' = Dir w es'.
Proof.
  destruct p as [|x p]; simpl.
  - intros [= <-]. eauto.
  - destruct (es !! x) as [c|].
    + destruct (mkdirs p c); [|done]. intros [= <-]. eauto.
    + destruct w; [|done]. intros [= <-]. eauto.
Qed.

Lemma mkdirs_chain_is_Some q p : is_Some (mkdirs q (chain p)).
Proof.
  revert p. induction q as [|y q IH]; intros p.
  - destruct p; simpl; eauto.
  - destruct p as [|x p]; simpl.
    + rewrite lookup_empty. eauto.
    + destruct (decide (x = y)) as [->|Hne].
      * rewrite lookup_singleton_eq. destruct (IH p) as [c' ->]. simpl. eauto.
      * rewrite lookup_singleton_ne by done. eauto.
Qed.

(** Making one directory never prevents making another. *)
Lemma mkdirs_mono q : ∀ p r r',
  mkdirs p r = Some r' → is_Some (mkdirs q r) → is_Some (mkdirs q r').
Proof.
  induction q as [|y q IH]; intros p r r' Hp Hq.
  - destruct r as [d|w es]; [by destruct p|].
    destruct (mkdirs_dir_inv _ _ _ _ Hp) as [es' ->]. simpl. eauto.
  - destruct r as [d|w es]; [by destruct p|].
    destruct p as [|x p].
    { simpl in Hp. by simplify_eq. }
    rewrite mkdirs_cons in Hp, Hq.
    destruct (es !! x) as [c|] eqn:Hx.
    + destruct (mkdirs p c) as [c'|] eqn:Hc; [|done]. simplify_eq/=.
      destruct (decide (x = y)) as [->|Hne].
      * rewrite lookup_insert_eq. rewrite Hx in Hq.
        destruct (mkdirs q c) as [c1|] eqn:Hq1; [|by destruct Hq].
        destruct (IH _ _ _ Hc (mk_is_Some _ _ Hq1)) as [c2 ->]. simpl. eauto.
      * rewrite lookup_insert_ne by done.
        destruct (es !! y) as [cy|]; [|by destruct w].
        destruct (mkdirs q cy); [by eexists|by destruct Hq].
    + destruct w; [|done]. simplify_eq/=.
      destruct (decide (x = y)) as [->|Hne].
      * rewrite lookup_insert_eq.
        destruct (mkdirs_chain_is_Some q p) as [c2 ->]. simpl. eauto.
      * rewrite lookup_insert_ne by done.
        destruct (es !! y) as [cy|]; [|by eexists].
        destruct (mkdirs q cy); [by eexists|by destruct Hq].
Qed.

Lemma empty_target_mkdirs t r :
  empty_target t r →
  ∃ r', mkdirs t r = Some r' ∧ lookup_path t r' = Some (Dir true ∅).
Proof.
  intros [[r' Hm] [Hl|Hl]]; exists r'; (split; [done|]).
  - by apply (mkdirs_fresh _ _ _ Hm).
  - rewrite (mkdirs_existing _ _ _ _ Hl) in Hm. by simplify_eq.
Qed.

Lemma empty_target_preserved t p r r' :
  empty_target t r → mkdirs p r = Some r' → apart p t → empty_target t r'.
Proof.
  intros [Hm Hl] Hp Hapart. split.
  - by eapply mkdirs_mono.
  - by rewrite (mkdirs_apart _ _ _ _ Hp Hapart).
Qed.

(** ** What a call leaves alone *)

Lemma world_of_bind {A B} (c : M A) (k : A → M B) w :
  world_of (bind c k w) =
    match c w with
    | Ok a w1 => world_of (k a w1)
    | Raise _ w1 => w1
    end.
Proof. unfold bind. by destruct (c w). Qed.

Lemma preserves_ret {A} q (a : A) : preserves q (ret a).
Proof. by intros w. Qed.

Lemma preserves_raise {A} q e : preserves q (raise (A := A) e).
Proof. by intros w. Qed.

Lemma preserves_emit q ev : preserves q (emit ev).
Proof. by intros w. Qed.

Lemma preserves_bind {A B} q (c : M A) (k : A → M B) :
  preserves q c → (∀ a, preserves q (k a)) → preserves q (bind c k).
Proof.
  intros Hc Hk w. rewrite world_of_bind. specialize (Hc w).
  destruct (c w) as [a w1|e w1]; simpl in Hc; [|done].
  by rewrite Hk.
Qed.

Lemma preserves_try_catch {A} q (c : M A) (h : exn → M A) :
  preserves q c → (∀ e, preserves q (h e)) → preserves q (try_catch c h).
Proof.
  intros Hc Hh w. unfold try_catch. specialize (Hc w).
  destruct (c w) as [a w1|e w1]; simpl in Hc; [done|].
  by rewrite Hh.
Qed.

Lemma preserves_for_each {A S} q (l : list A) (body : A → S → M S) : ∀ acc,
  (∀ x acc, x ∈ l → preserves q (body x acc)) →
  preserves q (for_each l acc body).
Proof.
  induction l as [|x l IH]; intros acc Hbody; [apply preserves_ret|].
  cbn [for_each]. apply preserves_bind.
  - apply Hbody. by left.
  - intros acc'. apply IH. intros y acc'' Hy. apply Hbody. by right.
Qed.

Lemma preserves_Path_exists q p : preserves q (Path_exists p).
Proof. by intros w. Qed.

Lemma preserves_Path_is_dir q p : preserves q (Path_is_dir p).
Proof. by intros w. Qed.

Lemma preserves_Path_is_file q p : preserves q (Path_is_file p).
Proof. by intros w. Qed.

Lemma preserves_Path_glob q p pattern : preserves q (Path_glob p pattern).
Proof. by intros w. Qed.

Lemma preserves_Path_iterdir q p : preserves q (Path_iterdir p).
Proof.
  intros w. unfold Path_iterdir.
  by destruct (lookup_path p (root w)) as [[d|wr es]|].
Qed.

(** [Path.mkdir] changes nothing but the prefixes of its path. *)
Lemma preserves_Path_mkdir q p : ¬ q `prefix_of` p → preserves q (Path_mkdir p).
Proof.
  intros Hq w. pose proof (Path_mkdir_spec p w) as H.
  destruct (mkdirs p (root w)) as [r'|] eqn:Hm.
  - rewrite H. simpl. by apply (mkdirs_frame _ _ _ _ Hm).
  - destruct H as [e ->]. done.
Qed.

(** [shutil.copy2] writes at its destination, or right below it. *)
Lemma preserves_shutil_copy2 q src dst :
  apart dst q → preserves q (shutil_copy2 src dst).
Proof.
  intros [Hdq Hqd] w. unfold shutil_copy2. unfold bind, Path_is_dir.
  set (D := if from_option is_dir_node false (lookup_path dst (root w))
            then dst </> name src else dst).
  assert (¬ q `prefix_of` D) as HqD.
  { unfold D. destruct (from_option _ _ _); [|done].
    intros [->|?]%prefix_snoc_inv; [|done]. apply Hdq. by exists [name src]. }
  destruct (bool_decide (src = D) && _); [done|].
  destruct (lookup_path src (root w)) as [[d|wr es]|]; [|done..].
  destruct (lookup_path D (root w)) as [[d0|wr es]|] eqn:HD; [|done|].
  - destruct (put D (File d) (root w)) as [r'|] eqn:Hp; [|done]. simpl.
    apply (put_file_frame _ _ _ _ _ Hp); [by rewrite HD|done].
  - destruct (lookup_path (parent D) (root w)) as [[?|[] ?]|]; [done| |done..].
    destruct (put D (File d) (root w)) as [r'|] eqn:Hp; [|done]. simpl.
    apply (put_file_frame _ _ _ _ _ Hp); [by rewrite HD|done].
Qed.

Lemma preserves_copy_files q source_dir target_dir pattern :
  apart target_dir q → preserves q (copy_files source_dir target_dir pattern).
Proof.
  intros Hq. unfold copy_files.
  apply preserves_bind; [apply preserves_Path_exists|]. intros e.
  destruct (negb e); [apply preserves_ret|].
  apply preserves_bind; [apply preserves_Path_mkdir, Hq|]. intros _.
  apply preserves_bind; [apply preserves_Path_glob|]. intros files.
  apply preserves_for_each. intros file count _.
  apply preserves_bind; [apply preserves_Path_is_file|]. intros f.
  destruct f; [|apply preserves_ret].
  apply preserves_bind; [|intros; apply preserves_ret].
  apply preserves_shutil_copy2.
  rewrite <-(app_nil_r q). apply apart_sym, apart_app_r, apart_sym.
  by rewrite app_nil_r.
Qed.

(** ** What [install_to_agent] leaves alone *)

Lemma apart_child t q x : apart t q → apart (t </> x) q.
Proof.
  intros H. rewrite <-(app_nil_r q). apply apart_sym, apart_app_r, apart_sym.
  by rewrite app_nil_r.
Qed.

Lemma preserves_create_directories q ct at_ rt :
  ¬ q `prefix_of` ct → ¬ q `prefix_of` at_ → ¬ q `prefix_of` rt →
  preserves q (create_directories ct at_ rt).
Proof.
  intros Hc Ha Hr. unfold create_directories, show_info, console_print.
  apply preserves_bind; [apply preserves_emit|intros _].
  apply preserves_bind; [by apply preserves_Path_mkdir|intros _].
  apply preserves_bind; [by apply preserves_Path_mkdir|intros _].
  apply preserves_bind; [by apply preserves_Path_mkdir|intros _].
  apply preserves_bind; [apply preserves_emit|intros _].
  apply preserves_bind; [apply preserves_emit|intros _].
  apply preserves_bind; [apply preserves_emit|intros _].
  apply preserves_emit.
Qed.

Lemma backup_commands_frame E ct q w :
  apart (backup_path ct (clock E (ticks w))) q →
  lookup_path q (root (world_of (backup_commands E ct w))) = lookup_path q (root w).
Proof.
  intros [Hbq Hqb]. rewrite backup_commands_spec.
  destruct (backup_existing_files E ct _) as [[b|] w'|e w'] eqn:Hb; simpl.
  - apply backup_Some_inv in Hb as (-> & wr & es & _ & _ & Hp & _).
    by apply (lookup_put_frame _ _ _ _ _ Hp).
  - by apply backup_None_unchanged in Hb as ->.
  - by apply backup_Raise_inv in Hb as [-> _].
Qed.

Lemma preserves_copy_commands q src tgt :
  apart tgt q → preserves q (copy_commands src tgt).
Proof.
  intros Hq. unfold copy_commands, show_success, console_print.
  apply preserves_bind; [apply preserves_emit|intros _].
  apply preserves_bind; [by apply preserves_copy_files|intros n].
  apply preserves_bind; [apply preserves_emit|intros _].
  apply preserves_bind; [apply preserves_emit|intros _].
  apply preserves_ret.
Qed.

Lemma preserves_copy_rules q src tgt :
  apart tgt q → preserves q (copy_rules src tgt).
Proof.
  intros Hq. unfold copy_rules, show_success, console_print.
  apply preserves_bind; [apply preserves_emit|intros _].
  apply preserves_bind; [by apply preserves_copy_files|intros n].
  apply preserves_bind; [apply preserves_emit|intros _].
  apply preserves_bind; [apply preserves_emit|intros _].
  apply preserves_ret.
Qed.

Lemma preserves_copy_agents q agents_dir tgt language :
  apart tgt q → preserves q (copy_agents agents_dir tgt language).
Proof.
  intros Hq. unfold copy_agents, show_success, console_print.
  apply preserves_bind; [apply preserves_emit|]. intros _.
  apply preserves_bind; [apply preserves_Path_exists|]. intros e1.
  apply preserves_bind.
  { destruct e1; [|apply preserves_ret].
    apply preserves_bind; [by apply preserves_copy_files|]. intros n.
    apply preserves_bind; [apply preserves_emit|]. intros _. apply preserves_ret. }
  intros n1.
  apply preserves_bind; [apply preserves_Path_exists|]. intros e2.
  apply preserves_bind.
  { destruct e2; [|apply preserves_ret].
    apply preserves_bind; [by apply preserves_copy_files|]. intros n.
    apply preserves_bind; [apply preserves_emit|]. intros _. apply preserves_ret. }
  intros n2.
  apply preserves_bind; [apply preserves_Path_exists|]. intros e3.
  apply preserves_bind.
  { destruct e3; [|apply preserves_ret].
    apply preserves_bind; [|intros _; apply preserves_emit].
    by apply preserves_shutil_copy2, apart_child. }
  intros _.
  apply preserves_bind; [apply preserves_emit|]. intros _. apply preserves_ret.
Qed.

Lemma preserves_verify_installation q E language ci ai ri :
  preserves q (verify_installation E language ci ai ri).
Proof. intros w. by rewrite verify_installation_spec. Qed.

Lemma create_directories_ticks ct at_ rt w :
  ticks (world_of (create_directories ct at_ rt w)) = ticks w.
Proof.
  unfold create_directories. rewrite world_of_bind, emit_Ok.
  set (w0 := World _ _ _). rewrite world_of_bind.
  pose proof (Path_mkdir_spec ct w0) as H1.
  destruct (mkdirs ct (root w0)) as [r1|]; [rewrite H1|by destruct H1 as [e ->]].
  rewrite world_of_bind.
  pose proof (Path_mkdir_spec at_ (with_root r1 w0)) as H2.
  destruct (mkdirs at_ _) as [r2|]; [rewrite H2|by destruct H2 as [e ->]].
  rewrite world_of_bind.
  pose proof (Path_mkdir_spec rt (with_root r2 (with_root r1 w0))) as H3.
  destruct (mkdirs rt _) as [r3|]; [rewrite H3|by destruct H3 as [e ->]].
  unfold bind, show_info, console_print. by rewrite !emit_Ok.
Qed.

(** Whether it returns or raises, [install_to_agent] leaves every path as
    it was that is apart from the three target directories and from the
    place of the backup. *)
Lemma install_to_agent_frame E agent language w ct at_ rt q :
  AGENT_DIRS E !! agent = Some ct →
  AGENT_AGENT_DIRS E !! agent = Some at_ →
  AGENT_RULES_DIRS E !! agent = Some rt →
  apart ct q → apart at_ q → apart rt q →
  apart (backup_path ct (clock E (ticks w))) q →
  lookup_path q (root (world_of (install_to_agent E agent language w)))
  = lookup_path q (root w).
Proof.
  intros Hct Hat Hrt Hc Ha Hr Hb.
  unfold install_to_agent, getitem, get_source_dirs, get_script_dir.
  rewrite Hct, Hat, Hrt, !bind_ret_l.
  rewrite world_of_bind. unfold Path_exists at 1.
  destruct (negb _); [done|].
  rewrite world_of_bind.
  pose proof (preserves_create_directories q ct at_ rt
                (proj2 Hc) (proj2 Ha) (proj2 Hr) w) as H1.
  pose proof (create_directories_ticks ct at_ rt w) as Ht.
  destruct (create_directories ct at_ rt w) as [[] w1|e w1]; simpl in H1, Ht;
    [|done].
  rewrite world_of_bind.
  pose proof (backup_commands_frame E ct q w1) as H2. rewrite Ht in H2.
  specialize (H2 Hb).
  destruct (backup_commands E ct w1) as [[] w2|e w2]; simpl in H2;
    [|by rewrite H2].
  rewrite world_of_bind.
  pose proof (preserves_copy_commands q (cwd E </> "commands") ct Hc w2) as H3.
  destruct (copy_commands _ ct w2) as [ci w3|e w3]; simpl in H3;
    [|by rewrite H3, H2].
  rewrite world_of_bind.
  pose proof (preserves_copy_agents q (cwd E </> "agents") at_ language Ha w3) as H4.
  destruct (copy_agents _ at_ language w3) as [ai w4|e w4]; simpl in H4;
    [|by rewrite H4, H3, H2].
  rewrite world_of_bind.
  pose proof (preserves_copy_rules q (cwd E </> "rules") rt Hr w4) as H5.
  destruct (copy_rules _ rt w4) as [ri w5|e w5]; simpl in H5;
    [|by rewrite H5, H4, H3, H2].
  rewrite world_of_bind.
  pose proof (preserves_verify_installation q E language ci ai ri w5) as H6.
  destruct (verify_installation E language ci ai ri w5) as [[] w6|e w6];
    simpl in H6; simpl; by rewrite H6, H5, H4, H3, H2.
Qed.

(** X1. Whether it returns or raises, [copy_files] changes nothing outside
    its target: every path that is neither at or below the target
    directory nor one of its ancestors resolves afterwards to what it
    resolved to before. *)
Theorem copy_files_touches_only_target source_dir target_dir pattern q w :
  apart target_dir q →
  lookup_path q (root (world_of (copy_files source_dir target_dir pattern w)))
  = lookup_path q (root w).
Proof. intros Hq. by apply preserves_copy_files. Qed.

(** X2. Whether it returns or raises, [install_to_agent] leaves every path
    as it was that is apart from the agent's three target directories and
    from the place of the backup; so when the agent's configuration root
    is neither inside nor above the working directory, nothing at or below
    the working directory, the checkout it installs from, is changed. *)
Theorem install_to_agent_touches_only_targets E agent language w ct at_ rt :
  AGENT_DIRS E !! agent = Some ct →
  AGENT_AGENT_DIRS E !! agent = Some at_ →
  AGENT_RULES_DIRS E !! agent = Some rt →
  (∀ q,
     apart ct q → apart at_ q → apart rt q →
     apart (backup_path ct (clock E (ticks w))) q →
     lookup_path q (root (world_of (install_to_agent E agent language w)))
     = lookup_path q (root w)) ∧
  (apart (parent ct) (cwd E) →
   ∀ k, lookup_path (cwd E ++ k)
          (root (world_of (install_to_agent E agent language w)))
        = lookup_path (cwd E ++ k) (root w)).
Proof.
  intros Hct Hat Hrt. split.
  - intros q. by apply install_to_agent_frame.
  - intros Hbase k.
    destruct (AGENT_DIRS_cases _ _ _ Hct) as (base & c & a & r & -> & Ha & Hr & _).
    unfold path in *.
    assert (at_ = base </> a) as -> by congruence.
    assert (rt = base </> r) as -> by congruence.
    rewrite parent_snoc in Hbase.
    assert (∀ x, apart (base </> x) (cwd E ++ k)) as Hap.
    { intros x. by apply apart_child, apart_app_r. }
    apply (install_to_agent_frame E agent language w _ _ _ _ Hct Hat Hrt);
      try apply Hap.
    unfold backup_path. rewrite parent_snoc. apply Hap.
Qed.

(** X3. [install_to_agent] on an agent that is not in the tables raises
    [KeyError] before doing anything: nothing is written and nothing is
    printed. *)
Theorem install_to_agent_unknown_agent E agent language w :
  validate_agent E agent = false →
  install_to_agent E agent language w = Raise KeyError w.
Proof.
  unfold validate_agent. intros Hv%bool_decide_eq_false.
  unfold install_to_agent, getitem.
  destruct (AGENT_DIRS E !! agent) as [ct|] eqn:Hct; [|done].
  destruct Hv. eauto.
Qed.

Lemma apart_by_head x y (p q : path) : x ≠ y → apart (x :: p) (y :: q).
Proof.
  intros Hne. split; intros H%prefix_cons_inv_1; congruence.
Qed.

(** ** Backups of one target at different times *)

Lemma string_app_inj s a b : s +:+ a = s +:+ b → a = b.
Proof.
  induction s as [|c s IH]; [done|]. rewrite !string_app_cons.
  intros [= H]. by apply IH.
Qed.

Lemma string_app_self s a : s +:+ a = s → a = "".
Proof.
  induction s as [|c s IH]; [done|]. rewrite string_app_cons.
  intros [= H]. by apply IH.
Qed.

Lemma backup_name_fresh t now : name (backup_path t now) ≠ name t.
Proof.
  rewrite name_backup_path. intros H%string_app_self.
  by rewrite string_app_cons in H.
Qed.

Lemma strftime_inj d1 d2 :
  valid_datetime d1 → valid_datetime d2 → strftime d1 = strftime d2 → d1 = d2.
Proof.
  intros H1%parse_strftime H2%parse_strftime Heq. rewrite Heq in H1. congruence.
Qed.

Lemma backup_path_inj t d1 d2 :
  valid_datetime d1 → valid_datetime d2 →
  backup_path t d1 = backup_path t d2 → d1 = d2.
Proof.
  intros H1 H2 [_ Heq]%snoc_inj.
  apply string_app_inj, string_app_inj in Heq. by apply strftime_inj.
Qed.

(** X4. Backups are told apart by the second only. After a backup of a
    target directory, a second backup of it while the clock still shows the
    same second raises [FileExistsError] and changes nothing in the
    filesystem; at two different valid times the two backups go to
    different paths. *)
Theorem backup_existing_files_same_second E target_dir w b w1 :
  target_dir ≠ [] →
  backup_existing_files E target_dir w = Ok (Some b) w1 →
  (clock E (ticks w1) = clock E (ticks w) →
   backup_existing_files E target_dir w1
   = Raise FileExistsError (World (root w1) (S (ticks w1)) (out w1))) ∧
  (valid_datetime (clock E (ticks w)) → valid_datetime (clock E (ticks w1)) →
   clock E (ticks w1) ≠ clock E (ticks w) →
   backup_path target_dir (clock E (ticks w1)) ≠ b).
Proof.
  intros Hnil (-> & wr & es & Hl & Hne & Hp & Hb & _)%backup_Some_inv.
  split.
  - intros Hclock. rewrite backup_existing_files_spec.
    assert (apart (backup_path target_dir (clock E (ticks w))) target_dir) as Hap.
    { rewrite <-(parent_name target_dir) at 2 by done.
      unfold backup_path. apply apart_siblings.
      rewrite <-name_backup_path. apply backup_name_fresh. }
    rewrite (lookup_put_frame _ _ _ _ _ Hp (proj1 Hap) (proj2 Hap)), Hl.
    rewrite decide_False by done. cbv zeta. rewrite Hclock.
    unfold backup_path in Hp.
    destruct (put_Some_inv _ _ _ _ _ Hp) as (pw & pes & _ & ->).
    rewrite name_backup_path. by rewrite lookup_insert_eq.
  - intros H1 H2 Hdiff Heq. apply Hdiff. by eapply backup_path_inj.
Qed.

(** ** The backup taken by [install_to_agent] *)

Lemma AGENT_DIRS_names E agent ct :
  AGENT_DIRS E !! agent = Some ct →
  ∃ base a,
    ct = base </> "commands" ∧
    AGENT_AGENT_DIRS E !! agent = Some (base </> a) ∧
    (a = "agents" ∨ a = "agent") ∧
    AGENT_RULES_DIRS E !! agent = Some (base </> "rules").
Proof.
  unfold AGENT_DIRS, AGENT_AGENT_DIRS, AGENT_RULES_DIRS. simpl.
  destruct (decide (agent = "claude-code")) as [->|H1].
  { rewrite !lookup_insert_eq. intros [= <-].
    exists (home E </> ".claude"), "agents". eauto. }
  rewrite !(lookup_insert_ne _ "claude-code") by done.
  destruct (decide (agent = "opencode")) as [->|H2].
  { rewrite !lookup_insert_eq. intros [= <-].
    exists (home E </> ".config" </> "opencode"), "agent". eauto. }
  rewrite !(lookup_insert_ne _ "opencode") by done.
  destruct (decide (agent = "droid")) as [->|H3].
  { rewrite !lookup_insert_eq. intros [= <-].
    exists (home E </> ".factory"), "agents". eauto. }
  rewrite !(lookup_insert_ne _ "droid") by done.
  by rewrite lookup_empty.
Qed.

(** A run of [install_to_agent] that returns with [success], step by
    step. *)
Lemma install_to_agent_run_inv E agent language w r w' :
  install_to_agent E agent language w = Ok r w' → success r = true →
  ∃ ct at_ rt w1 w2 ci w3 ai w4 ri w5,
    AGENT_DIRS E !! agent = Some ct ∧
    AGENT_AGENT_DIRS E !! agent = Some at_ ∧
    AGENT_RULES_DIRS E !! agent = Some rt ∧
    is_Some (lookup_path (cwd E </> "commands") (root w)) ∧
    create_directories ct at_ rt w = Ok tt w1 ∧
    backup_commands E ct w1 = Ok tt w2 ∧
    copy_commands (cwd E </> "commands") ct w2 = Ok ci w3 ∧
    copy_agents (cwd E </> "agents") at_ language w3 = Ok ai w4 ∧
    copy_rules (cwd E </> "rules") rt w4 = Ok ri w5 ∧
    verify_installation E language ci ai ri w5 = Ok tt w' ∧
    r = mkInstallationResult ci ai ri true [].
Proof.
  unfold install_to_agent, getitem, get_source_dirs, get_script_dir.
  destruct (AGENT_DIRS E !! agent) as [ct|]; [|done]. rewrite bind_ret_l.
  destruct (AGENT_AGENT_DIRS E !! agent) as [at_|]; [|done]. rewrite bind_ret_l.
  destruct (AGENT_RULES_DIRS E !! agent) as [rt|]; [|done]. rewrite bind_ret_l.
  unfold bind at 1, Path_exists at 1.
  case_bool_decide as Hex; simpl.
  - intros ([] & w1 & H1 & H)%bind_Ok_inv. revert H.
    intros ([] & w2 & H2 & H)%bind_Ok_inv. revert H.
    intros (ci & w3 & H3 & H)%bind_Ok_inv. revert H.
    intros (ai & w4 & H4 & H)%bind_Ok_inv. revert H.
    intros (ri & w5 & H5 & H)%bind_Ok_inv. revert H.
    intros ([] & w6 & H6 & [= <- <-])%bind_Ok_inv _.
    exists ct, at_, rt, w1, w2, ci, w3, ai, w4, ri, w5. by split_and!.
  - by intros [= <- <-].
Qed.

Lemma backup_stamp_not_target_name stamp x :
  x = "commands" ∨ x = "agents" ∨ x = "agent" ∨ x = "rules" →
  "commands" +:+ ".backup." +:+ stamp ≠ x.
Proof.
  intros [-> | [-> | [-> | ->] ] ]; by rewrite string_app_cons.
Qed.

(** X5. A successful [install_to_agent] over a commands target that held
    something keeps it: the directory [<commands>.backup.<timestamp>]
    beside the target holds, path for path, the tree the commands target
    held before the call. *)
Theorem install_to_agent_keeps_backup E agent language w ct wr es r w' :
  AGENT_DIRS E !! agent = Some ct →
  lookup_path ct (root w) = Some (Dir wr es) → es ≠ ∅ →
  install_to_agent E agent language w = Ok r w' → success r = true →
  let backup_dir := backup_path ct (clock E (ticks w)) in
  ∀ k, lookup_path (backup_dir ++ k) (root w') = lookup_path (ct ++ k) (root w).
Proof.
  intros Hct Hl Hne Hrun Hs backup_dir.
  destruct (install_to_agent_run_inv _ _ _ _ _ _ Hrun Hs)
    as (ct' & at_ & rt & w1 & w2 & ci & w3 & ai & w4 & ri & w5 &
        Hct' & Hat & Hrt & _ & H1 & H2 & H3 & H4 & H5 & H6 & _).
  assert (ct' = ct) as -> by congruence.
  destruct (AGENT_DIRS_names _ _ _ Hct) as (base & a & -> & Hat' & Ha & Hrt').
  unfold path in *.
  assert (at_ = base </> a) as -> by congruence.
  assert (rt = base </> "rules") as -> by congruence.
  set (ct := base </> "commands") in *.
  (* the targets are made: the commands target keeps its tree *)
  assert (ticks w1 = ticks w) as Ht.
  { pose proof (create_directories_ticks ct (base </> a) (base </> "rules") w) as H.
    by rewrite H1 in H. }
  assert (∀ k, lookup_path (ct ++ k) (root w1) = lookup_path (ct ++ k) (root w))
    as Hkeep.
  { intros k. destruct (create_directories_Ok_inv _ _ _ _ _ H1)
      as (r1 & r2 & Hm1 & Hm2 & Hm3 & _).
    rewrite (mkdirs_existing _ _ _ _ Hl) in Hm1. injection Hm1 as <-.
    assert (∀ x, x ≠ "commands" → ¬ (ct ++ k) `prefix_of` base </> x) as Hoff.
    { intros x Hx Hpre.
      apply (proj1 (apart_siblings base "commands" x ltac:(done))).
      etrans; [|done]. by exists k. }
    rewrite (mkdirs_frame _ _ _ _ Hm3) by (by apply Hoff).
    apply (mkdirs_frame _ _ _ _ Hm2), Hoff. by destruct Ha as [->| ->]. }
  (* the backup is taken *)
  rewrite backup_commands_spec in H2.
  destruct (backup_existing_files E ct _) as [[b|] wb|e wb] eqn:Hb; [| |done].
  2: { destruct (proj1 (backup_None_iff E ct _) (ex_intro _ wb Hb))
         as [Hb'|(n & Hb' & [? ->])];
         rewrite root_add_out, <-(app_nil_r ct), Hkeep, app_nil_r, Hl in Hb';
         simplify_eq. }
  injection H2 as <-.
  apply backup_Some_inv in Hb as (-> & wr' & es' & Hlb & _ & Hp & _ & _ & Hout).
  unfold add_out in Hp, Hlb, Hout, H3. cbn [ticks root out] in Hp, Hlb, Hout, H3.
  rewrite Ht in Hp, H3. fold backup_dir in Hp, H3.
  rewrite <-(app_nil_r ct), Hkeep, app_nil_r, Hl in Hlb. injection Hlb as <- <-.
  (* the copies stay clear of it *)
  assert (∀ x k, x = "commands" ∨ x = "agents" ∨ x = "agent" ∨ x = "rules" →
            apart (base </> x) (backup_dir ++ k)) as Hap.
  { intros x k Hx. apply apart_app_r. unfold backup_dir, backup_path, ct.
    rewrite parent_snoc, name_snoc. apply apart_siblings.
    intros ->. by eapply backup_stamp_not_target_name. }
  intros k.
  pose proof (preserves_verify_installation (backup_dir ++ k) E language
                ci ai ri w5) as P6. rewrite H6 in P6. simpl in P6.
  pose proof (preserves_copy_rules (backup_dir ++ k) (cwd E </> "rules")
                (base </> "rules") (Hap "rules" k ltac:(auto)) w4) as P5.
  rewrite H5 in P5. simpl in P5.
  pose proof (preserves_copy_agents (backup_dir ++ k) (cwd E </> "agents")
                (base </> a) language
                (Hap a k ltac:(destruct Ha as [->| ->]; auto)) w3) as P4.
  rewrite H4 in P4. simpl in P4.
  match type of H3 with
  | copy_commands _ _ ?wx = _ =>
      pose proof (preserves_copy_commands (backup_dir ++ k)
                    (cwd E </> "commands") ct
                    (Hap "commands" k ltac:(auto)) wx) as P3
  end.
  rewrite H3 in P3. simpl in P3.
  rewrite P6, P5, P4, P3, (lookup_put_below _ _ _ _ _ Hp).
  by rewrite <-Hkeep, lookup_path_app, <-(app_nil_r ct), Hkeep, app_nil_r, Hl.
Qed.

(** ** Copying into a target that is ready *)

Lemma elem_of_matching_files_lookup src pattern r sn x d :
  lookup_path src r = Some sn →
  (x, d) ∈ matching_files pattern sn ↔
  fnmatch pattern x = true ∧ lookup_path (src </> x) r = Some (File d).
Proof.
  intros Hl. rewrite elem_of_matching_files, lookup_path_snoc, Hl. simpl.
  destruct sn as [d0|w es].
  - split; [by intros ?%elem_of_nil|by intros [_ ?]].
  - rewrite elem_of_matching. tauto.
Qed.

Lemma elem_of_files_at d r x c :
  (x, c) ∈ files_at d r ↔
  fnmatch "*.md" x = true ∧ lookup_path (d </> x) r = Some (File c).
Proof.
  unfold files_at. destruct (lookup_path d r) as [sn|] eqn:Hl; simpl.
  - by apply elem_of_matching_files_lookup.
  - split; [by intros ?%elem_of_nil|].
    intros [_ H]. by rewrite lookup_path_snoc, Hl in H.
Qed.

Lemma files_at_dec d r x :
  (∃ c, (x, c) ∈ files_at d r) ∨ (∀ c, (x, c) ∉ files_at d r).
Proof.
  destruct (fnmatch "*.md" x) eqn:Hm.
  - destruct (lookup_path (d </> x) r) as [[c|wr es]|] eqn:Hl.
    + left. exists c. by apply elem_of_files_at.
    + right. intros c [_ ?]%elem_of_files_at. congruence.
    + right. intros c [_ ?]%elem_of_files_at. congruence.
  - right. intros c [? _]%elem_of_files_at. congruence.
Qed.

Lemma flat_writable_entry t r n x :
  lookup_path t r = Some n → flat_writable n →
  (∃ c, lookup_path (t </> x) r = Some (File c)) ∨
  lookup_path (t </> x) r = None.
Proof.
  intros Hl (es & -> & Hflat). rewrite lookup_path_snoc, Hl. simpl.
  destruct (es !! x) as [[c|wr es']|] eqn:Hx; [eauto| |eauto].
  by apply Hflat in Hx.
Qed.

(** [copy_files] from a source directory into a ready target that exists:
    it returns the number of matching regular files; the target is ready
    as before, holds each of them, keeps its other entries, and nothing
    apart from the target has changed. *)
Lemma copy_files_into_flat src tgt w n :
  is_Some (lookup_path src (root w)) →
  apart tgt src →
  lookup_path tgt (root w) = Some n → flat_writable n →
  ∃ r',
    copy_files src tgt "*.md" w =
      Ok (length (files_at src (root w))) (with_root r' w) ∧
    (∃ n', lookup_path tgt r' = Some n' ∧ flat_writable n') ∧
    (∀ x c, (x, c) ∈ files_at src (root w) →
       lookup_path (tgt </> x) r' = Some (File c)) ∧
    (∀ x, (∀ c, (x, c) ∉ files_at src (root w)) →
       lookup_path (tgt </> x) r' = lookup_path (tgt </> x) (root w)) ∧
    (∀ q, apart tgt q → lookup_path q r' = lookup_path q (root w)).
Proof.
  intros [sn Hsrc] Hap Htgt Hflat.
  pose proof Hflat as (es & -> & Hfiles).
  assert (files_at src (root w) = matching_files "*.md" sn) as Hfs.
  { unfold files_at. by rewrite Hsrc. }
  destruct (copy_files_Ok src tgt "*.md" w sn (root w) true es)
    as (r' & Hrun & [es' Hdir] & Hcopied & Hframe).
  { done. }
  { apply Hap. }
  { by eapply mkdirs_existing. }
  { done. }
  { intros x c _. destruct (es !! x) as [[c0|wr es0]|] eqn:Hx; [eauto| |eauto].
    by apply Hfiles in Hx. }
  assert (∀ x, (∀ c, (x, c) ∉ files_at src (root w)) →
            lookup_path (tgt </> x) r' = lookup_path (tgt </> x) (root w))
    as Hother.
  { intros x Hx. apply Hframe; [|apply not_prefix_snoc_self].
    intros y c Hy [Heq|Hpre]%prefix_snoc_inv.
    - apply snoc_inj in Heq as [_ ->]. apply (Hx c). by rewrite Hfs.
    - by apply not_prefix_snoc_self in Hpre. }
  exists r'. rewrite Hfs. split_and!; [done| |done|by rewrite <-Hfs|].
  - exists (Dir true es'). split; [done|]. exists es'. split; [done|].
    intros x c Hx.
    assert (lookup_path (tgt </> x) r' = Some c) as Hl.
    { by rewrite lookup_path_snoc, Hdir. }
    destruct (files_at_dec src (root w) x) as [[c0 Hin]|Hout].
    + rewrite Hfs in Hin. rewrite (Hcopied _ _ Hin) in Hl. by simplify_eq.
    + rewrite (Hother _ Hout), lookup_path_snoc, Htgt in Hl. simpl in Hl.
      by apply Hfiles in Hl.
  - intros q Hq. apply Hframe; [|apply Hq].
    intros x c _. by apply apart_not_below.
Qed.

Lemma copy_files_missing_source src tgt pattern w :
  lookup_path src (root w) = None → copy_files src tgt pattern w = Ok 0 w.
Proof.
  intros Hl. unfold copy_files, bind, Path_exists. rewrite Hl.
  by rewrite bool_decide_eq_false_2 by (by intros [? ?]).
Qed.

Lemma copy_files_ready src tgt w n :
  apart tgt src →
  lookup_path tgt (root w) = Some n → flat_writable n →
  ∃ r',
    copy_files src tgt "*.md" w =
      Ok (length (files_at src (root w))) (with_root r' w) ∧
    (∃ n', lookup_path tgt r' = Some n' ∧ flat_writable n') ∧
    (∀ x c, (x, c) ∈ files_at src (root w) →
       lookup_path (tgt </> x) r' = Some (File c)) ∧
    (∀ x, (∀ c, (x, c) ∉ files_at src (root w)) →
       lookup_path (tgt </> x) r' = lookup_path (tgt </> x) (root w)) ∧
    (∀ q, apart tgt q → lookup_path q r' = lookup_path q (root w)).
Proof.
  intros Hap Htgt Hflat.
  destruct (lookup_path src (root w)) as [sn|] eqn:Hsrc.
  - apply (copy_files_into_flat src tgt w n); eauto.
  - exists (root w). rewrite with_root_id. split_and!; [|eauto|..|done|done].
    + rewrite (copy_files_missing_source _ _ _ _ Hsrc).
      unfold files_at. by rewrite Hsrc.
    + intros x c Hx. unfold files_at in Hx. rewrite Hsrc in Hx.
      by apply elem_of_nil in Hx.
Qed.

Lemma copy_commands_ready src tgt w n :
  apart tgt src →
  lookup_path tgt (root w) = Some n → flat_writable n →
  ∃ w',
    copy_commands src tgt w = Ok (length (files_at src (root w))) w' ∧
    (∃ n', lookup_path tgt (root w') = Some n' ∧ flat_writable n') ∧
    (∀ x c, (x, c) ∈ files_at src (root w) →
       lookup_path (tgt </> x) (root w') = Some (File c)) ∧
    (∀ x, (∀ c, (x, c) ∉ files_at src (root w)) →
       lookup_path (tgt </> x) (root w') = lookup_path (tgt </> x) (root w)) ∧
    (∀ q, apart tgt q → lookup_path q (root w') = lookup_path q (root w)).
Proof.
  intros Hap Htgt Hflat.
  destruct (copy_files_ready src tgt (add_out [Task "Copying command files..."] w) n)
    as (r' & Hrun & Hpost); [done..|].
  rewrite root_add_out in Hrun, Hpost.
  eexists. split.
  { unfold copy_commands. unfold bind at 1. rewrite emit_Ok.
    unfold bind at 1. unfold add_out in Hrun. rewrite Hrun.
    unfold bind, show_success, console_print. rewrite !emit_Ok. reflexivity. }
  exact Hpost.
Qed.

Lemma copy_rules_ready src tgt w n :
  apart tgt src →
  lookup_path tgt (root w) = Some n → flat_writable n →
  ∃ w',
    copy_rules src tgt w = Ok (length (files_at src (root w))) w' ∧
    (∃ n', lookup_path tgt (root w') = Some n' ∧ flat_writable n') ∧
    (∀ x c, (x, c) ∈ files_at src (root w) →
       lookup_path (tgt </> x) (root w') = Some (File c)) ∧
    (∀ x, (∀ c, (x, c) ∉ files_at src (root w)) →
       lookup_path (tgt </> x) (root w') = lookup_path (tgt </> x) (root w)) ∧
    (∀ q, apart tgt q → lookup_path q (root w') = lookup_path q (root w)).
Proof.
  intros Hap Htgt Hflat.
  destruct (copy_files_ready src tgt (add_out [Task "Copying rule files..."] w) n)
    as (r' & Hrun & Hpost); [done..|].
  rewrite root_add_out in Hrun, Hpost.
  eexists. split.
  { unfold copy_rules. unfold bind at 1. rewrite emit_Ok.
    unfold bind at 1. unfold add_out in Hrun. rewrite Hrun.
    unfold bind, show_success, console_print. rewrite !emit_Ok. reflexivity. }
  exact Hpost.
Qed.

(** One of the two optional agent directories: copied when it exists. *)
Lemma optional_copy_ready src tgt w n acc (msg : nat → string) :
  apart tgt src →
  lookup_path tgt (root w) = Some n → flat_writable n →
  ∃ w',
    (if bool_decide (is_Some (lookup_path src (root w))) then
       do c <- copy_files src tgt "*.md";
       show_success (msg c) ;;
       ret (acc + c)
     else ret acc) w = Ok (acc + length (files_at src (root w))) w' ∧
    (∃ n', lookup_path tgt (root w') = Some n' ∧ flat_writable n') ∧
    (∀ x c, (x, c) ∈ files_at src (root w) →
       lookup_path (tgt </> x) (root w') = Some (File c)) ∧
    (∀ x, (∀ c, (x, c) ∉ files_at src (root w)) →
       lookup_path (tgt </> x) (root w') = lookup_path (tgt </> x) (root w)) ∧
    (∀ q, apart tgt q → lookup_path q (root w') = lookup_path q (root w)).
Proof.
  intros Hap Htgt Hflat. case_bool_decide as Hex.
  - destruct (copy_files_ready src tgt w n) as (r' & Hrun & Hpost); [done..|].
    eexists. split.
    { unfold bind at 1. rewrite Hrun. unfold bind, show_success.
      rewrite emit_Ok. reflexivity. }
    exact Hpost.
  - exists w. split_and!; [|eauto|..|done|done].
    + unfold files_at. destruct (lookup_path src (root w)); [destruct Hex; eauto|].
      simpl. by rewrite Nat.add_0_r.
    + intros x c Hx. unfold files_at in Hx.
      destruct (lookup_path src (root w)); [destruct Hex; eauto|].
      by apply elem_of_nil in Hx.
Qed.

Lemma index_json_not_md : fnmatch "*.md" "index.json" = false.
Proof. reflexivity. Qed.

Lemma copy_agents_ready agents_dir tgt language w n :
  apart tgt agents_dir →
  lookup_path tgt (root w) = Some n → flat_writable n →
  (lookup_path (agents_dir </> "index.json") (root w) = None ∨
   ∃ reg, lookup_path (agents_dir </> "index.json") (root w) = Some (File reg)) →
  ∃ w',
    copy_agents agents_dir tgt language w =
      Ok (length (files_at (agents_dir </> "shared") (root w)) +
          length (files_at (agents_dir </> language) (root w))) w' ∧
    (∃ n', lookup_path tgt (root w') = Some n' ∧ flat_writable n') ∧
    (∀ x c, (x, c) ∈ files_at (agents_dir </> language) (root w) →
       lookup_path (tgt </> x) (root w') = Some (File c)) ∧
    (∀ x c, (x, c) ∈ files_at (agents_dir </> "shared") (root w) →
       (∀ c', (x, c') ∉ files_at (agents_dir </> language) (root w)) →
       lookup_path (tgt </> x) (root w') = Some (File c)) ∧
    (∀ reg, lookup_path (agents_dir </> "index.json") (root w) = Some (File reg) →
       lookup_path (tgt </> "index.json") (root w') = Some (File reg)) ∧
    (∀ x, (∀ c, (x, c) ∉ files_at (agents_dir </> "shared") (root w)) →
          (∀ c, (x, c) ∉ files_at (agents_dir </> language) (root w)) →
          x ≠ "index.json" →
       lookup_path (tgt </> x) (root w') = lookup_path (tgt </> x) (root w)) ∧
    (∀ q, apart tgt q → lookup_path q (root w') = lookup_path q (root w)).
Proof.
  intros Hap Htgt Hflat Hreg.
  assert (∀ k, apart tgt (agents_dir ++ k)) as Hsrc by (intros k; by apply apart_app_r).
  set (w0 := add_out [Task "Copying agent files..."] w).
  (* shared agents *)
  destruct (optional_copy_ready (agents_dir </> "shared") tgt w0 n 0
              (λ c, "Copied " +:+ pretty c +:+ " shared agents"))
    as (w1 & Hrun1 & (n1 & Htgt1 & Hflat1) & Hin1 & Hout1 & Hfr1); [done..|].
  cbv beta in Hrun1. change (root w0) with (root w) in *.
  (* language agents *)
  destruct (optional_copy_ready (agents_dir </> language) tgt w1 n1
              (0 + length (files_at (agents_dir </> "shared") (root w)))
              (λ c, "Copied " +:+ pretty c +:+ " " +:+ language +:+ " agents"))
    as (w2 & Hrun2 & (n2 & Htgt2 & Hflat2) & Hin2 & Hout2 & Hfr2); [done..|].
  cbv beta in Hrun2.
  assert (∀ d, apart tgt d → files_at d (root w1) = files_at d (root w)) as Hfa1.
  { intros d Hd. unfold files_at. by rewrite Hfr1. }
  rewrite (Hfa1 _ (Hsrc [language])) in Hrun2, Hin2, Hout2.
  (* the registry *)
  assert (lookup_path (agents_dir </> "index.json") (root w2) = lookup_path (agents_dir </> "index.json") (root w)) as Hreg2.
  { rewrite Hfr2, Hfr1; [done|apply Hsrc..]. }
  assert (∃ w3,
    (do e <- Path_exists (agents_dir </> "index.json");
     (if e then
        shutil_copy2 (agents_dir </> "index.json") (tgt </> "index.json") ;;
        show_success "Copied agent registry (index.json)"
      else ret tt)) w2 = Ok tt w3 ∧
    (∃ n', lookup_path tgt (root w3) = Some n' ∧ flat_writable n') ∧
    (∀ reg, lookup_path (agents_dir </> "index.json") (root w) = Some (File reg) →
       lookup_path (tgt </> "index.json") (root w3) = Some (File reg)) ∧
    (∀ q, ¬ q `prefix_of` tgt </> "index.json" →
       lookup_path q (root w3) = lookup_path q (root w2)))
    as (w3 & Hrun3 & Hflat3 & Hreg3 & Hfr3).
  { unfold bind at 1, Path_exists. rewrite Hreg2.
    destruct Hreg as [Hnone|[reg Hsome]].
    - rewrite Hnone. exists w2. rewrite bool_decide_eq_false_2 by (by intros [? ?]).
      split_and!; [done|eauto|by intros ??|done].
    - rewrite Hsome. rewrite bool_decide_eq_true_2 by eauto.
      destruct (shutil_copy2_Ok (agents_dir </> "index.json") (tgt </> "index.json") w2 reg)
        as (r3 & Hp & Hc).
      { by rewrite Hreg2. }
      { intros [Heq _]%snoc_inj. apply (proj1 (Hsrc [])).
        rewrite app_nil_r, Heq. done. }
      { destruct (flat_writable_entry _ _ _ "index.json" Htgt2 Hflat2)
          as [[c Hc]|Hc]; [eauto|]. right. split; [done|].
        rewrite parent_snoc. destruct Hflat2 as (es2 & -> & _). eauto. }
      { by destruct tgt. }
      exists (add_out [Success "Copied agent registry (index.json)"]
                (with_root r3 w2)).
      assert (from_option is_dir_node false
                (lookup_path (tgt </> "index.json") (root w2)) = false) as Hold.
      { by destruct (flat_writable_entry _ _ _ "index.json" Htgt2 Hflat2)
          as [[c ->]| ->]. }
      split_and!.
      + unfold bind at 1. rewrite Hc. unfold show_success. by rewrite emit_Ok.
      + destruct (put_Some_inv _ _ _ _ _ Hp) as (wr & es & Hl & Hl').
        rewrite Htgt2 in Hl. destruct Hflat2 as (es2 & -> & Hfiles2).
        simplify_eq. eexists. split; [exact Hl'|]. eexists. split; [done|].
        intros x c [[<- <-]|[_ Hx]]%lookup_insert_Some; [done|by eapply Hfiles2].
      + intros reg' Hreg'. simplify_eq.
        by apply (lookup_put_eq _ _ _ _ Hp).
      + intros q Hq. by apply (put_file_frame _ _ _ _ _ Hp Hold). }
  exists (add_out [Print ""] w3). rewrite root_add_out. split_and!.
  - unfold copy_agents. unfold bind at 1. rewrite emit_Ok.
    change (World (root w) (ticks w) (out w ++ [Task "Copying agent files..."]))
      with w0.
    unfold bind at 1, Path_exists at 1. unfold bind at 1.
    change (root w0) with (root w). rewrite Hrun1.
    unfold bind at 1, Path_exists at 1. unfold bind at 1. rewrite Hrun2.
    unfold bind at 1, Path_exists at 1 in Hrun3.
    unfold bind at 1, Path_exists at 1. unfold bind at 1.
    rewrite Hrun3. unfold bind, console_print. by rewrite emit_Ok.
  - done.
  - intros x c Hx. rewrite Hfr3.
    + by apply Hin2.
    + intros [Heq|Hpre]%prefix_snoc_inv; [|by apply not_prefix_snoc_self in Hpre].
      apply snoc_inj in Heq as [_ ->].
      apply elem_of_files_at in Hx as [Hm _]. by rewrite index_json_not_md in Hm.
  - intros x c Hx Hnot. rewrite Hfr3.
    + rewrite (Hout2 _ Hnot). by apply Hin1.
    + intros [Heq|Hpre]%prefix_snoc_inv; [|by apply not_prefix_snoc_self in Hpre].
      apply snoc_inj in Heq as [_ ->].
      apply elem_of_files_at in Hx as [Hm _]. by rewrite index_json_not_md in Hm.
  - done.
  - intros x Hs Hl Hx. rewrite Hfr3.
    + rewrite (Hout2 _ Hl). by apply Hout1.
    + intros [Heq|Hpre]%prefix_snoc_inv; [|by apply not_prefix_snoc_self in Hpre].
      by apply snoc_inj in Heq as [_ ->].
  - intros q Hq. rewrite Hfr3, Hfr2, Hfr1; [done..|].
    intros [Heq|Hpre]%prefix_snoc_inv; [|by apply Hq].
    apply (proj1 Hq). rewrite Heq. by exists ["index.json"].
Qed.

(** ** Installing into ready targets *)

Lemma flat_writable_empty : flat_writable (Dir true ∅).
Proof. exists ∅. split; [done|]. intros x c. by rewrite lookup_empty. Qed.

Lemma ready_target_mkdirs t r :
  ready_target t r →
  ∃ r' n,
    mkdirs t r = Some r' ∧ lookup_path t r' = Some n ∧ flat_writable n ∧
    (lookup_path t r = None → n = Dir true ∅) ∧
    (∀ m, lookup_path t r = Some m → n = m ∧ r' = r).
Proof.
  intros [[r' Hm] [Hl|(n & Hl & Hflat)]].
  - exists r', (Dir true ∅). split_and!; [done| |apply flat_writable_empty|done|].
    + by apply (mkdirs_fresh _ _ _ Hm).
    + intros m Hm'. congruence.
  - destruct Hflat as (es & -> & Hflat).
    rewrite (mkdirs_existing _ _ _ _ Hl) in Hm. simplify_eq.
    exists r', (Dir true es). split_and!; [by eapply mkdirs_existing|done| | |].
    + by exists es.
    + intros ?. congruence.
    + intros m Hm'. split; congruence.
Qed.

Lemma ready_target_preserved t p r r' :
  ready_target t r → mkdirs p r = Some r' → apart p t → ready_target t r'.
Proof.
  intros [Hm Hl] Hp Hapart. split.
  - by eapply mkdirs_mono.
  - by rewrite (mkdirs_apart _ _ _ _ Hp Hapart).
Qed.

(** The three targets, pairwise apart and ready, are made: each is then a
    writable directory of regular files, the one it was or an empty one. *)
Lemma create_directories_ready ct at_ rt w :
  apart ct at_ → apart ct rt → apart at_ rt →
  ready_target ct (root w) → ready_target at_ (root w) → ready_target rt (root w) →
  ∃ w1,
    create_directories ct at_ rt w = Ok tt w1 ∧ ticks w1 = ticks w ∧
    (∀ t, t = ct ∨ t = at_ ∨ t = rt →
       ∃ n, lookup_path t (root w1) = Some n ∧ flat_writable n ∧
            (lookup_path t (root w) = None → n = Dir true ∅) ∧
            (∀ m, lookup_path t (root w) = Some m → n = m)) ∧
    (∀ q, ¬ q `prefix_of` ct → ¬ q `prefix_of` at_ → ¬ q `prefix_of` rt →
       lookup_path q (root w1) = lookup_path q (root w)).
Proof.
  intros Hca Hcr Har Hc Ha Hr.
  destruct (ready_target_mkdirs _ _ Hc) as (r1 & n1 & Hm1 & Hl1 & Hf1 & Hn1 & Hs1).
  pose proof (ready_target_preserved _ _ _ _ Ha Hm1 Hca) as Ha1.
  pose proof (ready_target_preserved _ _ _ _ Hr Hm1 Hcr) as Hr1.
  destruct (ready_target_mkdirs _ _ Ha1) as (r2 & n2 & Hm2 & Hl2 & Hf2 & Hn2 & Hs2).
  pose proof (ready_target_preserved _ _ _ _ Hr1 Hm2 Har) as Hr2.
  destruct (ready_target_mkdirs _ _ Hr2) as (r3 & n3 & Hm3 & Hl3 & Hf3 & Hn3 & Hs3).
  eexists. split; [by apply (create_directories_Ok _ _ _ _ r1 r2 r3)|].
  rewrite root_add_out, root_with_root. split; [done|]. split.
  - intros t [-> | [-> | ->] ].
    + exists n1. split_and!.
      * rewrite (mkdirs_apart _ _ _ _ Hm3 (apart_sym _ _ Hcr)).
        by rewrite (mkdirs_apart _ _ _ _ Hm2 (apart_sym _ _ Hca)).
      * done.
      * done.
      * intros m Hm. by apply Hs1.
    + exists n2. split_and!.
      * by rewrite (mkdirs_apart _ _ _ _ Hm3 (apart_sym _ _ Har)).
      * done.
      * intros Hn. apply Hn2. by rewrite (mkdirs_apart _ _ _ _ Hm1 Hca).
      * intros m Hm. apply Hs2. by rewrite (mkdirs_apart _ _ _ _ Hm1 Hca).
    + exists n3. split_and!; [done..| |].
      * intros Hn. apply Hn3. rewrite (mkdirs_apart _ _ _ _ Hm2 Har).
        by rewrite (mkdirs_apart _ _ _ _ Hm1 Hcr).
      * intros m Hm. apply Hs3. rewrite (mkdirs_apart _ _ _ _ Hm2 Har).
        by rewrite (mkdirs_apart _ _ _ _ Hm1 Hcr).
  - intros q Hqc Hqa Hqr.
    rewrite (mkdirs_frame _ _ _ _ Hm3 Hqr), (mkdirs_frame _ _ _ _ Hm2 Hqa).
    by apply (mkdirs_frame _ _ _ _ Hm1).
Qed.

(** The backup stage over a ready commands target: nothing is raised when
    the target is empty, or when its parent is writable and the backup's
    name is free; the target is left as it was. *)
Lemma backup_commands_ready E ct w n :
  ct ≠ [] →
  lookup_path ct (root w) = Some n → flat_writable n →
  (empty_dir n ∨
   ∃ pes, lookup_path (parent ct) (root w) = Some (Dir true pes) ∧
          lookup_path (backup_path ct (clock E (ticks w))) (root w) = None) →
  ∃ w2,
    backup_commands E ct w = Ok tt w2 ∧
    lookup_path ct (root w2) = Some n ∧
    (∀ q, apart (backup_path ct (clock E (ticks w))) q →
       lookup_path q (root w2) = lookup_path q (root w)).
Proof.
  intros Hne Hl Hflat Hcase.
  assert (∃ w2, backup_commands E ct w = Ok tt w2) as [w2 Hrun].
  { rewrite backup_commands_spec. set (w0 := add_out _ w).
    destruct Hflat as (es & -> & _).
    destruct (decide (es = ∅)) as [->|Hes].
    - destruct (proj2 (backup_None_iff E ct w0)) as [w' ->]; [|eauto].
      right. exists (Dir true ∅). split; [done|by exists true].
    - destruct Hcase as [[wr Heq]|(pes & Hp & Hb)]; [congruence|].
      destruct (backup_Some_intro E ct w0 true es pes) as [w' ->]; [done..| |eauto].
      change (ticks w0) with (ticks w).
      unfold backup_path in *. rewrite name_snoc.
      by rewrite lookup_path_snoc, Hp in Hb. }
  assert (∀ q, apart (backup_path ct (clock E (ticks w))) q →
            lookup_path q (root w2) = lookup_path q (root w)) as Hframe.
  { intros q Hq. pose proof (backup_commands_frame E ct q w Hq) as Hfr.
    by rewrite Hrun in Hfr. }
  exists w2. split_and!; [done| |done].
  rewrite Hframe; [done|].
  destruct (path_snoc_inv ct) as [->|(b0 & c & ->)]; [done|].
  unfold backup_path. rewrite parent_snoc, name_snoc.
  apply apart_siblings. intros H%string_app_self.
  by rewrite string_app_cons in H.
Qed.

(** A run of [install_to_agent] over ready targets, stage by stage: the
    counts, what is copied where (a language agent after a shared agent
    of the same name), and what is kept. *)
Lemma ready_install_run E agent language w ct at_ rt :
  AGENT_DIRS E !! agent = Some ct →
  AGENT_AGENT_DIRS E !! agent = Some at_ →
  AGENT_RULES_DIRS E !! agent = Some rt →
  is_Some (lookup_path (cwd E </> "commands") (root w)) →
  apart (parent ct) (cwd E) →
  ready_target ct (root w) → ready_target at_ (root w) → ready_target rt (root w) →
  can_back_up E ct w →
  (lookup_path (cwd E </> "agents" </> "index.json") (root w) = None ∨
   ∃ reg, lookup_path (cwd E </> "agents" </> "index.json") (root w) = Some (File reg)) →
  ∃ w',
    install_to_agent E agent language w =
      Ok (mkInstallationResult
            (length (files_at (cwd E </> "commands") (root w)))
            (length (files_at (cwd E </> "agents" </> "shared") (root w)) +
             length (files_at (cwd E </> "agents" </> language) (root w)))
            (length (files_at (cwd E </> "rules") (root w)))
            true []) w' ∧
    (∀ x c, (x, c) ∈ files_at (cwd E </> "commands") (root w) →
       lookup_path (ct </> x) (root w') = Some (File c)) ∧
    (∀ x c, (x, c) ∈ files_at (cwd E </> "agents" </> language) (root w) →
       lookup_path (at_ </> x) (root w') = Some (File c)) ∧
    (∀ x c, (x, c) ∈ files_at (cwd E </> "agents" </> "shared") (root w) →
       (∀ c', (x, c') ∉ files_at (cwd E </> "agents" </> language) (root w)) →
       lookup_path (at_ </> x) (root w') = Some (File c)) ∧
    (∀ reg, lookup_path (cwd E </> "agents" </> "index.json") (root w) = Some (File reg) →
       lookup_path (at_ </> "index.json") (root w') = Some (File reg)) ∧
    (∀ x c, (x, c) ∈ files_at (cwd E </> "rules") (root w) →
       lookup_path (rt </> x) (root w') = Some (File c)) ∧
    (∀ x, (∀ c, (x, c) ∉ files_at (cwd E </> "commands") (root w)) →
       lookup_path (ct </> x) (root w') = lookup_path (ct </> x) (root w)) ∧
    (∀ x, (∀ c, (x, c) ∉ files_at (cwd E </> "agents" </> "shared") (root w)) →
          (∀ c, (x, c) ∉ files_at (cwd E </> "agents" </> language) (root w)) →
          x ≠ "index.json" →
       lookup_path (at_ </> x) (root w') = lookup_path (at_ </> x) (root w)) ∧
    (∀ x, (∀ c, (x, c) ∉ files_at (cwd E </> "rules") (root w)) →
       lookup_path (rt </> x) (root w') = lookup_path (rt </> x) (root w)).
Proof.
  intros Hct Hat Hrt Hcmd Hbase Hrc Hra Hrr Hbk Hreg.
  destruct (AGENT_DIRS_names _ _ _ Hct) as (base & a & -> & Hat' & Ha & Hrt').
  assert (at_ = base </> a) as -> by (unfold path in *; congruence).
  assert (rt = base </> "rules") as -> by (unfold path in *; congruence).
  clear Hat Hrt.
  rewrite parent_snoc in Hbase.
  set (ct := base </> "commands") in *.
  set (at_ := base </> a) in *.
  set (rt := base </> "rules") in *.
  assert (apart ct at_) as Hca by (apply apart_siblings; by destruct Ha as [->| ->]).
  assert (apart ct rt) as Hcr by by apply apart_siblings.
  assert (apart at_ rt) as Har by (apply apart_siblings; by destruct Ha as [->| ->]).
  assert (∀ x k, apart (base </> x) (cwd E ++ k)) as Hsrc.
  { intros x k. by apply apart_app_r, apart_child. }
  (* the directories *)
  destruct (create_directories_ready ct at_ rt w) as (w1 & H1 & Ht1 & Hmade & Hfr1);
    [done..|].
  destruct (Hmade ct) as (nc & Hlc & Hfc & Hnc & Hsc); [by left|].
  destruct (Hmade at_) as (na & Hla & Hfa & Hna & Hsa); [by right; left|].
  destruct (Hmade rt) as (nr & Hlr & Hfr & Hnr & Hsr); [by right; right|].
  assert (∀ t x, t = ct ∨ t = at_ ∨ t = rt →
            lookup_path (t </> x) (root w1) = lookup_path (t </> x) (root w)) as Hin1.
  { intros t x Ht. destruct (Hmade t Ht) as (n & Hl & _ & Hn & Hs).
    rewrite !lookup_path_snoc, Hl.
    destruct (lookup_path t (root w)) as [m|] eqn:Hm.
    - by rewrite (Hs m).
    - rewrite Hn by done. simpl. by rewrite lookup_empty. }
  assert (∀ k, lookup_path (cwd E ++ k) (root w1) = lookup_path (cwd E ++ k) (root w))
    as Hs1.
  { intros k. apply Hfr1; apply (apart_sym _ _ (Hsrc _ k)). }
  (* the backup *)
  set (b := backup_path ct (clock E (ticks w))) in *.
  assert (∀ x k, x = "commands" ∨ x = "agents" ∨ x = "agent" ∨ x = "rules" →
            apart b ((base </> x) ++ k)) as Hbt.
  { intros x k Hx. apply apart_app_r. unfold b, backup_path, ct.
    rewrite parent_snoc, name_snoc. apply apart_siblings.
    by apply backup_stamp_not_target_name. }
  assert (∀ k, apart b (cwd E ++ k)) as Hbs.
  { intros k. unfold b, backup_path, ct. rewrite parent_snoc. apply Hsrc. }
  assert (a = "commands" ∨ a = "agents" ∨ a = "agent" ∨ a = "rules") as Ha'
    by (destruct Ha; auto).
  destruct (backup_commands_ready E ct w1 nc) as (w2 & H2 & Hlc2 & Hfr2);
    [unfold ct; by destruct base|done|done| |].
  { destruct Hbk as [Hnone|[(m & Hm & Hem)|(pes & Hp & Hfree)] ].
    - left. rewrite (Hnc Hnone). by exists true.
    - left. by rewrite (Hsc m Hm).
    - right. rewrite Ht1. fold b.
      apply create_directories_Ok_inv in H1 as (r1 & r2 & Hm1 & Hm2 & Hm3 & _).
      destruct (mkdirs_keeps_dir _ _ _ _ _ _ Hm1 Hp) as [es1 Hp1].
      destruct (mkdirs_keeps_dir _ _ _ _ _ _ Hm2 Hp1) as [es2 Hp2].
      destruct (mkdirs_keeps_dir _ _ _ _ _ _ Hm3 Hp2) as [es3 Hp3].
      exists es3. split; [done|].
      rewrite <-Hfree.
      rewrite <-(app_nil_r ct), <-(app_nil_r at_), <-(app_nil_r rt) in Hfr1.
      apply Hfr1; apply Hbt; auto. }
  rewrite Ht1 in Hfr2. fold b in Hfr2.
  (* the commands *)
  destruct (copy_commands_ready (cwd E </> "commands") ct w2 nc)
    as (w3 & H3 & (nc3 & Hlc3 & Hfc3) & Hin3 & Hout3 & Hfr3); [apply Hsrc|done..|].
  (* the agents *)
  assert (lookup_path at_ (root w3) = Some na) as Hla3.
  { rewrite Hfr3 by done. rewrite Hfr2; [done|].
    rewrite <-(app_nil_r at_). by apply Hbt. }
  assert (∀ k, lookup_path (cwd E ++ k) (root w3) = lookup_path (cwd E ++ k) (root w))
    as Hs3.
  { intros k. rewrite Hfr3 by apply Hsrc. rewrite Hfr2 by apply Hbs. apply Hs1. }
  destruct (copy_agents_ready (cwd E </> "agents") at_ language w3 na)
    as (w4 & H4 & (na4 & Hla4 & Hfa4) & Hlang4 & Hshared4 & Hreg4 & Hout4 & Hfr4);
    [apply Hsrc|done..| |].
  { unfold path in *. rewrite <-!(assoc_L (++)), Hs3, !(assoc_L (++)). done. }
  (* the rules *)
  assert (lookup_path rt (root w4) = Some nr) as Hlr4.
  { rewrite Hfr4 by done. rewrite Hfr3 by done. rewrite Hfr2; [done|].
    rewrite <-(app_nil_r rt). apply Hbt. auto. }
  destruct (copy_rules_ready (cwd E </> "rules") rt w4 nr)
    as (w5 & H5 & (nr5 & Hlr5 & Hfr5') & Hin5 & Hout5 & Hfr5); [apply Hsrc|done..|].
  (* the sources, as the stages saw them *)
  assert (∀ d, cwd E `prefix_of` d →
            files_at d (root w2) = files_at d (root w)) as Hf2.
  { intros d [k ->]. unfold files_at. rewrite Hfr2 by apply Hbs. by rewrite Hs1. }
  assert (∀ d, cwd E `prefix_of` d →
            files_at d (root w3) = files_at d (root w)) as Hf3.
  { intros d [k ->]. unfold files_at. by rewrite Hs3. }
  assert (∀ d, cwd E `prefix_of` d →
            files_at d (root w4) = files_at d (root w)) as Hf4.
  { intros d [k ->]. unfold files_at. rewrite Hfr4 by apply Hsrc. by rewrite Hs3. }
  assert (∀ x, cwd E `prefix_of` cwd E </> x) as Hp1 by (intros x; by apply prefix_app_r).
  assert (∀ x y, cwd E `prefix_of` cwd E </> x </> y) as Hp2
    by (intros x y; by do 2 apply prefix_app_r).
  rewrite (Hf2 _ (Hp1 "commands")) in H3, Hin3, Hout3.
  rewrite (Hf3 _ (Hp2 "agents" "shared")) in H4, Hshared4, Hout4.
  rewrite (Hf3 _ (Hp2 "agents" language)) in H4, Hlang4, Hshared4, Hout4.
  assert (lookup_path (cwd E </> "agents" </> "index.json") (root w3) =
          lookup_path (cwd E </> "agents" </> "index.json") (root w)) as Hreg3.
  { unfold path in *. rewrite <-!(assoc_L (++)). apply Hs3. }
  rewrite Hreg3 in Hreg4.
  rewrite (Hf4 _ (Hp1 "rules")) in H5, Hin5, Hout5.
  (* the run *)
  eexists. split.
  { unfold install_to_agent, getitem, get_source_dirs, get_script_dir.
    unfold path in *.
    rewrite Hct, bind_ret_l, Hat', bind_ret_l, Hrt', bind_ret_l.
    unfold bind at 1, Path_exists at 1.
    rewrite bool_decide_eq_true_2 by done. cbn [negb].
    rewrite (bind_Ok _ _ _ _ _ H1), (bind_Ok _ _ _ _ _ H2), (bind_Ok _ _ _ _ _ H3),
      (bind_Ok _ _ _ _ _ H4), (bind_Ok _ _ _ _ _ H5).
    unfold bind at 1. rewrite verify_installation_spec. reflexivity. }
  cbn [root].
  assert (∀ t y, apart t (base </> y) → ∀ x, apart t (base </> y </> x)) as Hch.
  { intros t y Hty x. by apply apart_app_r. }
  split_and!.
  - intros x c Hx. rewrite Hfr5, Hfr4; [by apply Hin3| |];
      apply Hch; by apply apart_sym.
  - intros x c Hx. rewrite Hfr5; [by apply Hlang4|]. apply Hch. by apply apart_sym.
  - intros x c Hx Hno. rewrite Hfr5; [by apply Hshared4|]. apply Hch. by apply apart_sym.
  - intros reg Hr. rewrite Hfr5; [by apply Hreg4|]. apply Hch. by apply apart_sym.
  - done.
  - intros x Hx. rewrite Hfr5, Hfr4 by (apply Hch; by apply apart_sym).
    rewrite Hout3 by done. rewrite Hfr2 by (apply Hbt; auto).
    apply Hin1. by left.
  - intros x Hx1 Hx2 Hx3. rewrite Hfr5 by (apply Hch; by apply apart_sym).
    rewrite Hout4 by done. rewrite Hfr3 by by apply Hch.
    rewrite Hfr2 by (apply Hbt; auto). apply Hin1. by right; left.
  - intros x Hx. rewrite Hout5 by done. rewrite Hfr4, Hfr3 by by apply Hch.
    rewrite Hfr2 by (apply Hbt; auto). apply Hin1. by right; right.
Qed.

Lemma open_target_ready t r : open_target t r → ready_target t r.
Proof.
  intros [Hnew|(n & Hl & Hflat)].
  - apply can_create_mkdirs in Hnew as (Hnone & r1 & Hmk & _).
    split; [eauto|by left].
  - destruct Hflat as (es & -> & Hflat). split.
    + rewrite (mkdirs_existing _ _ _ _ Hl). eauto.
    + right. exists (Dir true es). split; [done|by exists es].
Qed.

(** X6. A first installation succeeds. Take a language of
    [SUPPORTED_LANGUAGES] and an agent of the tables whose configuration
    root lies apart from the working directory; let the checkout hold
    [commands], and [agents/index.json] be a regular file or absent; let
    each target be absent and creatable, or a writable directory of
    regular files; let no target hold an entry under a name that is to be
    written, and no shared agent have the name of a language agent, so
    that nothing is overwritten; let the backup of the commands target be
    possible. Then [install_to_agent] returns [success] with no errors; it
    reports the number of regular files matching [*.md] in [commands], in
    [agents/shared] plus [agents/<language>], and in [rules]; every such
    file is in its target with the contents of the checkout, the registry
    is in the agents target, and every other entry of a target is as it
    was. *)
Theorem install_to_agent_ready E agent language w ct at_ rt :
  language ∈ SUPPORTED_LANGUAGES →
  AGENT_DIRS E !! agent = Some ct →
  AGENT_AGENT_DIRS E !! agent = Some at_ →
  AGENT_RULES_DIRS E !! agent = Some rt →
  is_Some (lookup_path (cwd E </> "commands") (root w)) →
  apart (parent ct) (cwd E) →
  open_target ct (root w) → open_target at_ (root w) → open_target rt (root w) →
  free_of ct (cwd E </> "commands") (root w) →
  free_of at_ (cwd E </> "agents" </> "shared") (root w) →
  free_of at_ (cwd E </> "agents" </> language) (root w) →
  free_of rt (cwd E </> "rules") (root w) →
  lookup_path (at_ </> "index.json") (root w) = None →
  (∀ x c c', (x, c) ∈ files_at (cwd E </> "agents" </> "shared") (root w) →
             (x, c') ∉ files_at (cwd E </> "agents" </> language) (root w)) →
  can_back_up E ct w →
  (lookup_path (cwd E </> "agents" </> "index.json") (root w) = None ∨
   ∃ reg, lookup_path (cwd E </> "agents" </> "index.json") (root w) = Some (File reg)) →
  ∃ w',
    install_to_agent E agent language w =
      Ok (mkInstallationResult
            (length (files_at (cwd E </> "commands") (root w)))
            (length (files_at (cwd E </> "agents" </> "shared") (root w)) +
             length (files_at (cwd E </> "agents" </> language) (root w)))
            (length (files_at (cwd E </> "rules") (root w)))
            true []) w' ∧
    (∀ x c, (x, c) ∈ files_at (cwd E </> "commands") (root w) →
       lookup_path (ct </> x) (root w') = Some (File c)) ∧
    (∀ x c, (x, c) ∈ files_at (cwd E </> "agents" </> "shared") (root w) →
       lookup_path (at_ </> x) (root w') = Some (File c)) ∧
    (∀ x c, (x, c) ∈ files_at (cwd E </> "agents" </> language) (root w) →
       lookup_path (at_ </> x) (root w') = Some (File c)) ∧
    (∀ reg, lookup_path (cwd E </> "agents" </> "index.json") (root w) = Some (File reg) →
       lookup_path (at_ </> "index.json") (root w') = Some (File reg)) ∧
    (∀ x c, (x, c) ∈ files_at (cwd E </> "rules") (root w) →
       lookup_path (rt </> x) (root w') = Some (File c)) ∧
    (∀ x, (∀ c, (x, c) ∉ files_at (cwd E </> "commands") (root w)) →
       lookup_path (ct </> x) (root w') = lookup_path (ct </> x) (root w)) ∧
    (∀ x, (∀ c, (x, c) ∉ files_at (cwd E </> "agents" </> "shared") (root w)) →
          (∀ c, (x, c) ∉ files_at (cwd E </> "agents" </> language) (root w)) →
          x ≠ "index.json" →
       lookup_path (at_ </> x) (root w') = lookup_path (at_ </> x) (root w)) ∧
    (∀ x, (∀ c, (x, c) ∉ files_at (cwd E </> "rules") (root w)) →
       lookup_path (rt </> x) (root w') = lookup_path (rt </> x) (root w)).
Proof.
  intros _ Hct Hat Hrt Hcmd Hbase Hoc Hoa Hor _ _ _ _ _ Hdisj Hbk Hreg.
  destruct (ready_install_run E agent language w ct at_ rt)
    as (w' & Hrun & Hc & Hlang & Hshared & Hregc & Hr & Hkc & Hka & Hkr);
    [done..|by apply open_target_ready|by apply open_target_ready|
     by apply open_target_ready|done|done|].
  exists w'. split_and!; [done|done| |done..].
  intros x c Hx. apply (Hshared x c Hx). intros c'. by apply (Hdisj x c c').
Qed.

(** ** What a call can raise *)

Lemma raises_only_ret {A} P (a : A) : raises_only P (ret a).
Proof. by intros w e w'. Qed.

Lemma raises_only_raise {A} (P : exn → Prop) e : P e → raises_only P (raise (A := A) e).
Proof. intros He w e' w' [= <- _]. done. Qed.

Lemma raises_only_emit P ev : raises_only P (emit ev).
Proof. by intros w e w'. Qed.

Lemma raises_only_bind {A B} P (c : M A) (k : A → M B) :
  raises_only P c → (∀ a, raises_only P (k a)) → raises_only P (bind c k).
Proof.
  intros Hc Hk w e w' [H|(a & w1 & _ & H)]%bind_Raise_inv.
  - by eapply Hc.
  - by eapply Hk.
Qed.

Lemma raises_only_try_catch {A} P (c : M A) (h : exn → M A) :
  (∀ e, raises_only P (h e)) → raises_only P (try_catch c h).
Proof.
  intros Hh w e w'. unfold try_catch.
  destruct (c w) as [a w1|e1 w1]; [done|]. apply Hh.
Qed.

Lemma raises_only_for_each {A S} P (l : list A) (body : A → S → M S) :
  (∀ x acc, raises_only P (body x acc)) → ∀ acc, raises_only P (for_each l acc body).
Proof.
  intros Hb. induction l as [|x l IH]; intros acc; simpl.
  - apply raises_only_ret.
  - apply raises_only_bind; [apply Hb|done].
Qed.

Lemma OSError_resolve_error p r : OSError (resolve_error p r) = true.
Proof. by destruct (resolve_error_cases p r) as [-> | ->]. Qed.

Lemma raises_only_Path_exists P p : raises_only P (Path_exists p).
Proof. by intros w e w'. Qed.

Lemma raises_only_Path_is_dir P p : raises_only P (Path_is_dir p).
Proof. by intros w e w'. Qed.

Lemma raises_only_Path_is_file P p : raises_only P (Path_is_file p).
Proof. by intros w e w'. Qed.

Lemma raises_only_Path_glob P p pattern : raises_only P (Path_glob p pattern).
Proof. by intros w e w'. Qed.

Lemma raises_only_Path_iterdir p : raises_only (λ e, OSError e = true) (Path_iterdir p).
Proof.
  intros w e w'. unfold Path_iterdir.
  destruct (lookup_path p (root w)) as [ [d|wr es]|]; intros [= <- _];
    [done|apply OSError_resolve_error].
Qed.

Lemma raises_only_os_mkdir p : raises_only (λ e, OSError e = true) (os_mkdir p).
Proof.
  intros w e w'. unfold os_mkdir.
  destruct (lookup_path p (root w)); [by intros [= <- _]|].
  destruct (lookup_path (parent p) (root w)) as [ [d|[] es]|].
  - by intros [= <- _].
  - destruct (put p _ _); [done|by intros [= <- _]].
  - by intros [= <- _].
  - intros [= <- _]. apply OSError_resolve_error.
Qed.

(** A handler that re-raises what it caught, or returns. *)
Lemma raises_only_reraise p exist_ok e :
  OSError e = true →
  raises_only (λ e, OSError e = true)
    (do d <- Path_is_dir p; if negb exist_ok || negb d then raise e else ret tt).
Proof.
  intros He. apply raises_only_bind; [apply raises_only_Path_is_dir|].
  intros d. destruct (negb exist_ok || negb d);
    [by apply raises_only_raise|apply raises_only_ret].
Qed.

Lemma try_catch_Raise_inv {A} (c : M A) (h : exn → M A) w e w' :
  try_catch c h w = Raise e w' → ∃ e1 w1, c w = Raise e1 w1 ∧ h e1 w1 = Raise e w'.
Proof. unfold try_catch. destruct (c w) as [a w1|e1 w1]; [done|eauto]. Qed.

Lemma raises_only_Path_mkdir_single p exist_ok :
  raises_only (λ e, OSError e = true) (Path_mkdir_single p exist_ok).
Proof.
  intros w e w' (e1 & w1 & H1 & H2)%try_catch_Raise_inv.
  apply raises_only_os_mkdir in H1.
  destruct e1; try (by eapply (raises_only_reraise p exist_ok) in H2).
  by injection H2 as <- _.
Qed.

Lemma raises_only_Path_mkdir_rev rp : ∀ exist_ok,
  raises_only (λ e, OSError e = true) (Path_mkdir_rev rp exist_ok).
Proof.
  induction rp as [|x rp IH]; intros exist_ok w e w';
    intros (e1 & w1 & H1 & H2)%try_catch_Raise_inv;
    apply raises_only_os_mkdir in H1;
    destruct e1; try (by eapply (raises_only_reraise _ exist_ok) in H2).
  - by injection H2 as <- _.
  - apply bind_Raise_inv in H2 as [H2|(a & w2 & _ & H2)];
      [by eapply IH|by eapply raises_only_Path_mkdir_single].
Qed.

Lemma raises_only_Path_mkdir p : raises_only (λ e, OSError e = true) (Path_mkdir p).
Proof. apply raises_only_Path_mkdir_rev. Qed.

Lemma raises_only_os_makedirs_rev rp :
  raises_only (λ e, OSError e = true) (os_makedirs_rev rp).
Proof.
  induction rp as [|x rp IH]; simpl; [apply raises_only_os_mkdir|].
  apply raises_only_bind; [apply raises_only_Path_exists|]. intros ex.
  apply raises_only_bind; [|intros _; apply raises_only_os_mkdir].
  destruct ex; [apply raises_only_ret|].
  intros w e w' (e1 & w1 & H1 & H2)%try_catch_Raise_inv.
  apply IH in H1. destruct e1; try done; by injection H2 as <- _.
Qed.

Lemma raises_only_shutil_copy2 src dst :
  raises_only (λ e, OSError e = true) (shutil_copy2 src dst).
Proof.
  apply raises_only_bind; [apply raises_only_Path_is_dir|]. intros d w e w'.
  cbv beta zeta.
  destruct (_ && _); [by intros [= <- _]|].
  destruct (lookup_path src (root w)) as [ [data|wr es]|].
  - destruct (lookup_path _ (root w)) as [ [d0|wr es]|].
    + destruct (put _ _ _); [done|by intros [= <- _]].
    + by intros [= <- _].
    + destruct (lookup_path _ (root w)) as [ [d0|[] es]|].
      * by intros [= <- _].
      * destruct (put _ _ _); [done|by intros [= <- _]].
      * by intros [= <- _].
      * intros [= <- _]. apply OSError_resolve_error.
  - by intros [= <- _].
  - intros [= <- _]. apply OSError_resolve_error.
Qed.

Lemma raises_only_shutil_copytree src dst :
  raises_only (λ e, OSError e = true) (shutil_copytree src dst).
Proof.
  intros w e w'. unfold shutil_copytree.
  destruct (lookup_path src (root w)) as [ [data|wr es]|].
  - by intros [= <- _].
  - intros [H|(a & w1 & _ & H)]%bind_Raise_inv.
    + by eapply raises_only_os_makedirs_rev.
    + destruct (put _ _ _); [done|by injection H as <- _].
  - intros [= <- _]. apply OSError_resolve_error.
Qed.

Lemma raises_only_backup_existing_files E target_dir :
  raises_only (λ e, OSError e = true) (backup_existing_files E target_dir).
Proof.
  unfold backup_existing_files.
  apply raises_only_bind; [apply raises_only_Path_exists|]. intros ex.
  apply raises_only_bind.
  { destruct (negb ex); [apply raises_only_ret|].
    apply raises_only_bind; [apply raises_only_Path_iterdir|].
    intros l. apply raises_only_ret. }
  intros [|]; [apply raises_only_ret|].
  apply raises_only_bind; [by intros w e w'|]. intros now.
  apply raises_only_bind; [apply raises_only_shutil_copytree|].
  intros _. apply raises_only_ret.
Qed.

Lemma raises_only_copy_files source_dir target_dir pattern :
  raises_only (λ e, OSError e = true) (copy_files source_dir target_dir pattern).
Proof.
  unfold copy_files.
  apply raises_only_bind; [apply raises_only_Path_exists|]. intros ex.
  destruct (negb ex); [apply raises_only_ret|].
  apply raises_only_bind; [apply raises_only_Path_mkdir|]. intros _.
  apply raises_only_bind; [apply raises_only_Path_glob|]. intros files.
  apply raises_only_for_each. intros file count.
  apply raises_only_bind; [apply raises_only_Path_is_file|]. intros [|].
  - apply raises_only_bind; [apply raises_only_shutil_copy2|].
    intros _. apply raises_only_ret.
  - apply raises_only_ret.
Qed.

Lemma raises_only_count_files P E language : raises_only P (count_files E language).
Proof. intros w e w'. by rewrite count_files_spec. Qed.

Lemma raises_only_install_blocks E ct at_ rt language :
  raises_only (λ e, OSError e = true)
    (create_directories ct at_ rt ;;
     backup_commands E ct ;;
     do commands_installed <- copy_commands (cwd E </> "commands") ct;
     do agents_installed <- copy_agents (cwd E </> "agents") at_ language;
     do rules_installed <- copy_rules (cwd E </> "rules") rt;
     verify_installation E language commands_installed agents_installed
       rules_installed ;;
     ret (mkInstallationResult commands_installed agents_installed rules_installed
            true [])).
Proof.
  apply raises_only_bind.
  { unfold create_directories, show_info, console_print.
    apply raises_only_bind; [apply raises_only_emit|intros _].
    apply raises_only_bind; [apply raises_only_Path_mkdir|intros _].
    apply raises_only_bind; [apply raises_only_Path_mkdir|intros _].
    apply raises_only_bind; [apply raises_only_Path_mkdir|intros _].
    apply raises_only_bind; [apply raises_only_emit|intros _].
    apply raises_only_bind; [apply raises_only_emit|intros _].
    apply raises_only_bind; [apply raises_only_emit|intros _].
    apply raises_only_emit. }
  intros _. apply raises_only_bind.
  { unfold backup_commands, show_info, console_print.
    apply raises_only_bind; [apply raises_only_emit|intros _].
    apply raises_only_bind; [apply raises_only_backup_existing_files|].
    intros [b|]; [|apply raises_only_ret].
    apply raises_only_bind; [apply raises_only_emit|intros _].
    apply raises_only_emit. }
  intros _. apply raises_only_bind.
  { unfold copy_commands, show_success, console_print.
    apply raises_only_bind; [apply raises_only_emit|intros _].
    apply raises_only_bind; [apply raises_only_copy_files|intros c].
    apply raises_only_bind; [apply raises_only_emit|intros _].
    apply raises_only_bind; [apply raises_only_emit|intros _].
    apply raises_only_ret. }
  intros ci. apply raises_only_bind.
  { unfold copy_agents, show_success, console_print.
    apply raises_only_bind; [apply raises_only_emit|intros _].
    apply raises_only_bind; [apply raises_only_Path_exists|intros e1].
    apply raises_only_bind.
    { destruct e1; [|apply raises_only_ret].
      apply raises_only_bind; [apply raises_only_copy_files|intros c].
      apply raises_only_bind; [apply raises_only_emit|intros _].
      apply raises_only_ret. }
    intros n1.
    apply raises_only_bind; [apply raises_only_Path_exists|intros e2].
    apply raises_only_bind.
    { destruct e2; [|apply raises_only_ret].
      apply raises_only_bind; [apply raises_only_copy_files|intros c].
      apply raises_only_bind; [apply raises_only_emit|intros _].
      apply raises_only_ret. }
    intros n2.
    apply raises_only_bind; [apply raises_only_Path_exists|intros e3].
    apply raises_only_bind.
    { destruct e3; [|apply raises_only_ret].
      apply raises_only_bind; [apply raises_only_shutil_copy2|intros _].
      apply raises_only_emit. }
    intros _.
    apply raises_only_bind; [apply raises_only_emit|intros _].
    apply raises_only_ret. }
  intros ai. apply raises_only_bind.
  { unfold copy_rules, show_success, console_print.
    apply raises_only_bind; [apply raises_only_emit|intros _].
    apply raises_only_bind; [apply raises_only_copy_files|intros c].
    apply raises_only_bind; [apply raises_only_emit|intros _].
    apply raises_only_bind; [apply raises_only_emit|intros _].
    apply raises_only_ret. }
  intros ri. apply raises_only_bind; [|intros _; apply raises_only_ret].
  intros w e w'. by rewrite verify_installation_spec.
Qed.

Lemma raises_only_install_to_agent E agent language :
  validate_agent E agent = true →
  raises_only (λ e, OSError e = true) (install_to_agent E agent language).
Proof.
  intros Hv w e w'.
  destruct (validate_agent_targets _ _ Hv) as (ct & at_ & rt & Hct & Hat & Hrt).
  unfold install_to_agent, getitem, get_source_dirs, get_script_dir.
  rewrite Hct, Hat, Hrt, !bind_ret_l.
  unfold bind at 1, Path_exists at 1.
  destruct (negb _); [done|]. apply raises_only_install_blocks.
Qed.


(** ** Detecting and choosing the agent *)

Lemma AGENT_DIRS_items_map E : AGENT_DIRS E = list_to_map (AGENT_DIRS_items E).
Proof. reflexivity. Qed.

Lemma AGENT_DIRS_items_NoDup E : NoDup (AGENT_DIRS_items E).*1.
Proof. apply (bool_decide_unpack _). vm_compute. exact I. Qed.

Lemma elem_of_AGENT_DIRS_items E a d :
  (a, d) ∈ AGENT_DIRS_items E ↔ AGENT_DIRS E !! a = Some d.
Proof.
  rewrite AGENT_DIRS_items_map.
  apply elem_of_list_to_map, AGENT_DIRS_items_NoDup.
Qed.

(** The detection loop is a filter. *)
Lemma detect_loop (items : list (string * path)) : ∀ detected w,
  for_each items detected (λ '(agent, agent_dir) detected,
    let parent_dir := parent agent_dir in
    do e <- Path_exists parent_dir;
    if e then ret (detected ++ [agent]) else ret detected) w
  = Ok (detected ++
        (filter (λ kv, is_Some (lookup_path (parent kv.2) (root w))) items).*1) w.
Proof.
  induction items as [|[a d] items IH]; intros detected w; simpl.
  - by rewrite app_nil_r.
  - unfold bind at 1, Path_exists at 1. unfold bind at 1.
    rewrite filter_cons. simpl. case_bool_decide as Hex.
    + rewrite decide_True by done. unfold ret at 1. rewrite IH.
      by rewrite <-(assoc_L (++)).
    + rewrite decide_False by done. unfold ret at 1. by rewrite IH.
Qed.

Lemma detect_installed_agents_Ok E w :
  detect_installed_agents E w =
    Ok (filter (λ kv, is_Some (lookup_path (parent kv.2) (root w)))
          (AGENT_DIRS_items E)).*1 w.
Proof. unfold detect_installed_agents. by rewrite detect_loop. Qed.

Lemma detected_elem E w agent :
  agent ∈ (filter (λ kv, is_Some (lookup_path (parent kv.2) (root w)))
             (AGENT_DIRS_items E)).*1 ↔
  ∃ agent_dir, AGENT_DIRS E !! agent = Some agent_dir ∧
               is_Some (lookup_path (parent agent_dir) (root w)).
Proof.
  rewrite list_elem_of_fmap. split.
  - intros ([a d] & -> & [Hex Hin]%list_elem_of_filter).
    exists d. split; [by apply elem_of_AGENT_DIRS_items|done].
  - intros (d & Hd%elem_of_AGENT_DIRS_items & Hex).
    exists (agent, d). split; [done|]. by apply list_elem_of_filter.
Qed.

Lemma detect_installed_agents_valid E w :
  ∃ found,
    detect_installed_agents E w = Ok found w ∧
    Forall (λ agent, validate_agent E agent = true) found.
Proof.
  eexists. split; [apply detect_installed_agents_Ok|].
  apply Forall_forall. intros agent (d & Hd & _)%detected_elem.
  unfold validate_agent. apply bool_decide_eq_true. eauto.
Qed.

(** X8. [detect_installed_agents] reads and never raises: it returns, in
    the order of the table and without repetition, exactly the agents of
    [AGENT_DIRS] whose configuration directory (the parent of the commands
    directory) exists; each of them is a valid agent. *)
Theorem detect_installed_agents_spec E w :
  ∃ detected,
    detect_installed_agents E w = Ok detected w ∧
    detected `sublist_of` (AGENT_DIRS_items E).*1 ∧
    NoDup detected ∧
    (∀ agent, agent ∈ detected ↔
       ∃ agent_dir, AGENT_DIRS E !! agent = Some agent_dir ∧
                    is_Some (lookup_path (parent agent_dir) (root w))) ∧
    Forall (λ agent, validate_agent E agent = true) detected.
Proof.
  eexists. split; [apply detect_installed_agents_Ok|].
  split_and!.
  - apply fmap_sublist, sublist_filter.
  - eapply sublist_NoDup; [apply AGENT_DIRS_items_NoDup|].
    apply fmap_sublist, sublist_filter.
  - apply detected_elem.
  - destruct (detect_installed_agents_valid E w) as (found & Hrun & Hvalid).
    rewrite detect_installed_agents_Ok in Hrun. by simplify_eq.
Qed.

Lemma select_agent_cases E agent_arg w :
  ∃ res w',
    select_agent E agent_arg w = Ok res w' ∧
    root w' = root w ∧ ticks w' = ticks w ∧
    match res with
    | inl code =>
        code = 1 ∧
        match agent_arg with
        | Some (String _ _ as named) =>
            named ≠ "all" ∧ validate_agent E named = false
        | _ => detect_installed_agents E w = Ok [] w
        end
    | inr (selected, detected) =>
        (selected = "all" ∨ validate_agent E selected = true) ∧
        Forall (λ agent, validate_agent E agent = true) detected ∧
        (selected ≠ "all" → agent_arg = Some selected ∧ detected = [selected]) ∧
        (selected = "all" → detect_installed_agents E w = Ok detected w) ∧
        (detected = [] → agent_arg = Some "all")
    end.
Proof.
  destruct (detect_installed_agents_valid E w) as (found & Hdet & Hvalid).
  assert (∃ res w',
    (do detected_agents <- detect_installed_agents E;
     if bool_decide (detected_agents = []) then
       show_no_agents_detected ;; ret (inl 1)
     else ret (inr ("all", detected_agents))) w = Ok res w' ∧
    root w' = root w ∧ ticks w' = ticks w ∧
    match res with
    | inl code => code = 1 ∧ detect_installed_agents E w = Ok [] w
    | inr (selected, detected) =>
        selected = "all" ∧ detected = found ∧ detected ≠ []
    end) as Hauto.
  { unfold bind at 1. rewrite Hdet. case_bool_decide as Hnil.
    - eexists (inl 1), _. split; [reflexivity|]. by rewrite <-Hnil.
    - eexists (inr ("all", found)), _. split; [reflexivity|]. done. }
  destruct agent_arg as [ [|c named]|]; simpl select_agent.
  - destruct Hauto as (res & w' & Hrun & Hroot & Hticks & Hres).
    exists res, w'. split_and!; [done..|].
    destruct res as [code|[selected detected] ]; [done|].
    destruct Hres as (-> & -> & Hne). split_and!; [by left|done|done|done|done].
  - set (a := String c named).
    destruct (decide (a = "all")) as [Hall|Hall].
    + rewrite (bool_decide_eq_false_2 (a ≠ "all")) by (intros Hn; by apply Hn).
      rewrite (bool_decide_eq_true_2 (a = "all")) by done. cbn [andb].
      unfold bind at 1. rewrite Hdet.
      eexists (inr (a, found)), _. split; [reflexivity|].
      split_and!; [done|done|by left|done| |done|].
      * intros Hn. by destruct Hn.
      * intros _. by rewrite Hall.
    + rewrite (bool_decide_eq_true_2 (a ≠ "all")) by done.
      rewrite (bool_decide_eq_false_2 (a = "all")) by done. cbn [andb].
      destruct (validate_agent E a) eqn:Hv; cbn [negb].
      * eexists (inr (a, [a])), _. split; [reflexivity|].
        split_and!; [done|done|by right| |done|done|done].
        by apply Forall_singleton.
      * eexists (inl 1), _. split; [reflexivity|]. done.
  - destruct Hauto as (res & w' & Hrun & Hroot & Hticks & Hres).
    exists res, w'. split_and!; [done..|].
    destruct res as [code|[selected detected] ]; [done|].
    destruct Hres as (-> & -> & Hne). split_and!; [by left|done|done|done|done].
Qed.

(** X9. [select_agent] only reads and prints, and it always comes back.
    With [found] the agents [detect_installed_agents] returns: it exits,
    with code 1, exactly for a named agent that is neither ["all"] nor in
    the tables, and for no name (or an empty one) when nothing is
    detected. Otherwise it has printed nothing and hands on the name with
    the named agent alone, or ["all"] with [found], for ["all"] and for no
    name alike. Every agent it hands on is in the tables, and the list is
    empty only when ["all"] was named and nothing is detected. *)
Theorem select_agent_contract E agent_arg w :
  ∃ found res w',
    detect_installed_agents E w = Ok found w ∧
    select_agent E agent_arg w = Ok res w' ∧
    root w' = root w ∧ ticks w' = ticks w ∧
    (∀ code, res = inl code →
       code = 1 ∧
       match truthy agent_arg with
       | Some named => named ≠ "all" ∧ validate_agent E named = false
       | None => found = []
       end) ∧
    (∀ selected detected, res = inr (selected, detected) →
       w' = w ∧
       match truthy agent_arg with
       | Some named =>
           selected = named ∧
           (named = "all" ∨ validate_agent E named = true) ∧
           detected = (if bool_decide (named = "all") then found else [named])
       | None => selected = "all" ∧ detected = found ∧ found ≠ []
       end ∧
       Forall (λ agent, validate_agent E agent = true) detected ∧
       (detected = [] → agent_arg = Some "all")).
Proof.
  destruct (detect_installed_agents_valid E w) as (found & Hdet & Hvalid).
  exists found.
  assert (∃ res w',
    (do detected_agents <- detect_installed_agents E;
     if bool_decide (detected_agents = []) then
       show_no_agents_detected ;; ret (inl 1)
     else ret (inr ("all", detected_agents))) w = Ok res w' ∧
    root w' = root w ∧ ticks w' = ticks w ∧
    (∀ code, res = inl code → code = 1 ∧ found = []) ∧
    (∀ selected detected, res = inr (selected, detected) →
       w' = w ∧ selected = "all" ∧ detected = found ∧ found ≠ [])) as Hauto.
  { unfold bind at 1. rewrite Hdet. case_bool_decide as Hnil.
    - eexists (inl 1), _. split; [reflexivity|].
      split_and!; [done|done| |done]. by intros code [= <-].
    - eexists (inr ("all", found)), _. split; [reflexivity|].
      split_and!; [done|done|done|]. by intros s d [= <- <-]. }
  assert (∀ res w',
    (∀ code, res = inl code → code = 1 ∧ found = []) →
    (∀ selected detected, res = inr (selected, detected) →
       w' = w ∧ selected = "all" ∧ detected = found ∧ found ≠ []) →
    ∀ selected detected, res = inr (selected, detected) →
       w' = w ∧ (selected = "all" ∧ detected = found ∧ found ≠ []) ∧
       Forall (λ agent, validate_agent E agent = true) detected ∧
       (detected = [] → agent_arg = Some "all")) as Hnoname.
  { intros res w' _ Hr s d Heq. destruct (Hr s d Heq) as (-> & -> & -> & Hne).
    split_and!; done. }
  destruct agent_arg as [ [|c named]|]; simpl select_agent; cbn [truthy].
  - destruct Hauto as (res & w' & Hrun & Hroot & Hticks & Hl & Hr).
    exists res, w'. split_and!; [done..|]. by apply Hnoname.
  - set (a := String c named).
    destruct (decide (a = "all")) as [Hall|Hall].
    + rewrite (bool_decide_eq_false_2 (a ≠ "all")) by (intros Hn; by apply Hn).
      rewrite (bool_decide_eq_true_2 (a = "all")) by done. cbn [andb].
      unfold bind at 1. rewrite Hdet.
      eexists (inr (a, found)), _. split; [done|]. split; [reflexivity|].
      split_and!; [done|done|done|].
      intros s d [= <- <-]. split_and!; [done|done|by left|done|done|].
      intros _. by rewrite Hall.
    + rewrite (bool_decide_eq_true_2 (a ≠ "all")) by done.
      rewrite (bool_decide_eq_false_2 (a = "all")) by done. cbn [andb].
      destruct (validate_agent E a) eqn:Hv; cbn [negb].
      * eexists (inr (a, [a])), _. split; [done|]. split; [reflexivity|].
        split_and!; [done|done|done|].
        intros s d [= <- <-]. split_and!; [done|done|by right|done| |done].
        by apply Forall_singleton.
      * eexists (inl 1), _. split; [done|]. split; [reflexivity|].
        split_and!; [done|done| |done].
        by intros code [= <-].
  - destruct Hauto as (res & w' & Hrun & Hroot & Hticks & Hl & Hr).
    exists res, w'. split_and!; [done..|]. by apply Hnoname.
Qed.

(** ** From the choice of the agent to the summary *)

Lemma install_loop_result E language agents : ∀ acc w installed w',
  for_each agents acc (λ agent_name installed_agents,
    show_installation_progress agent_name ;;
    install_to_agent E agent_name language ;;
    ret (installed_agents ++ [agent_name])) w = Ok installed w' →
  installed = acc ++ agents.
Proof.
  induction agents as [|a agents IH]; intros acc w installed w'; simpl.
  - intros [= <- _]. by rewrite app_nil_r.
  - intros (acc' & w1 & Hbody & Hrest)%bind_Ok_inv.
    apply bind_Ok_inv in Hbody as ([] & w2 & _ & Hbody).
    apply bind_Ok_inv in Hbody as (r & w3 & _ & [= <- _]).
    apply IH in Hrest as ->. by rewrite <-(assoc_L (++)).
Qed.

Lemma raises_only_install_selected E selected detected language :
  (selected ≠ "all" → validate_agent E selected = true) →
  Forall (λ agent, validate_agent E agent = true) detected →
  raises_only (λ e, OSError e = true)
    (install_selected E selected detected language).
Proof.
  intros Hsel Hdet. unfold install_selected. case_bool_decide as Hall.
  - assert (∀ acc, raises_only (λ e, OSError e = true)
      (for_each detected acc (λ agent_name installed_agents,
         show_installation_progress agent_name ;;
         install_to_agent E agent_name language ;;
         ret (installed_agents ++ [agent_name])))) as Hloop; [|apply Hloop].
    induction Hdet as [|a agents Ha Hagents IH]; intros acc; simpl.
    + apply raises_only_ret.
    + apply raises_only_bind; [|intros acc'; apply IH].
      apply raises_only_bind; [by intros w e w'|intros _].
      apply raises_only_bind; [by apply raises_only_install_to_agent|intros _].
      apply raises_only_ret.
  - apply raises_only_bind; [by intros w e w'|intros _].
    apply raises_only_bind; [by apply raises_only_install_to_agent; auto|intros _].
    apply raises_only_ret.
Qed.

(** X10. After [select_agent], the install loop of [main] never raises
    [KeyError]: whatever it raises is an [OSError] of the file system.
    When the loop returns, the list of installed agents is the detected
    list for ["all"] and empty otherwise, and the directory [main] looks
    up for the summary, [AGENT_DIRS[installed_agents[0]]] for ["all"],
    is missing exactly when ["all"] was named and no agent is detected:
    the loop has then installed nothing and the subscript fails. *)
Theorem install_after_select_agent E agent_arg language w selected detected w1 :
  select_agent E agent_arg w = Ok (inr (selected, detected)) w1 →
  (∀ e w2, install_selected E selected detected language w1 = Raise e w2 →
     OSError e = true) ∧
  (∀ installed w2,
     install_selected E selected detected language w1 = Ok installed w2 →
     installed = (if bool_decide (selected = "all") then detected else []) ∧
     (summary_agent_dir E selected installed = None ↔
      agent_arg = Some "all" ∧ detected = [])).
Proof.
  intros Hsel.
  destruct (select_agent_cases E agent_arg w) as (res & w' & Hrun & _ & _ & Hres).
  rewrite Hsel in Hrun. injection Hrun as <- <-.
  destruct Hres as (Hs & Hvalid & Hone & Hall & Hnil).
  split.
  - intros e w2. apply raises_only_install_selected; [|done].
    intros Hne. by destruct Hs.
  - intros installed w2 Hinst.
    assert (installed = if bool_decide (selected = "all") then detected else [])
      as ->.
    { unfold install_selected in Hinst. case_bool_decide as Ha.
      - by apply install_loop_result in Hinst.
      - apply bind_Ok_inv in Hinst as ([] & w3 & _ & Hinst).
        by apply bind_Ok_inv in Hinst as (r & w4 & _ & [= <- _]). }
    split; [done|].
    unfold summary_agent_dir. case_bool_decide as Ha.
    + subst selected.
      rewrite (bool_decide_eq_false_2 ("all" ≠ "all")) by (intros Hn; by apply Hn).
      destruct detected as [|a agents]; simpl.
      * split; [intros _|done]. split; [by apply Hnil|done].
      * apply Forall_cons in Hvalid as [Hv _].
        unfold validate_agent in Hv. apply bool_decide_eq_true in Hv as [d Hd].
        rewrite Hd. split; [done|by intros [_ ?] ].
    + rewrite (bool_decide_eq_true_2 (selected ≠ "all")) by done.
      destruct (Hone Ha) as [-> ->].
      destruct Hs as [?|Hv]; [done|].
      unfold validate_agent in Hv. apply bool_decide_eq_true in Hv as [d Hd].
      rewrite Hd. split; [done|by intros [_ ?] ].
Qed.

(** ** The configuration record *)

Lemma truthy_Some s x : truthy s = Some x → truthy (Some x) = Some x.
Proof. destruct s as [ [|c s]|]; [done| |done]. by intros [= <-]. Qed.

Lemma strftime_iso_truthy now : truthy (Some (strftime_iso now)) = Some (strftime_iso now).
Proof. unfold strftime_iso, pad4. by rewrite string_app_cons. Qed.

(** X11. A configuration written by [to_dict] is read back by [from_dict]
    without a [KeyError]: the language and the enforcement level are the
    ones written, an empty agent has become [None], and [configured_at] is
    the time stamp the record had or, when it had none, the time of
    writing. Written again at any later time, the record read back gives
    the same dictionary: the first time stamp stays. *)
Theorem config_round_trip utc_now later (c : Config.t) :
  ∃ c',
    Config.from_dict (Config.to_dict utc_now c) = inr c' ∧
    Config.language c' = Config.language c ∧
    Config.enforcement_level c' = Config.enforcement_level c ∧
    Config.agent c' = truthy (Config.agent c) ∧
    Config.configured_at c' =
      Some (default (strftime_iso utc_now) (truthy (Config.configured_at c))) ∧
    Config.to_dict later c' = Config.to_dict utc_now c ∧
    Config.from_dict (Config.to_dict later c') = inr c'.
Proof.
  destruct c as [l a lvl at_].
  set (stamp := default (strftime_iso utc_now) (truthy at_)).
  assert (truthy (Some stamp) = Some stamp) as Hstamp.
  { unfold stamp. destruct (truthy at_) as [s|] eqn:Hs; simpl.
    - by eapply truthy_Some.
    - apply strftime_iso_truthy. }
  assert (Config.from_dict (Config.to_dict utc_now (Config.mk l a lvl at_))
          = inr (Config.mk l (truthy a) lvl (Some stamp))) as Hread.
  { unfold Config.from_dict, Config.to_dict. cbn [Config.language Config.agent
      Config.enforcement_level Config.configured_at].
    fold stamp.
    replace (match truthy at_ with Some s => s | None => strftime_iso utc_now end)
      with stamp by (unfold stamp; by destruct (truthy at_)).
    destruct (truthy a) as [x|] eqn:Ha; by simplify_map_eq. }
  assert (Config.to_dict later (Config.mk l (truthy a) lvl (Some stamp))
          = Config.to_dict utc_now (Config.mk l a lvl at_)) as Hagain.
  { unfold Config.to_dict. cbn [Config.language Config.agent
      Config.enforcement_level Config.configured_at].
    rewrite Hstamp.
    replace (match truthy at_ with Some s => s | None => strftime_iso utc_now end)
      with stamp by (unfold stamp; by destruct (truthy at_)).
    destruct (truthy a) as [x|] eqn:Ha; [|done].
    by rewrite (truthy_Some _ _ Ha). }
  exists (Config.mk l (truthy a) lvl (Some stamp)).
  split_and!; [done..| |].
  - done.
  - by rewrite Hagain.
Qed.

(** ** One agent at a time *)

Lemma apart_app_l (h p q : path) : apart p q → apart (h ++ p) (h ++ q).
Proof. intros [Hpq Hqp]. split; intros H%prefix_app_inv; auto. Qed.

Lemma AGENT_DIRS_roots E agent ct :
  AGENT_DIRS E !! agent = Some ct →
  (agent = "claude-code" ∧ parent ct = home E ++ [".claude"]) ∨
  (agent = "opencode" ∧ parent ct = home E ++ [".config"; "opencode"]) ∨
  (agent = "droid" ∧ parent ct = home E ++ [".factory"]).
Proof.
  unfold AGENT_DIRS. simpl.
  destruct (decide (agent = "claude-code")) as [->|H1].
  { rewrite lookup_insert_eq. intros [= <-]. left. by rewrite parent_snoc. }
  rewrite (lookup_insert_ne _ "claude-code") by done.
  destruct (decide (agent = "opencode")) as [->|H2].
  { rewrite lookup_insert_eq. intros [= <-]. right; left.
    rewrite parent_snoc. by rewrite <-(assoc_L (++)). }
  rewrite (lookup_insert_ne _ "opencode") by done.
  destruct (decide (agent = "droid")) as [->|H3].
  { rewrite lookup_insert_eq. intros [= <-]. right; right. by rewrite parent_snoc. }
  rewrite (lookup_insert_ne _ "droid") by done.
  by rewrite lookup_empty.
Qed.

(** The configuration roots of two agents lie apart. *)
Lemma config_roots_apart E agent other ct ct' :
  AGENT_DIRS E !! agent = Some ct → AGENT_DIRS E !! other = Some ct' →
  agent ≠ other → apart (parent ct) (parent ct').
Proof.
  intros H1 H2 Hne.
  destruct (AGENT_DIRS_roots _ _ _ H1) as [ [-> ->] | [ [-> ->] | [-> ->] ] ];
    destruct (AGENT_DIRS_roots _ _ _ H2) as [ [-> ->] | [ [-> ->] | [-> ->] ] ];
    try done; by apply apart_app_l, apart_by_head.
Qed.

(** X12. Installing to one agent leaves the others alone: whether
    [install_to_agent] returns or raises, nothing at or below the
    configuration root of another agent of the tables is changed. *)
Theorem install_to_agent_isolated E agent other language w ct ct' :
  AGENT_DIRS E !! agent = Some ct →
  AGENT_DIRS E !! other = Some ct' →
  agent ≠ other →
  ∀ k, lookup_path (parent ct' ++ k)
         (root (world_of (install_to_agent E agent language w)))
       = lookup_path (parent ct' ++ k) (root w).
Proof.
  intros Hct Hct' Hne k.
  pose proof (config_roots_apart _ _ _ _ _ Hct Hct' Hne) as Hroots.
  destruct (AGENT_DIRS_names _ _ _ Hct) as (base & a & -> & Hat & _ & Hrt).
  rewrite parent_snoc in Hroots.
  assert (∀ x, apart (base </> x) (parent ct' ++ k)) as Hap.
  { intros x. by apply apart_app_r, apart_child. }
  apply (install_to_agent_frame E agent language w _ _ _ _ Hct Hat Hrt);
    try apply Hap.
  unfold backup_path. rewrite parent_snoc. apply Hap.
Qed.

(** ** Never more than the plan *)

Lemma copy_loop_count_le tgt (files : list path) : ∀ acc w n w',
  for_each files acc (λ file count,
    do f <- Path_is_file file;
    if f then
      shutil_copy2 file (tgt </> name file) ;;
      ret (count + 1)
    else ret count) w = Ok n w' →
  n ≤ acc + length files.
Proof.
  induction files as [|file files IH]; intros acc w n w'; simpl.
  - intros [= <- _]. lia.
  - intros (acc' & w1 & Hbody & Hrest)%bind_Ok_inv.
    apply IH in Hrest.
    apply bind_Ok_inv in Hbody as (f & w2 & _ & Hbody).
    destruct f.
    + apply bind_Ok_inv in Hbody as ([] & w3 & _ & [= <- _]). lia.
    + injection Hbody as <- _. lia.
Qed.

(** [copy_files] counts at most the entries [glob] lists. *)
Lemma copy_files_count_le src tgt w n w' :
  apart tgt src →
  copy_files src tgt "*.md" w = Ok n w' →
  n ≤ count_md src (root w).
Proof.
  intros Hap. unfold copy_files.
  intros (ex & w0 & [= <- <-] & Hrun)%bind_Ok_inv.
  destruct (negb _); [injection Hrun as <- _; lia|].
  apply bind_Ok_inv in Hrun as ([] & w1 & Hmk & Hrun).
  apply Path_mkdir_Ok_inv in Hmk as (r1 & Hmk & ->).
  apply bind_Ok_inv in Hrun as (files & w2 & Hglob & Hrun).
  destruct (Path_glob_length src "*.md" (with_root r1 w)) as (l & Hl & Hlen).
  rewrite Hl in Hglob. injection Hglob as <- <-.
  apply copy_loop_count_le in Hrun.
  rewrite root_with_root, (mkdirs_apart _ _ _ _ Hmk Hap) in Hlen.
  unfold count_md. lia.
Qed.

Lemma copy_commands_count_le src tgt w n w' :
  apart tgt src → copy_commands src tgt w = Ok n w' → n ≤ count_md src (root w).
Proof.
  intros Hap. unfold copy_commands.
  intros ([] & w0 & [= <-] & Hrun)%bind_Ok_inv.
  apply bind_Ok_inv in Hrun as (c & w1 & Hcopy & Hrun).
  apply copy_files_count_le in Hcopy; [|done].
  apply bind_Ok_inv in Hrun as ([] & w2 & _ & Hrun).
  apply bind_Ok_inv in Hrun as ([] & w3 & _ & [= <- _]). done.
Qed.

Lemma copy_rules_count_le src tgt w n w' :
  apart tgt src → copy_rules src tgt w = Ok n w' → n ≤ count_md src (root w).
Proof.
  intros Hap. unfold copy_rules.
  intros ([] & w0 & [= <-] & Hrun)%bind_Ok_inv.
  apply bind_Ok_inv in Hrun as (c & w1 & Hcopy & Hrun).
  apply copy_files_count_le in Hcopy; [|done].
  apply bind_Ok_inv in Hrun as ([] & w2 & _ & Hrun).
  apply bind_Ok_inv in Hrun as ([] & w3 & _ & [= <- _]). done.
Qed.

Lemma optional_copy_count_le src tgt w acc n w' (msg : nat → string) :
  apart tgt src →
  (if bool_decide (is_Some (lookup_path src (root w))) then
     do c <- copy_files src tgt "*.md";
     show_success (msg c) ;;
     ret (acc + c)
   else ret acc) w = Ok n w' →
  n ≤ acc + count_md src (root w) ∧
  ∀ q, apart tgt q → lookup_path q (root w') = lookup_path q (root w).
Proof.
  intros Hap. case_bool_decide as Hex.
  - intros (c & w1 & Hcopy & Hrun)%bind_Ok_inv.
    apply bind_Ok_inv in Hrun as ([] & w2 & [= <-] & [= <- <-]).
    split.
    + apply copy_files_count_le in Hcopy; [lia|done].
    + intros q Hq. cbn [root].
      pose proof (preserves_copy_files q src tgt "*.md" Hq w) as Hfr.
      by rewrite Hcopy in Hfr.
  - intros [= <- <-]. split; [lia|done].
Qed.

Lemma copy_agents_count_le agents_dir tgt language w n w' :
  apart tgt agents_dir →
  copy_agents agents_dir tgt language w = Ok n w' →
  n ≤ count_md (agents_dir </> "shared") (root w) +
      count_md (agents_dir </> language) (root w).
Proof.
  intros Hap. unfold copy_agents.
  intros ([] & w0 & [= <-] & Hrun)%bind_Ok_inv.
  apply bind_Ok_inv in Hrun as (e1 & w1 & [= <- <-] & Hrun).
  apply bind_Ok_inv in Hrun as (n1 & w2 & Hshared & Hrun).
  apply (optional_copy_count_le (agents_dir </> "shared") tgt
           (add_out [Task "Copying agent files..."] w) 0 n1 w2
           (λ c, "Copied " +:+ pretty c +:+ " shared agents"))
    in Hshared as [Hn1 Hfr1]; [|by apply apart_app_r].
  apply bind_Ok_inv in Hrun as (e2 & w3 & [= <- <-] & Hrun).
  apply bind_Ok_inv in Hrun as (n2 & w4 & Hlang & Hrun).
  apply (optional_copy_count_le (agents_dir </> language) tgt w2 n1 n2 w4
           (λ c, "Copied " +:+ pretty c +:+ " " +:+ language +:+ " agents"))
    in Hlang as [Hn2 _]; [|by apply apart_app_r].
  apply bind_Ok_inv in Hrun as (e3 & w5 & _ & Hrun).
  apply bind_Ok_inv in Hrun as ([] & w6 & _ & Hrun).
  apply bind_Ok_inv in Hrun as ([] & w7 & _ & [= <- _]).
  rewrite root_add_out in Hn1, Hfr1.
  unfold count_md in Hn2. rewrite Hfr1 in Hn2 by by apply apart_app_r.
  unfold count_md in *. lia.
Qed.

(** The counts of a run that returns, against the source directories as
    the call found them. *)
Lemma install_to_agent_counts_le E agent language w ct r w' :
  AGENT_DIRS E !! agent = Some ct →
  apart (parent ct) (cwd E) →
  install_to_agent E agent language w = Ok r w' →
  commands_installed r ≤ count_md (cwd E </> "commands") (root w) ∧
  agents_installed r ≤ count_md (cwd E </> "agents" </> "shared") (root w) +
                       count_md (cwd E </> "agents" </> language) (root w) ∧
  rules_installed r ≤ count_md (cwd E </> "rules") (root w).
Proof.
  intros Hct Hbase Hrun.
  destruct (install_to_agent_Ok_inv _ _ _ _ _ _ Hrun)
    as [(_ & _ & ->)|(_ & ci & ai & ri & w5 & _ & ->)]; [simpl; lia|].
  destruct (install_to_agent_run_inv _ _ _ _ _ _ Hrun eq_refl)
    as (ct0 & at_ & rt & w1 & w2 & ci' & w3 & ai' & w4 & ri' & w5' &
        Hct0 & Hat & Hrt & _ & H1 & H2 & H3 & H4 & H5 & _ & Hr).
  injection Hr as -> -> ->. cbn [commands_installed agents_installed rules_installed].
  destruct (AGENT_DIRS_names _ _ _ Hct) as (base & a & -> & Hat' & _ & Hrt').
  unfold path in *.
  assert (ct0 = base </> "commands") as -> by congruence.
  assert (at_ = base </> a) as -> by congruence.
  assert (rt = base </> "rules") as -> by congruence.
  rewrite parent_snoc in Hbase.
  assert (∀ x d, cwd E `prefix_of` d → apart (base </> x) d) as Hap.
  { intros x d [k ->]. by apply apart_app_r, apart_child. }
  assert (∀ d, cwd E `prefix_of` d →
            lookup_path d (root w1) = lookup_path d (root w)) as Hs1.
  { intros d Hd.
    pose proof (preserves_create_directories d (base </> "commands") (base </> a)
                  (base </> "rules")) as Hfr.
    specialize (Hfr (proj2 (Hap _ d Hd)) (proj2 (Hap _ d Hd)) (proj2 (Hap _ d Hd)) w).
    by rewrite H1 in Hfr. }
  assert (∀ d, cwd E `prefix_of` d →
            lookup_path d (root w2) = lookup_path d (root w)) as Hs2.
  { intros d Hd. rewrite <-Hs1 by done.
    pose proof (backup_commands_frame E (base </> "commands") d w1) as Hfr.
    rewrite H2 in Hfr. apply Hfr.
    unfold backup_path. rewrite parent_snoc. by apply Hap. }
  assert (∀ d, cwd E `prefix_of` d →
            lookup_path d (root w3) = lookup_path d (root w)) as Hs3.
  { intros d Hd. rewrite <-Hs2 by done.
    pose proof (preserves_copy_commands d (cwd E </> "commands") (base </> "commands")
                  (Hap _ d Hd) w2) as Hfr.
    by rewrite H3 in Hfr. }
  assert (∀ d, cwd E `prefix_of` d →
            lookup_path d (root w4) = lookup_path d (root w)) as Hs4.
  { intros d Hd. rewrite <-Hs3 by done.
    pose proof (preserves_copy_agents d (cwd E </> "agents") (base </> a) language
                  (Hap _ d Hd) w3) as Hfr.
    by rewrite H4 in Hfr. }
  assert (∀ x, cwd E `prefix_of` cwd E </> x) as Hp1 by (intros x; by apply prefix_app_r).
  assert (∀ x y, cwd E `prefix_of` cwd E </> x </> y) as Hp2
    by (intros x y; by do 2 apply prefix_app_r).
  apply copy_commands_count_le in H3; [|by apply Hap].
  apply copy_agents_count_le in H4; [|by apply Hap].
  apply copy_rules_count_le in H5; [|by apply Hap].
  unfold count_md in *.
  rewrite (Hs2 _ (Hp1 "commands")) in H3.
  rewrite (Hs3 _ (Hp2 "agents" "shared")), (Hs3 _ (Hp2 "agents" language)) in H4.
  rewrite (Hs4 _ (Hp1 "rules")) in H5.
  done.
Qed.

(** X13. [install_to_agent] never reports more than [count_files] counts.
    For a language of [SUPPORTED_LANGUAGES], when the agent's
    configuration root is neither inside nor above the working directory,
    a call that returns reports for each category at most the number of
    entries matching [*.md] that the checkout held when the call began,
    which is what [count_files] returns there; so a warning of the
    verification can only say that fewer files were installed than
    expected. *)
Theorem install_to_agent_counts_bounded E agent language w ct r w' :
  language ∈ SUPPORTED_LANGUAGES →
  AGENT_DIRS E !! agent = Some ct →
  apart (parent ct) (cwd E) →
  install_to_agent E agent language w = Ok r w' →
  ∃ command_count shared_agent_count lang_agent_count rule_count,
    count_files E language w =
      Ok (command_count, shared_agent_count, lang_agent_count, rule_count) w ∧
    commands_installed r ≤ command_count ∧
    agents_installed r ≤ shared_agent_count + lang_agent_count ∧
    rules_installed r ≤ rule_count.
Proof.
  intros _ Hct Hbase Hrun.
  eexists _, _, _, _. split; [apply count_files_spec|].
  by apply (install_to_agent_counts_le E agent language w ct r w').
Qed.

(** ** The further properties, run on concrete worlds *)

Lemma copy_files_touches_only_target_witness :
  lookup_path ["home"; "u"; ".claude"; "agents"]
    (root (world_of (copy_files ["repo"; "commands"]
                       ["home"; "u"; ".claude"; "commands"] "*.md"
                       locked_agents_world)))
  = Some (Dir false ∅).
Proof.
  etrans.
  - apply (copy_files_touches_only_target ["repo"; "commands"]
             ["home"; "u"; ".claude"; "commands"] "*.md"
             ["home"; "u"; ".claude"; "agents"] locked_agents_world).
    apply (apart_siblings ["home"; "u"; ".claude"] "commands" "agents").
    discriminate.
  - vm_compute. reflexivity.
Defined.

Lemma install_to_agent_touches_only_targets_witness :
  lookup_path ["repo"; "commands"; "plan.md"]
    (root (world_of (install_to_agent demo_env "claude-code" "python"
                       locked_agents_world)))
  = Some (File "plan").
Proof.
  destruct (install_to_agent_touches_only_targets demo_env "claude-code" "python"
              locked_agents_world
              ["home"; "u"; ".claude"; "commands"]
              ["home"; "u"; ".claude"; "agents"]
              ["home"; "u"; ".claude"; "rules"]) as [_ Hcheckout].
  - vm_compute. reflexivity.
  - vm_compute. reflexivity.
  - vm_compute. reflexivity.
  - etrans.
    + apply (Hcheckout (apart_by_head "home" "repo" ["u"; ".claude"] []
                          ltac:(discriminate)) ["commands"; "plan.md"]).
    + vm_compute. reflexivity.
Defined.

Lemma install_to_agent_unknown_agent_witness :
  install_to_agent demo_env "cline" "python" fresh_world
  = Raise KeyError fresh_world.
Proof.
  apply (install_to_agent_unknown_agent demo_env "cline" "python" fresh_world).
  vm_compute. reflexivity.
Defined.

Lemma backup_existing_files_same_second_witness :
  ∃ b w1 w2,
    backup_existing_files demo_env ["home"; "u"; ".claude"; "commands"] edited_world
    = Ok (Some b) w1 ∧
    backup_existing_files demo_env ["home"; "u"; ".claude"; "commands"] w1
    = Raise FileExistsError w2 ∧ root w2 = root w1.
Proof.
  destruct (backup_existing_files demo_env ["home"; "u"; ".claude"; "commands"]
              edited_world) as [[b|] w1|e w1] eqn:Hb;
    [|vm_compute in Hb; discriminate..].
  exists b, w1, (World (root w1) (S (ticks w1)) (out w1)).
  split; [reflexivity|]. split; [|reflexivity].
  apply (backup_existing_files_same_second demo_env
           ["home"; "u"; ".claude"; "commands"] edited_world b w1).
  - discriminate.
  - exact Hb.
  - reflexivity.
Defined.

Lemma install_to_agent_keeps_backup_witness :
  ∃ r w',
    install_to_agent demo_env "claude-code" "python" edited_world = Ok r w' ∧
    lookup_path ["home"; "u"; ".claude"; "commands.backup.20240307-090501"; "plan.md"]
      (root w') = Some (File "my plan").
Proof.
  destruct (install_to_agent demo_env "claude-code" "python" edited_world)
    as [r w'|e w'] eqn:Hrun; [|vm_compute in Hrun; discriminate].
  exists r, w'. split; [reflexivity|].
  assert (success r = true) as Hs.
  { destruct (install_to_agent_Ok_inv _ _ _ _ _ _ Hrun)
      as [(Hl & _)|(_ & ci & ai & ri & w5 & _ & ->)]; [|reflexivity].
    vm_compute in Hl. discriminate. }
  apply (install_to_agent_keeps_backup demo_env "claude-code" "python"
           edited_world ["home"; "u"; ".claude"; "commands"]
           true {["plan.md" := File "my plan"]} r w'
           ltac:(vm_compute; reflexivity) ltac:(vm_compute; reflexivity)
           ltac:(vm_compute; discriminate) Hrun Hs ["plan.md"]).
Defined.

Lemma install_to_agent_ready_witness :
  ∃ w',
    install_to_agent demo_env "claude-code" "python" custom_world =
      Ok (mkInstallationResult 5 7 2 true []) w' ∧
    lookup_path ["home"; "u"; ".claude"; "commands"; "plan.md"] (root w') =
      Some (File "plan") ∧
    lookup_path ["home"; "u"; ".claude"; "commands"; "mine.md"] (root w') =
      Some (File "my own") ∧
    lookup_path ["home"; "u"; ".claude"; "agents"; "index.json"] (root w') =
      Some (File "{}").
Proof.
  assert (∀ t src,
    (∀ x c, (x, c) ∈ files_at src (root custom_world) →
       lookup_path (t </> x) (root custom_world) = None) →
    free_of t src (root custom_world)) as Hfree by (intros t src H; exact H).
  destruct (install_to_agent_ready demo_env "claude-code" "python" custom_world
              ["home"; "u"; ".claude"; "commands"]
              ["home"; "u"; ".claude"; "agents"]
              ["home"; "u"; ".claude"; "rules"])
    as (w' & Hrun & Hc & _ & _ & Hreg & _ & Hkeep & _).
  - left.
  - vm_compute. reflexivity.
  - vm_compute. reflexivity.
  - vm_compute. reflexivity.
  - destruct (lookup_path (cwd demo_env </> "commands") (root custom_world))
      eqn:Hl; [eauto|vm_compute in Hl; discriminate].
  - apply apart_by_head. discriminate.
  - right. exists (Dir true {["mine.md" := File "my own"]}). split.
    + vm_compute. reflexivity.
    + eexists. split; [reflexivity|].
      intros x c [_ <-]%lookup_singleton_Some. reflexivity.
  - left. exists ["home"; "u"; ".claude"], "agents", [],
      {["commands" := Dir true {["mine.md" := File "my own"]}]}.
    split_and!; vm_compute; reflexivity.
  - left. exists ["home"; "u"; ".claude"], "rules", [],
      {["commands" := Dir true {["mine.md" := File "my own"]}]}.
    split_and!; vm_compute; reflexivity.
  - apply Hfree. intros x c Hx. vm_compute in Hx.
    repeat (apply elem_of_cons in Hx as [ [= -> ->]|Hx]; [vm_compute; reflexivity|]).
    by apply elem_of_nil in Hx.
  - apply Hfree. intros x c Hx. vm_compute in Hx.
    repeat (apply elem_of_cons in Hx as [ [= -> ->]|Hx]; [vm_compute; reflexivity|]).
    by apply elem_of_nil in Hx.
  - apply Hfree. intros x c Hx. vm_compute in Hx.
    repeat (apply elem_of_cons in Hx as [ [= -> ->]|Hx]; [vm_compute; reflexivity|]).
    by apply elem_of_nil in Hx.
  - apply Hfree. intros x c Hx. vm_compute in Hx.
    repeat (apply elem_of_cons in Hx as [ [= -> ->]|Hx]; [vm_compute; reflexivity|]).
    by apply elem_of_nil in Hx.
  - vm_compute. reflexivity.
  - intros x c c' Hx Hy. vm_compute in Hx, Hy.
    repeat (apply elem_of_cons in Hx as [ [= -> ->]|Hx];
      [repeat (apply elem_of_cons in Hy as [Hy|Hy]; [discriminate|]);
       by apply elem_of_nil in Hy|]).
    by apply elem_of_nil in Hx.
  - right. right.
    exists {["commands" := Dir true {["mine.md" := File "my own"]}]}.
    split; vm_compute; reflexivity.
  - right. exists "{}". vm_compute. reflexivity.
  - exists w'. split_and!.
    + rewrite Hrun. f_equal.
    + apply Hc. apply elem_of_files_at. split; vm_compute; reflexivity.
    + etrans; [|by vm_compute]. apply (Hkeep "mine.md").
      intros c [_ Hl]%elem_of_files_at. vm_compute in Hl. discriminate.
    + apply Hreg. vm_compute. reflexivity.
Defined.


Lemma install_after_select_agent_witness :
  select_agent demo_env (Some "all") bare_world = Ok (inr ("all", [])) bare_world ∧
  install_selected demo_env "all" [] "python" bare_world = Ok [] bare_world ∧
  summary_agent_dir demo_env "all" [] = None.
Proof.
  assert (select_agent demo_env (Some "all") bare_world
          = Ok (inr ("all", [])) bare_world) as Hsel by (vm_compute; reflexivity).
  assert (install_selected demo_env "all" [] "python" bare_world = Ok [] bare_world)
    as Hrun by reflexivity.
  destruct (install_after_select_agent demo_env (Some "all") "python" bare_world
              "all" [] bare_world Hsel) as [_ Hloop].
  destruct (Hloop [] bare_world Hrun) as [_ Hsum].
  split_and!; [exact Hsel|exact Hrun|].
  apply Hsum. split; reflexivity.
Defined.

Lemma install_to_agent_isolated_witness :
  lookup_path ["home"; "u"; ".config"; "opencode"]
    (root (world_of (install_to_agent demo_env "claude-code" "python"
                       locked_agents_world)))
  = Some (dir []).
Proof.
  pose proof (install_to_agent_isolated demo_env "claude-code" "opencode" "python"
                locked_agents_world
                ["home"; "u"; ".claude"; "commands"]
                ["home"; "u"; ".config"; "opencode"; "commands"]
                ltac:(vm_compute; reflexivity) ltac:(vm_compute; reflexivity)
                ltac:(discriminate) []) as H.
  change (parent ["home"; "u"; ".config"; "opencode"; "commands"] ++ [])
    with ["home"; "u"; ".config"; "opencode"] in H.
  rewrite H. vm_compute. reflexivity.
Defined.

Lemma install_to_agent_counts_bounded_witness :
  ∃ r w',
    install_to_agent demo_env "claude-code" "python" odd_world = Ok r w' ∧
    count_files demo_env "python" odd_world = Ok (2, 0, 0, 0) odd_world ∧
    commands_installed r ≤ 2.
Proof.
  destruct (install_to_agent demo_env "claude-code" "python" odd_world)
    as [r w'|e w'] eqn:Hrun; [|vm_compute in Hrun; discriminate].
  exists r, w'. split; [reflexivity|].
  destruct (install_to_agent_counts_bounded demo_env "claude-code" "python"
              odd_world ["home"; "u"; ".claude"; "commands"] r w'
              ltac:(left)
              ltac:(vm_compute; reflexivity)
              ltac:(apply apart_by_head; discriminate) Hrun)
    as (cc & sc & lc & rc & Hcount & Hle & _).
  assert (count_files demo_env "python" odd_world = Ok (2, 0, 0, 0) odd_world)
    as Hplan by (vm_compute; reflexivity).
  split; [exact Hplan|].
  rewrite Hplan in Hcount. injection Hcount as <- _ _ _. exact Hle.
Defined.
